(** * astro-blog: the post listing and the site configuration

    A shallow embedding of the two pieces of logic of the repository:

    - the frontmatter script of the page that lists the posts, which
      filters the drafts out of the posts and sorts the rest by date,
      newest first ([sortedPosts]);
    - the configuration module ([src/config.ts]), which exports four
      literals and the origin of the site URL ([SITE_URL]).

    Both run on a JavaScript engine.  The part of the engine they use is
    modelled first (numbers, Date objects, a store of objects, completions,
    [Array.prototype.filter], [Array.prototype.sort], the URL parser's scheme
    states and the origin of a URL), then the two programs, then the
    template of the page, which turns the sorted posts into list items
    ([renderPost], with the calendar fields of a date and its two texts),
    then the sort as the engine of Node runs it ([V8]) and the states of the
    URL parser that read the authority of a site URL ([SpecialURL]), then
    the properties. *)

From Stdlib Require Import ZArith Lia List String Ascii Permutation Sorted.
From stdpp Require Import base option list sorting strings pretty.

(** ** Numbers *)

(** The Number values the listing computes with: time values and their
    differences.  Both are integers or NaN. *)
Inductive Number :=
  | NaN
  | Int (z : Z).

(** Rounding of an integer to the nearest double (53 bits of significand,
    ties to even).  Integers up to 2^53 in magnitude are exact.  Overflow to
    an infinity needs 1024 bits and is out of reach of time values. *)
Definition round_double (z : Z) : Z :=
  let a := Z.abs z in
  let e := (Z.log2 a - 52)%Z in
  if (e <=? 0)%Z then z
  else
    let q := (a / 2 ^ e)%Z in
    let r := (a mod 2 ^ e)%Z in
    let half := (2 ^ (e - 1))%Z in
    let q' :=
      if (r <? half)%Z then q
      else if (half <? r)%Z then (q + 1)%Z
      else if Z.even q then q else (q + 1)%Z in
    (Z.sgn z * (q' * 2 ^ e))%Z.

(** [x - y] on Numbers. *)
Definition Number_subtract (x y : Number) : Number :=
  match x, y with
  | Int a, Int b => Int (round_double (a - b))
  | _, _ => NaN
  end.

(** [v <= 0], false on NaN as every comparison with NaN is. *)
Definition Number_le_zero (v : Number) : bool :=
  match v with
  | NaN => false
  | Int z => (z <=? 0)%Z
  end.

(** ** Values and strict equality *)

Inductive Value :=
  | Undefined
  | Null
  | Boolean (b : bool)
  | Num (n : Number)
  | Str (s : string).

(** [x === y]. *)
Definition IsStrictlyEqual (x y : Value) : bool :=
  match x, y with
  | Undefined, Undefined => true
  | Null, Null => true
  | Boolean a, Boolean b => Bool.eqb a b
  | Num (Int a), Num (Int b) => (a =? b)%Z
  | Str a, Str b => String.eqb a b
  | _, _ => false
  end.

#[global] Instance Number_eq_dec : EqDecision Number.
Proof. solve_decision. Defined.

#[global] Instance Value_eq_dec : EqDecision Value.
Proof. solve_decision. Defined.

(** ** Date objects *)

(** A Date object holds one Number, its time value: milliseconds since the
    epoch, or NaN for an invalid date. *)
Record DateObject := { DateValue : Number }.

Definition TimeClip (time : Number) : Number :=
  match time with
  | NaN => NaN
  | Int t => if (8640000000000000 <? Z.abs t)%Z then NaN else Int t
  end.

(** [new Date(value)] for a value that is a Date object: the copy takes the
    time value of the argument through TimeClip. *)
Definition Date_new (value : DateObject) : DateObject :=
  {| DateValue := TimeClip (DateValue value) |}.

(** [date.valueOf()]. *)
Definition Date_valueOf (d : DateObject) : Number := DateValue d.

(** ** Documents *)

(** Modelled from the spec: the frontmatter schema
    ([src/lib/markdoc/frontmatter.schema]) and the reader
    ([src/lib/markdoc/read]) are not among the sources.  The fields are those
    of section 3 of the specification; [date] is a Date object (the page calls
    [toISOString] on it), [draft] is optional and so any value, [url] is
    present on external documents. *)
Record Frontmatter := {
  title : string;
  description : string;
  date : DateObject;
  external : bool;
  draft : Value;
  ogImagePath : option string;
  url : option string
}.

Record Document := {
  slug : string;
  frontmatter : Frontmatter;
  body : string
}.

(** ** The store *)

(** Objects are reached through references.  An array holds references to
    its elements, so two arrays can share a Document. *)
Abbreviation loc := nat.

Inductive Object :=
  | ODocument (d : Document)
  | OArray (elems : list loc).

(** The store is the table of the objects allocated so far, in allocation
    order: a reference is an index into it and a new object takes the next
    index. *)
Abbreviation Heap := (list Object).

(** ** Completions *)

Inductive Error := TypeError | RangeError.

Inductive Completion (A : Type) :=
  | Normal (a : A)
  | Throw (e : Error).
Arguments Normal {A} a.
Arguments Throw {A} e.

#[global] Instance Completion_ret : MRet Completion := λ A a, Normal a.
#[global] Instance Completion_bind : MBind Completion := λ A B k m,
  match m with
  | Normal a => k a
  | Throw e => Throw e
  end.

(** A computation reads and writes the store and completes normally or
    throws; the store survives a throw. *)
Definition JS (A : Type) : Type := Heap → Completion A * Heap.

#[global] Instance JS_ret : MRet JS := λ A a h, (Normal a, h).
#[global] Instance JS_bind : MBind JS := λ A B k m h,
  match m h with
  | (Normal a, h') => k a h'
  | (Throw e, h') => (Throw e, h')
  end.

Definition lift {A} (c : Completion A) : JS A := λ h, (c, h).

(** [new Object]: the next free index. *)
Definition alloc (o : Object) : JS loc := λ h, (Normal (length h), h ++ [o]).

(** [p.frontmatter] followed by a property read on the result.  An object
    that is not a Document has no [frontmatter], and reading a property of
    [undefined] throws a TypeError. *)
Definition frontmatter_of (p : loc) : JS Frontmatter := λ h,
  match h !! p with
  | Some (ODocument d) => (Normal (frontmatter d), h)
  | _ => (Throw TypeError, h)
  end.

(** The elements of an array; calling an array method on something else
    throws a TypeError. *)
Definition array_elements (O : loc) : JS (list loc) := λ h,
  match h !! O with
  | Some (OArray elems) => (Normal elems, h)
  | _ => (Throw TypeError, h)
  end.

(** [A[A.length] = x]. *)
Definition array_push (A : loc) (x : loc) : JS unit := λ h,
  match h !! A with
  | Some (OArray elems) => (Normal (), <[A := OArray (elems ++ [x])]> h)
  | _ => (Throw TypeError, h)
  end.

(** Overwrites the elements of an array in place. *)
Definition array_write (A : loc) (elems : list loc) : JS unit := λ h,
  match h !! A with
  | Some (OArray _) => (Normal (), <[A := OArray elems]> h)
  | _ => (Throw TypeError, h)
  end.

(** ** Array.prototype.filter *)

Fixpoint filter_loop (callbackfn : loc → JS bool) (A : loc) (elems : list loc)
    : JS unit :=
  match elems with
  | [] => mret ()
  | kValue :: rest =>
      selected ← callbackfn kValue;
      (if selected : bool then array_push A kValue else mret ());;
      filter_loop callbackfn A rest
  end.

(** [O.filter(callbackfn)]: a new array receives, in order, the elements the
    callback selects.  [O] is left as it is. *)
Definition Array_filter (O : loc) (callbackfn : loc → JS bool) : JS loc :=
  elems ← array_elements O;
  A ← alloc (OArray []);
  filter_loop callbackfn A elems;;
  mret A.

(** ** Array.prototype.sort *)

(** SortCompare with a comparator: a NaN result counts as +0. *)
Definition SortCompare (comparefn : loc → loc → JS Number) (x y : loc)
    : JS Number :=
  v ← comparefn x y;
  mret (match v with NaN => Int 0 | Int z => Int z end).

(** The engine chooses the sequence of SortCompare calls, and the standard
    asks for a stable sort.  The model inserts the elements from the last to
    the first, each one before the first element it does not have to follow:
    an element only moves behind those that SortCompare puts strictly before
    it.  When the comparator is consistent every stable sort returns the same
    list ([sortedPosts_result_unique] below); when it is not, as with
    invalid dates, the standard leaves the order to the engine and this is
    one such order.  The sort of the engine of Node is [V8.sort_elements]
    below: with valid dates it returns the same list
    ([V8_sort_valid_dates]), with an invalid date it need not. *)
Fixpoint sort_insert (comparefn : loc → loc → JS Number) (x : loc)
    (sorted : list loc) : JS (list loc) :=
  match sorted with
  | [] => mret [x]
  | y :: rest =>
      v ← SortCompare comparefn x y;
      if Number_le_zero v then mret (x :: y :: rest)
      else (rest' ← sort_insert comparefn x rest; mret (y :: rest'))
  end.

Fixpoint sort_elements (comparefn : loc → loc → JS Number) (elems : list loc)
    : JS (list loc) :=
  match elems with
  | [] => mret []
  | x :: rest =>
      sorted ← sort_elements comparefn rest;
      sort_insert comparefn x sorted
  end.

(** [O.sort(comparefn)]: reads the elements, sorts them, writes them back
    into [O] and returns [O] itself. *)
Definition Array_sort (O : loc) (comparefn : loc → loc → JS Number) : JS loc :=
  elems ← array_elements O;
  sorted ← sort_elements comparefn elems;
  array_write O sorted;;
  mret O.

(** ** The listing: [sortedPosts] *)

(** [(p) => p.frontmatter.draft !== true] *)
Definition isPublished (p : loc) : JS bool :=
  fm ← frontmatter_of p;
  mret (negb (IsStrictlyEqual (draft fm) (Boolean true))).

(** [(a, b) => new Date(b.frontmatter.date).valueOf() -
               new Date(a.frontmatter.date).valueOf()] *)
Definition byDateDescending (a b : loc) : JS Number :=
  fb ← frontmatter_of b;
  let tb := Date_valueOf (Date_new (date fb)) in
  fa ← frontmatter_of a;
  let ta := Date_valueOf (Date_new (date fa)) in
  mret (Number_subtract tb ta).

(** [posts.filter(...).sort(...)] *)
Definition sortedPosts (posts : loc) : JS loc :=
  filtered ← Array_filter posts isPublished;
  Array_sort filtered byDateDescending.

(** ** URLs *)

(** The URL Standard's parser and origin, as far as [new URL(input)] (no
    base URL) and the [origin] getter go.  Strings are sequences of bytes;
    only ASCII bytes are told apart. *)
Module URL.

Inductive Host :=
  | Domain (name : string)
  | IPv4 (address : N)
  | IPv6 (pieces : list N)
  | OpaqueHost (name : string)
  | EmptyHost.

Inductive Path :=
  | OpaquePath (p : string)
  | Segments (segs : list string).

(** What the parser fills in after the scheme. *)
Record Rest := {
  username : string;
  password : string;
  host : option Host;
  port : option N;
  path : Path;
  query : option string;
  fragment : option string
}.

Record Url := {
  scheme : string;
  rest : Rest
}.

Definition code (c : ascii) : nat := nat_of_ascii c.

Definition is_C0_control_or_space (c : ascii) : bool := (code c <=? 32)%nat.

Definition is_ASCII_tab_or_newline (c : ascii) : bool :=
  (code c =? 9)%nat || (code c =? 10)%nat || (code c =? 13)%nat.

Definition is_ASCII_upper_alpha (c : ascii) : bool :=
  (65 <=? code c)%nat && (code c <=? 90)%nat.

Definition is_ASCII_alpha (c : ascii) : bool :=
  is_ASCII_upper_alpha c || ((97 <=? code c)%nat && (code c <=? 122)%nat).

Definition is_ASCII_digit (c : ascii) : bool :=
  (48 <=? code c)%nat && (code c <=? 57)%nat.

Definition is_ASCII_alphanumeric (c : ascii) : bool :=
  is_ASCII_alpha c || is_ASCII_digit c.

Definition ASCII_lowercase (c : ascii) : ascii :=
  if is_ASCII_upper_alpha c then ascii_of_nat (code c + 32) else c.

Fixpoint strip_leading (s : string) : string :=
  match s with
  | String c s' => if is_C0_control_or_space c then strip_leading s' else s
  | EmptyString => EmptyString
  end.

Fixpoint strip_trailing (s : string) : string :=
  match s with
  | EmptyString => EmptyString
  | String c s' =>
      match strip_trailing s' with
      | EmptyString =>
          if is_C0_control_or_space c then EmptyString
          else String c EmptyString
      | r => String c r
      end
  end.

Fixpoint remove_tab_or_newline (s : string) : string :=
  match s with
  | EmptyString => EmptyString
  | String c s' =>
      if is_ASCII_tab_or_newline c then remove_tab_or_newline s'
      else String c (remove_tab_or_newline s')
  end.

(** Scheme state: the buffer grows while the input has alphanumerics,
    [+], [-] or [.]; a colon ends the scheme.  Anything else, or the end
    of the input, leads to the no scheme state, which fails when there is
    no base URL. *)
Fixpoint scheme_state (buffer remaining : string) : option (string * string) :=
  match remaining with
  | EmptyString => None
  | String c remaining' =>
      if is_ASCII_alphanumeric c
         || (code c =? 43)%nat || (code c =? 45)%nat || (code c =? 46)%nat
      then scheme_state (buffer ++ String (ASCII_lowercase c) EmptyString)
             remaining'
      else if (code c =? 58)%nat then Some (buffer, remaining')
      else None
  end.

(** Scheme start state: a scheme begins with a letter. *)
Definition scheme_start_state (input : string) : option (string * string) :=
  match input with
  | String c remaining =>
      if is_ASCII_alpha c
      then scheme_state (String (ASCII_lowercase c) EmptyString) remaining
      else None
  | EmptyString => None
  end.

Section Parser.

(** The states after the scheme (authority, host, port, path, query and
    fragment, with host parsing and percent-encoding) belong to the
    runtime: given the scheme and the remaining input they give the rest
    of the URL record, or fail. *)
Variable after_scheme : string → string → option Rest.

(** The basic URL parser on [input], without a base URL and without a
    state override; [None] is failure. *)
Definition basic_URL_parser (input : string) : option Url :=
  let input := strip_trailing (strip_leading input) in
  let input := remove_tab_or_newline input in
  match scheme_start_state input with
  | None => None
  | Some (buffer, remaining) =>
      match after_scheme buffer remaining with
      | None => None
      | Some r => Some {| scheme := buffer; rest := r |}
      end
  end.

End Parser.

(** *** Serializers *)

Definition hex_digit (n : N) : ascii :=
  if (n <? 10)%N then ascii_of_N (48 + n) else ascii_of_N (87 + n).

(** Shortest lowercase hexadecimal form of a 16-bit piece. *)
Definition hex (n : N) : string :=
  let d3 := ((n / 4096) mod 16)%N in
  let d2 := ((n / 256) mod 16)%N in
  let d1 := ((n / 16) mod 16)%N in
  let d0 := (n mod 16)%N in
  let s0 := String (hex_digit d0) EmptyString in
  if (0 <? d3)%N then
    String (hex_digit d3) (String (hex_digit d2) (String (hex_digit d1) s0))
  else if (0 <? d2)%N then String (hex_digit d2) (String (hex_digit d1) s0)
  else if (0 <? d1)%N then String (hex_digit d1) s0
  else s0.

Definition IPv4_serializer (address : N) : string :=
  (pretty ((address / 16777216) mod 256)%N ++ "." ++
   pretty ((address / 65536) mod 256)%N ++ "." ++
   pretty ((address / 256) mod 256)%N ++ "." ++
   pretty (address mod 256)%N)%string.

(** Length of the run of zero pieces at the head of [pieces]. *)
Fixpoint zero_run (pieces : list N) : nat :=
  match pieces with
  | 0%N :: pieces' => S (zero_run pieces')
  | _ => 0%nat
  end.

(** Start and length of the first longest run of zero pieces in [pieces],
    whose first piece has index [i]; [best] is the longest run before. *)
Fixpoint longest_zero_run (pieces : list N) (i : nat) (best : nat * nat)
    : nat * nat :=
  match pieces with
  | [] => best
  | _ :: pieces' =>
      let n := zero_run pieces in
      longest_zero_run pieces' (S i)
        (if (snd best <? n)%nat then (i, n) else best)
  end.

(** The index at which the address is compressed: the start of the first
    longest run of zero pieces that is longer than one piece. *)
Definition find_compress (pieces : list N) : option nat :=
  let '(start, n) := longest_zero_run pieces 0%nat (0%nat, 0%nat) in
  if (1 <? n)%nat then Some start else None.

Fixpoint IPv6_pieces (pieces : list N) (pieceIndex : nat)
    (compress : option nat) (ignore0 : bool) : string :=
  match pieces with
  | [] => EmptyString
  | piece :: pieces' =>
      if ignore0 && (piece =? 0)%N
      then IPv6_pieces pieces' (S pieceIndex) compress true
      else if bool_decide (compress = Some pieceIndex)
      then ((if (pieceIndex =? 0)%nat then "::" else ":") ++
            IPv6_pieces pieces' (S pieceIndex) compress true)%string
      else (hex piece ++
            (if (pieceIndex =? 7)%nat then "" else ":") ++
            IPv6_pieces pieces' (S pieceIndex) compress false)%string
  end.

Definition IPv6_serializer (pieces : list N) : string :=
  IPv6_pieces pieces 0%nat (find_compress pieces) false.

Definition host_serializer (h : Host) : string :=
  match h with
  | Domain name => name
  | IPv4 address => IPv4_serializer address
  | IPv6 pieces => ("[" ++ IPv6_serializer pieces ++ "]")%string
  | OpaqueHost name => name
  | EmptyHost => EmptyString
  end.

Definition path_serializer (p : Path) : string :=
  match p with
  | OpaquePath s => s
  | Segments segs =>
      fold_right (λ seg out, ("/" ++ seg ++ out)%string) EmptyString segs
  end.

(** *** Origin *)

Inductive Origin :=
  | OpaqueOrigin
  | TupleOrigin (scheme : string) (host : Host) (port : option N).

(** The tuple origin of a URL whose scheme has one.  Such a URL always has
    a host. *)
Definition tuple_origin (url : Url) : Origin :=
  match host (rest url) with
  | Some h => TupleOrigin (scheme url) h (port (rest url))
  | None => OpaqueOrigin
  end.

Definition has_tuple_origin (scheme : string) : bool :=
  bool_decide (scheme ∈ ["ftp"; "http"; "https"; "ws"; "wss"]%string).

Section Origin.

Variable after_scheme : string → string → option Rest.

(** The origin of a URL.  A [blob] URL takes the origin of the URL in
    its path when that one is [http] or [https] (no blob URL entry is
    registered while modules load); [file] and all other schemes have an
    opaque origin. *)
Definition origin (url : Url) : Origin :=
  if String.eqb (scheme url) "blob" then
    match basic_URL_parser after_scheme (path_serializer (path (rest url))) with
    | None => OpaqueOrigin
    | Some pathURL =>
        if bool_decide (scheme pathURL ∈ ["http"; "https"]%string)
        then tuple_origin pathURL
        else OpaqueOrigin
    end
  else if has_tuple_origin (scheme url) then tuple_origin url
  else OpaqueOrigin.

End Origin.

(** Serialization of an origin. *)
Definition serialize_origin (o : Origin) : string :=
  match o with
  | OpaqueOrigin => "null"
  | TupleOrigin scheme host port =>
      (scheme ++ "://" ++ host_serializer host ++
       match port with
       | None => ""
       | Some p => ":" ++ pretty p
       end)%string
  end.

End URL.

(** ** The configuration module *)

Module Config.

(** [import.meta.env]: the build tool sets [SITE] from its [site] option
    and leaves it undefined when there is none. *)
Record ImportMetaEnv := { SITE : option string }.

(** The exports of the module. *)
Record Exports := {
  SITE_TITLE : string;
  SITE_DESCRIPTION : string;
  TWITTER_HANDLE : string;
  MY_NAME : string;
  SITE_URL : string
}.

(** Conversion of the argument of [new URL] to a string. *)
Definition ToString (v : option string) : string :=
  match v with
  | Some s => s
  | None => "undefined"
  end.

Section Loading.

Variable after_scheme : string → string → option URL.Rest.

(** [new URL(url)]: a parse failure throws a TypeError. *)
Definition URL_new (url : option string) : Completion URL.Url :=
  match URL.basic_URL_parser after_scheme (ToString url) with
  | None => Throw TypeError
  | Some parsed => Normal parsed
  end.

(** The [origin] getter. *)
Definition URL_origin (u : URL.Url) : string :=
  URL.serialize_origin (URL.origin after_scheme u).

(** Evaluation of the module body, top to bottom. *)
Definition load (env : ImportMetaEnv) : Completion Exports :=
  let SITE_TITLE := "Cloud & Code with Damian Esteban "%string in
  let SITE_DESCRIPTION :=
    "Dive into the world of cloud computing, software engineering, and application architecture. Damian Esteban brings you practical guides, tips, and tech musings."%string in
  let TWITTER_HANDLE := "@estebanrules"%string in
  let MY_NAME := "Damian Esteban"%string in
  BASE_URL ← URL_new (SITE env);
  let SITE_URL := URL_origin BASE_URL in
  mret {| SITE_TITLE := SITE_TITLE;
          SITE_DESCRIPTION := SITE_DESCRIPTION;
          TWITTER_HANDLE := TWITTER_HANDLE;
          MY_NAME := MY_NAME;
          SITE_URL := SITE_URL |}.

End Loading.

End Config.

(** ** The page *)

(** The frontmatter script of the listing page: its imports are evaluated
    first, the configuration module among them; then [posts], which the
    reader has filled, is filtered and sorted.  The page renders
    [SITE_TITLE] and the sorted posts. *)
Definition page_script (after_scheme : string → string → option URL.Rest)
    (env : Config.ImportMetaEnv) (posts : loc) : JS (string * loc) :=
  config ← lift (Config.load after_scheme env);
  sorted ← sortedPosts posts;
  mret (Config.SITE_TITLE config, sorted).

(** ** Reading the store *)

(** The Document a reference leads to, if any. *)
Definition document_at (h : Heap) (p : loc) : option Document :=
  match h !! p with
  | Some (ODocument d) => Some d
  | _ => None
  end.

(** [posts] is an array whose elements [refs] are all Documents: what the
    reader hands to the page. *)
Definition is_posts (h : Heap) (posts : loc) (refs : list loc) : Prop :=
  h !! posts = Some (OArray refs) ∧
  Forall (λ p, is_Some (document_at h p)) refs.

(** The [draft] field behind a reference. *)
Definition draft_of (h : Heap) (p : loc) : Value :=
  match document_at h p with
  | Some d => draft (frontmatter d)
  | None => Undefined
  end.

(** The time value behind a reference. *)
Definition date_of (h : Heap) (p : loc) : Number :=
  match document_at h p with
  | Some d => DateValue (date (frontmatter d))
  | None => NaN
  end.

(** The Document is not a draft: its [draft] field is not the boolean
    [true]. *)
Definition not_draft (h : Heap) (p : loc) : Prop :=
  draft_of h p ≠ Boolean true.

#[global] Instance not_draft_dec h p : Decision (not_draft h p).
Proof. unfold not_draft. apply _. Defined.

(** A valid date is a time value within the range of Date objects. *)
Definition valid_time (n : Number) : Prop :=
  ∃ t, n = Int t ∧ (Z.abs t ≤ 8640000000000000)%Z.

(** What the filter callback answers on a Document. *)
Definition published (h : Heap) (p : loc) : bool :=
  match document_at h p with
  | Some d => negb (IsStrictlyEqual (draft (frontmatter d)) (Boolean true))
  | None => false
  end.

(** The timestamp the comparator computes for a Document. *)
Definition timestamp (h : Heap) (p : loc) : Number :=
  Date_valueOf (Date_new {| DateValue := date_of h p |}).

(** Whether the sort leaves [x] before [y] when it meets them in this
    order: SortCompare does not give a positive number. *)
Definition keeps_before (h : Heap) (x y : loc) : bool :=
  Number_le_zero
    (match Number_subtract (timestamp h y) (timestamp h x) with
     | NaN => Int 0
     | Int z => Int z
     end).

(** The sort of [Array_sort] on plain lists, for a comparator that does not
    throw. *)
Section InsertionSort.

Context {A : Type} (le : A → A → bool).

Fixpoint insert_before (x : A) (sorted : list A) : list A :=
  match sorted with
  | [] => [x]
  | y :: rest =>
      if le x y then x :: y :: rest else y :: insert_before x rest
  end.

Fixpoint insertion_sort (l : list A) : list A :=
  match l with
  | [] => []
  | x :: rest => insert_before x (insertion_sort rest)
  end.

End InsertionSort.

(** An occurrence of [x] comes before an occurrence of [y] in [l]. *)
Definition occurs_before {A} (x y : A) (l : list A) : Prop :=
  [x; y] `sublist_of` l.

(** The run of [sortedPosts] on [posts] in the store [h] completes normally;
    it returns an array whose elements are [out] and leaves the store [h']. *)
Definition returns_posts (h : Heap) (posts : loc) (out : list loc) (h' : Heap)
    : Prop :=
  ∃ r, sortedPosts posts h = (Normal r, h') ∧ h' !! r = Some (OArray out).


(** ** Example data *)

Module Examples.

Definition post (slug : string) (time : Number) (draft : Value) : Object :=
  ODocument {|
    slug := slug;
    frontmatter := {|
      title := slug; description := ""; date := {| DateValue := time |};
      external := false; draft := draft; ogImagePath := None; url := None |};
    body := "" |}.

(** Example 1 of the specification, as the reader would leave it in the
    store: 2023-06-06, 2025-06-16 and a draft of 2023-08-20 (midnight UTC),
    then the array of the three. *)
Definition example1 : Heap :=
  [ post "the-art-and-heart-of-engineering-teams" (Int 1686009600000) (Boolean false);
    post "how-to-use-postgis-with-prisma" (Int 1750032000000) (Boolean false);
    post "a-simple-crud-api-in-rust" (Int 1692489600000) (Boolean true);
    OArray [0; 1; 2] ].

(** Two posts of 2023-07-28 around a newer one, a post without [draft], a
    post whose [draft] is the string [true], and a post with an invalid
    date. *)
Definition example2 : Heap :=
  [ post "yoga-graphql-server" (Int 1690502400000) Undefined;
    post "postgis-with-prisma" (Int 1750032000000) (Boolean false);
    post "second-of-the-day" (Int 1690502400000) (Str "true");
    post "unfinished" (Int 1700000000000) (Boolean true);
    post "undated" NaN Null;
    OArray [0; 1; 2; 3; 4] ].

(** No posts. *)
Definition example_empty : Heap := [ OArray [] ].

(** A runtime that parses the URL of the site as the URL Standard does and
    knows no other URL. *)
Definition site_after_scheme (scheme remaining : string) : option URL.Rest :=
  if bool_decide (scheme = "https"
                  ∧ remaining = "//blog.damianesteban.dev/blog/?page=2#top")
  then Some {| URL.username := ""; URL.password := "";
               URL.host := Some (URL.Domain "blog.damianesteban.dev");
               URL.port := None;
               URL.path := URL.Segments ["blog"; ""];
               URL.query := Some "page=2";
               URL.fragment := Some "top" |}
  else None.

Definition site_env : Config.ImportMetaEnv :=
  {| Config.SITE := Some "https://blog.damianesteban.dev/blog/?page=2#top" |}.

Definition no_site_env : Config.ImportMetaEnv := {| Config.SITE := None |}.

End Examples.

(** ** Dates as calendar fields *)

(** The day and time-within-day arithmetic of the standard, on time values
    as integers. *)
Definition msPerDay : Z := 86400000.

Definition Day (t : Z) : Z := (t / msPerDay)%Z.

Definition TimeWithinDay (t : Z) : Z := (t mod msPerDay)%Z.

Definition DaysInYear (y : Z) : Z :=
  if negb (y mod 4 =? 0)%Z then 365%Z
  else if negb (y mod 100 =? 0)%Z then 366%Z
  else if negb (y mod 400 =? 0)%Z then 365%Z
  else 366%Z.

Definition DayFromYear (y : Z) : Z :=
  (365 * (y - 1970) + (y - 1969) / 4 - (y - 1901) / 100 + (y - 1601) / 400)%Z.

Definition TimeFromYear (y : Z) : Z := (msPerDay * DayFromYear y)%Z.

(** The largest year that starts at or before [t].  The mean length of a
    year gives a year that is off by one at most; the start of the year
    decides among the three. *)
Definition YearFromTime (t : Z) : Z :=
  let y := (1970 + 400 * Day t / 146097)%Z in
  if (TimeFromYear (y + 1) <=? t)%Z then (y + 1)%Z
  else if (TimeFromYear y <=? t)%Z then y
  else (y - 1)%Z.

(** 1 in a leap year, 0 otherwise. *)
Definition InLeapYear (t : Z) : Z :=
  if (DaysInYear (YearFromTime t) =? 366)%Z then 1%Z else 0%Z.

Definition DayWithinYear (t : Z) : Z := (Day t - DayFromYear (YearFromTime t))%Z.

(** The month, from 0 for January. *)
Definition MonthFromTime (t : Z) : Z :=
  let d := DayWithinYear t in
  let leap := InLeapYear t in
  if (d <? 31)%Z then 0%Z
  else if (d <? 59 + leap)%Z then 1%Z
  else if (d <? 90 + leap)%Z then 2%Z
  else if (d <? 120 + leap)%Z then 3%Z
  else if (d <? 151 + leap)%Z then 4%Z
  else if (d <? 181 + leap)%Z then 5%Z
  else if (d <? 212 + leap)%Z then 6%Z
  else if (d <? 243 + leap)%Z then 7%Z
  else if (d <? 273 + leap)%Z then 8%Z
  else if (d <? 304 + leap)%Z then 9%Z
  else if (d <? 334 + leap)%Z then 10%Z
  else 11%Z.

(** The day of the month, from 1. *)
Definition DateFromTime (t : Z) : Z :=
  let d := DayWithinYear t in
  let leap := InLeapYear t in
  match MonthFromTime t with
  | 0 => d + 1
  | 1 => d - 30
  | 2 => d - 58 - leap
  | 3 => d - 89 - leap
  | 4 => d - 119 - leap
  | 5 => d - 150 - leap
  | 6 => d - 180 - leap
  | 7 => d - 211 - leap
  | 8 => d - 242 - leap
  | 9 => d - 272 - leap
  | 10 => d - 303 - leap
  | _ => d - 333 - leap
  end%Z.

Definition HourFromTime (t : Z) : Z := ((t / 3600000) mod 24)%Z.
Definition MinFromTime (t : Z) : Z := ((t / 60000) mod 60)%Z.
Definition SecFromTime (t : Z) : Z := ((t / 1000) mod 60)%Z.
Definition msFromTime (t : Z) : Z := (t mod 1000)%Z.

(** ** Date.prototype.toISOString *)

Definition digit (n : Z) : ascii := ascii_of_N (Z.to_N (48 + n)).

(** The [w] lowest decimal digits of [n], the highest first. *)
Fixpoint digits (w : nat) (n : Z) : string :=
  match w with
  | O => EmptyString
  | S w' => String (digit ((n / 10 ^ Z.of_nat w') mod 10)) (digits w' n)
  end.

(** Four digits for the years 0 to 9999, a sign and six digits for the
    others. *)
Definition year_string (y : Z) : string :=
  if ((0 <=? y) && (y <=? 9999))%Z then digits 4 y
  else ((if (y <? 0)%Z then "-" else "+") ++ digits 6 (Z.abs y))%string.

(** The date and time format [YYYY-MM-DDTHH:mm:ss.sssZ], in UTC. *)
Definition ISO_string (t : Z) : string :=
  (year_string (YearFromTime t) ++ "-" ++
   digits 2 (MonthFromTime t + 1) ++ "-" ++
   digits 2 (DateFromTime t) ++ "T" ++
   digits 2 (HourFromTime t) ++ ":" ++
   digits 2 (MinFromTime t) ++ ":" ++
   digits 2 (SecFromTime t) ++ "." ++
   digits 3 (msFromTime t) ++ "Z")%string.

(** [date.toISOString()]: an invalid date throws a RangeError. *)
Definition Date_toISOString (d : DateObject) : Completion string :=
  match DateValue d with
  | NaN => Throw RangeError
  | Int t => Normal (ISO_string t)
  end.

(** ** Date.prototype.toLocaleDateString *)

(** What the machine that builds the site decides: the offset of its time
    zone from UTC at an instant, in milliseconds, and the text its locale
    data give for the options [year: numeric, month: short, day: numeric] in
    [en-us], from the year, the month (from 0) and the day of the month. *)
Record BuildMachine := {
  LocalTZA : Z → Z;
  en_us_date : Z → Z → Z → string
}.

(** [date.toLocaleDateString("en-us", {year: "numeric", month: "short",
    day: "numeric"})]: the calendar day of the local time, formatted; an
    invalid date gives a fixed text and does not throw. *)
Definition Date_toLocaleDateString (machine : BuildMachine) (d : DateObject)
    : string :=
  match DateValue d with
  | NaN => "Invalid Date"
  | Int t =>
      let local := (t + LocalTZA machine t)%Z in
      en_us_date machine
        (YearFromTime local) (MonthFromTime local) (DateFromTime local)
  end.

(** ** The list of posts on the page *)

(** What the template fills in for one post: the link (to the outside, or
    an image and a link to the post's own page), and the [time] element. *)
Inductive Link :=
  | ExternalLink (href : option string) (text : string)
  | InternalLink (image : option string) (href : string) (text : string).

Record ListItem := {
  link : Link;
  datetime : string;
  formattedDate : string
}.

(** [post.slug] in a template literal: the text [undefined] when the object
    has no such property. *)
Definition slug_of (post : loc) : JS string := λ h,
  match h !! post with
  | Some (ODocument d) => (Normal (slug d), h)
  | _ => (Normal "undefined"%string, h)
  end.

(** The callback of [sortedPosts.map]: one list item for one post.  Nothing
    writes to the store in between, so [post.frontmatter] is read once. *)
Definition renderPost (machine : BuildMachine) (post : loc) : JS ListItem :=
  fm ← frontmatter_of post;
  let formattedDate := Date_toLocaleDateString machine (Date_new (date fm)) in
  link ← (if external fm
          then mret (ExternalLink (url fm) (title fm))
          else (s ← slug_of post;
                mret (InternalLink (ogImagePath fm) ("/blog/" ++ s) (title fm))));
  datetime ← lift (Date_toISOString (date fm));
  mret {| link := link; datetime := datetime; formattedDate := formattedDate |}.

(** [O.map(callbackfn)], for a callback whose results go to the output of
    the page and not to the store. *)
Fixpoint map_loop {B} (callbackfn : loc → JS B) (elems : list loc)
    : JS (list B) :=
  match elems with
  | [] => mret []
  | kValue :: rest =>
      mappedValue ← callbackfn kValue;
      mapped ← map_loop callbackfn rest;
      mret (mappedValue :: mapped)
  end.

Definition Array_map {B} (O : loc) (callbackfn : loc → JS B) : JS (list B) :=
  elems ← array_elements O;
  map_loop callbackfn elems.

(** The page: the title for the metadata and the items of the list. *)
Record Page := {
  meta_title : string;
  list_items : list ListItem
}.

(** The script, then the template. *)
Definition page (after_scheme : string → string → option URL.Rest)
    (machine : BuildMachine) (env : Config.ImportMetaEnv) (posts : loc)
    : JS Page :=
  '(title, sorted) ← page_script after_scheme env posts;
  items ← Array_map sorted (renderPost machine);
  mret {| meta_title := title; list_items := items |}.

(** ** Reading the date and time format *)

(** The composition of a time value from calendar fields, as the standard
    has it: [MakeDay] takes the month from 0. *)
Definition days_before_month (leap : Z) (m : Z) : Z :=
  match m with
  | 0 => 0
  | 1 => 31
  | 2 => 59 + leap
  | 3 => 90 + leap
  | 4 => 120 + leap
  | 5 => 151 + leap
  | 6 => 181 + leap
  | 7 => 212 + leap
  | 8 => 243 + leap
  | 9 => 273 + leap
  | 10 => 304 + leap
  | _ => 334 + leap
  end%Z.

Definition MakeDay (year month date : Z) : Z :=
  let ym := (year + month / 12)%Z in
  let mn := (month mod 12)%Z in
  let leap := if (DaysInYear ym =? 366)%Z then 1%Z else 0%Z in
  (DayFromYear ym + days_before_month leap mn + date - 1)%Z.

Definition MakeTime (hour min sec ms : Z) : Z :=
  (hour * 3600000 + min * 60000 + sec * 1000 + ms)%Z.

Definition MakeDate (day time : Z) : Z := (day * msPerDay + time)%Z.

Definition digit_value (c : ascii) : option Z :=
  if URL.is_ASCII_digit c then Some (Z.of_nat (URL.code c) - 48)%Z else None.

(** Reads [w] digits after the digits that gave [acc]. *)
Fixpoint read_digits (w : nat) (acc : Z) (s : string) : option (Z * string) :=
  match w with
  | O => Some (acc, s)
  | S w' =>
      match s with
      | String c s' => v ← digit_value c; read_digits w' (10 * acc + v) s'
      | EmptyString => None
      end
  end.

Definition read_char (c : ascii) (s : string) : option string :=
  match s with
  | String c' s' => if Ascii.eqb c c' then Some s' else None
  | EmptyString => None
  end.

Definition read_year (s : string) : option (Z * string) :=
  match s with
  | String "+" s' => read_digits 6 0 s'
  | String "-" s' => '(y, s'') ← read_digits 6 0 s'; Some ((- y)%Z, s'')
  | _ => read_digits 4 0 s
  end.

(** The time value a string in the format of [toISOString] stands for. *)
Definition parse_ISO_string (s : string) : option Z :=
  '(year, s) ← read_year s;
  s ← read_char "-" s;
  '(month, s) ← read_digits 2 0 s;
  s ← read_char "-" s;
  '(date, s) ← read_digits 2 0 s;
  s ← read_char "T" s;
  '(hour, s) ← read_digits 2 0 s;
  s ← read_char ":" s;
  '(min, s) ← read_digits 2 0 s;
  s ← read_char ":" s;
  '(sec, s) ← read_digits 2 0 s;
  s ← read_char "." s;
  '(ms, s) ← read_digits 3 0 s;
  s ← read_char "Z" s;
  match s with
  | EmptyString =>
      Some (MakeDate (MakeDay year (month - 1) date) (MakeTime hour min sec ms))
  | _ => None
  end.

(** The list item of a Document whose date is the instant [t]. *)
Definition item_for (machine : BuildMachine) (d : Document) (t : Z) : ListItem :=
  let fm := frontmatter d in
  {| link :=
       if external fm then ExternalLink (url fm) (title fm)
       else InternalLink (ogImagePath fm) ("/blog/" ++ slug d) (title fm);
     datetime := ISO_string t;
     formattedDate := Date_toLocaleDateString machine (Date_new (date fm)) |}.

(** The targets of the links to the posts' own pages. *)
Definition internal_hrefs (items : list ListItem) : list string :=
  omap (λ item, match link item with
                | InternalLink _ href _ => Some href
                | ExternalLink _ _ => None
                end) items.

(** What the list shows for a reference: the item of its Document. *)
Definition shows (machine : BuildMachine) (h : Heap) (p : loc) (item : ListItem)
    : Prop :=
  ∃ d t, document_at h p = Some d ∧ date_of h p = Int t
         ∧ item = item_for machine d t.

(** A string of C0 controls and spaces only. *)
Definition blank (s : string) : Prop :=
  Forall (λ c, URL.is_C0_control_or_space c = true) (list_ascii_of_string s).

(** A string without a colon. *)
Definition colonless (s : string) : Prop :=
  Forall (λ c, c ≠ ":"%char) (list_ascii_of_string s).

(** ** More example data *)

Module MoreExamples.

(** An array that holds a Document and, by mistake, itself. *)
Definition example_broken : Heap :=
  [ Examples.post "only-post" (Int 1686009600000) (Boolean false);
    OArray [0; 1] ].

(** Two published posts, the newer first. *)
Definition example_sorted : Heap :=
  [ Examples.post "the-art-and-heart-of-engineering-teams" (Int 1686009600000) (Boolean false);
    Examples.post "how-to-use-postgis-with-prisma" (Int 1750032000000) Undefined;
    OArray [1; 0] ].

(** A published post without a valid date, and a draft without one. *)
Definition example_undated : Heap :=
  [ Examples.post "dated" (Int 1686009600000) (Boolean false);
    Examples.post "undated" NaN (Boolean false);
    Examples.post "undated-draft" NaN (Boolean true);
    OArray [0; 1; 2];
    OArray [0; 2] ].

(** A post that links to the outside, and a post of the site. *)
Definition example_external : Heap :=
  [ ODocument {|
      slug := "elsewhere";
      frontmatter := {|
        title := "A talk"; description := "";
        date := {| DateValue := Int 1692489600000 |};
        external := true; draft := Undefined; ogImagePath := None;
        url := Some "https://example.org/talk" |};
      body := "" |};
    ODocument {|
      slug := "how-to-use-postgis-with-prisma";
      frontmatter := {|
        title := "How I Got PostGIS Working with Prisma"; description := "";
        date := {| DateValue := Int 1750032000000 |};
        external := false; draft := Undefined;
        ogImagePath := Some "https://cdn.damianesteban.dev/prisma-postgis.webp";
        url := None |};
      body := "" |};
    OArray [0; 1] ].

Definition month_name (m : Z) : string :=
  match m with
  | 0 => "Jan" | 1 => "Feb" | 2 => "Mar" | 3 => "Apr" | 4 => "May"
  | 5 => "Jun" | 6 => "Jul" | 7 => "Aug" | 8 => "Sep" | 9 => "Oct"
  | 10 => "Nov" | _ => "Dec"
  end%Z.

(** A machine in UTC, and one five hours west of it, with the usual text of
    the locale for the years from 1 on. *)
Definition utc_machine : BuildMachine :=
  {| LocalTZA := λ _, 0%Z;
     en_us_date := λ y m d,
       (month_name m ++ " " ++ pretty d ++ ", " ++ pretty y)%string |}.

Definition western_machine : BuildMachine :=
  {| LocalTZA := λ _, (-18000000)%Z;
     en_us_date := en_us_date utc_machine |}.

(** The page of [example_external] on the machine in UTC. *)
Definition example_external_page : Page :=
  {| meta_title := "Cloud & Code with Damian Esteban ";
     list_items :=
       [ {| link := InternalLink
                      (Some "https://cdn.damianesteban.dev/prisma-postgis.webp")
                      "/blog/how-to-use-postgis-with-prisma"
                      "How I Got PostGIS Working with Prisma";
            datetime := "2025-06-16T00:00:00.000Z";
            formattedDate := "Jun 16, 2025" |};
         {| link := ExternalLink (Some "https://example.org/talk") "A talk";
            datetime := "2023-08-20T00:00:00.000Z";
            formattedDate := "Aug 20, 2023" |} ] |}.

(** The URL record of [Examples.site_env]. *)
Definition site_url : URL.Url :=
  {| URL.scheme := "https";
     URL.rest := {|
       URL.username := ""; URL.password := "";
       URL.host := Some (URL.Domain "blog.damianesteban.dev");
       URL.port := None;
       URL.path := URL.Segments ["blog"; ""];
       URL.query := Some "page=2";
       URL.fragment := Some "top" |} |}.

End MoreExamples.

(** ** The sort of the engine *)

(** When the comparator is not consistent, as with an invalid date, the
    standard leaves the order of the result to the engine.  This is the sort
    of V8, the engine of Node, on arrays of fewer than 64 elements (a longer
    array is cut into runs that are sorted in this way and then merged).  The
    array starts with a run that is in order already, or that is strictly
    descending and is reversed; every element after the run is inserted into
    the part before it, at the position a binary search gives. *)
Module V8.

(** [order < 0] *)
Definition Number_lt_zero (order : Number) : bool :=
  match order with
  | NaN => false
  | Int z => (z <? 0)%Z
  end.

(** The loop of CountAndMakeRun: how many elements of [rest] continue the
    run that ends with [previousElement]. *)
Fixpoint extend_run (comparefn : loc → loc → JS Number) (isDescending : bool)
    (previousElement : loc) (rest : list loc) : JS nat :=
  match rest with
  | [] => mret 0
  | currentElement :: rest' =>
      order ← SortCompare comparefn currentElement previousElement;
      if (if isDescending then negb (Number_lt_zero order)
          else Number_lt_zero order)
      then mret 0
      else (n ← extend_run comparefn isDescending currentElement rest';
            mret (S n))
  end.

(** CountAndMakeRun from the start of the work array: the length of the
    first run, and the work array with the run reversed when it was
    descending. *)
Definition CountAndMakeRun (comparefn : loc → loc → JS Number)
    (workArray : list loc) : JS (list loc * nat) :=
  match workArray with
  | elementHigh :: elementLow :: rest =>
      order ← SortCompare comparefn elementLow elementHigh;
      let isDescending := Number_lt_zero order in
      n ← extend_run comparefn isDescending elementLow rest;
      let runLength := 2 + n in
      mret (if isDescending
            then reverse (take runLength workArray) ++ drop runLength workArray
            else workArray,
            runLength)
  | _ => mret (workArray, 1)
  end.

(** The binary search of BinaryInsertionSort for the place of [pivot] in
    [sorted], between [left] and [right].  The interval halves at every
    step, so [fuel] steps are enough when [right - left <= fuel]. *)
Fixpoint binary_search (fuel : nat) (comparefn : loc → loc → JS Number)
    (sorted : list loc) (pivot : loc) (left right : nat) : JS nat :=
  match fuel with
  | 0 => mret left
  | S fuel' =>
      if left <? right then
        let mid := left + (right - left) / 2 in
        match sorted !! mid with
        | Some x =>
            order ← SortCompare comparefn pivot x;
            if Number_lt_zero order
            then binary_search fuel' comparefn sorted pivot left mid
            else binary_search fuel' comparefn sorted pivot (mid + 1) right
        | None => mret left
        end
      else mret left
  end.

(** The loop of BinaryInsertionSort: [sorted] is the part of the work array
    before [start], [rest] the part from [start] on. *)
Fixpoint BinaryInsertionSort (comparefn : loc → loc → JS Number)
    (sorted rest : list loc) : JS (list loc) :=
  match rest with
  | [] => mret sorted
  | pivot :: rest' =>
      left ← binary_search (length sorted) comparefn sorted pivot 0
               (length sorted);
      BinaryInsertionSort comparefn
        (take left sorted ++ pivot :: drop left sorted) rest'
  end.

(** ArrayTimSortImpl when the minimal run length is the length of the
    array. *)
Definition sort_elements (comparefn : loc → loc → JS Number)
    (elems : list loc) : JS (list loc) :=
  if length elems <? 2 then mret elems
  else
    '(workArray, runLength) ← CountAndMakeRun comparefn elems;
    BinaryInsertionSort comparefn (take runLength workArray)
      (drop runLength workArray).

(** [O.sort(comparefn)] *)
Definition Array_sort (O : loc) (comparefn : loc → loc → JS Number) : JS loc :=
  elems ← array_elements O;
  sorted ← sort_elements comparefn elems;
  array_write O sorted;;
  mret O.

(** [posts.filter(...).sort(...)] on this engine. *)
Definition sortedPosts (posts : loc) : JS loc :=
  filtered ← Array_filter posts isPublished;
  Array_sort filtered byDateDescending.

Section PlainLists.

(** The same sort on plain lists, for a comparator that does not throw:
    [lt x y] tells whether SortCompare gives a negative number on [x] and
    [y]. *)
Context {A : Type} (lt : A → A → bool).

Fixpoint run_length (isDescending : bool) (previousElement : A)
    (rest : list A) : nat :=
  match rest with
  | [] => 0
  | currentElement :: rest' =>
      if (if isDescending then negb (lt currentElement previousElement)
          else lt currentElement previousElement)
      then 0
      else S (run_length isDescending currentElement rest')
  end.

Definition make_run (workArray : list A) : list A * nat :=
  match workArray with
  | elementHigh :: elementLow :: rest =>
      let isDescending := lt elementLow elementHigh in
      let runLength := 2 + run_length isDescending elementLow rest in
      (if isDescending
       then reverse (take runLength workArray) ++ drop runLength workArray
       else workArray,
       runLength)
  | _ => (workArray, 1)
  end.

Fixpoint search (fuel : nat) (sorted : list A) (pivot : A)
    (left right : nat) : nat :=
  match fuel with
  | 0 => left
  | S fuel' =>
      if left <? right then
        let mid := left + (right - left) / 2 in
        match sorted !! mid with
        | Some x =>
            if lt pivot x then search fuel' sorted pivot left mid
            else search fuel' sorted pivot (mid + 1) right
        | None => left
        end
      else left
  end.

Fixpoint binary_insertion (sorted rest : list A) : list A :=
  match rest with
  | [] => sorted
  | pivot :: rest' =>
      let left := search (length sorted) sorted pivot 0 (length sorted) in
      binary_insertion (take left sorted ++ pivot :: drop left sorted) rest'
  end.

Definition sort (elems : list A) : list A :=
  if length elems <? 2 then elems
  else
    let '(workArray, runLength) := make_run elems in
    binary_insertion (take runLength workArray) (drop runLength workArray).

End PlainLists.

End V8.

(** Whether SortCompare is negative on [x] and [y]: [x] has to come before
    [y]. *)
Definition comes_before (h : Heap) (x y : loc) : bool :=
  V8.Number_lt_zero
    (match Number_subtract (timestamp h y) (timestamp h x) with
     | NaN => Int 0
     | Int z => Int z
     end).

(** The run of [V8.sortedPosts], like [returns_posts]. *)
Definition V8_returns_posts (h : Heap) (posts : loc) (out : list loc)
    (h' : Heap) : Prop :=
  ∃ r, V8.sortedPosts posts h = (Normal r, h') ∧ h' !! r = Some (OArray out).

(** The instant of a post as an integer, 0 when the date is invalid. *)
Definition instant (h : Heap) (p : loc) : Z :=
  match timestamp h p with
  | Int t => t
  | NaN => 0%Z
  end.

Module EngineExamples.

(** Seven published posts of which three have an invalid date, and the array
    of the seven. *)
Definition example_invalid_dates : Heap :=
  [ Examples.post "a" NaN (Boolean false);
    Examples.post "b" NaN (Boolean false);
    Examples.post "c" (Int 1000) (Boolean false);
    Examples.post "d" (Int 2000) (Boolean false);
    Examples.post "e" NaN (Boolean false);
    Examples.post "f" (Int 2000) (Boolean false);
    Examples.post "g" (Int 2000) (Boolean false);
    OArray [0; 1; 2; 3; 4; 5; 6] ].

(** Three published posts of 2023-07-28 around a newer one and a draft, all
    with valid dates. *)
Definition example_same_day : Heap :=
  [ Examples.post "yoga-graphql-server" (Int 1690502400000) Undefined;
    Examples.post "postgis-with-prisma" (Int 1750032000000) (Boolean false);
    Examples.post "second-of-the-day" (Int 1690502400000) (Str "true");
    Examples.post "unfinished" (Int 1690502400000) (Boolean true);
    Examples.post "third-of-the-day" (Int 1690502400000) Null;
    OArray [0; 1; 2; 3; 4] ].

(** Four published posts, the third without a valid date. *)
Definition example_one_invalid : Heap :=
  [ Examples.post "a" (Int 1000) (Boolean false);
    Examples.post "b" (Int 2000) (Boolean false);
    Examples.post "c" NaN (Boolean false);
    Examples.post "d" (Int 1500) (Boolean false);
    OArray [0; 1; 2; 3] ].

End EngineExamples.

(** ** The URL parser after the scheme *)

(** The states of the URL Standard's parser that follow the scheme state,
    for a special scheme other than [file] ([ftp], [http], [https], [ws],
    [wss]) and without a base URL: the slashes, the authority with its
    credentials, the host with the host parser, and the port.  These are
    the states that decide the origin. *)
Module SpecialURL.

(** What stays with the runtime: the percent-encoding of the credentials,
    the parser of IPv6 addresses, the Unicode ToASCII operation on domains
    that are not plain ASCII, the states from the path start state on, which
    cannot fail, and the states of the other schemes. *)
Record Runtime := {
  userinfo_percent_encode : ascii → string;
  IPv6_parser : string → option (list N);
  Unicode_ToASCII : string → option string;
  path_start_state :
    string → string → URL.Path * option string * option string;
  other_schemes : string → string → option URL.Rest
}.

Definition is_special (scheme : string) : bool :=
  bool_decide (scheme ∈ ["ftp"; "file"; "http"; "https"; "ws"; "wss"]%string).

Definition default_port (scheme : string) : option N :=
  if String.eqb scheme "ftp" then Some 21%N
  else if String.eqb scheme "http" then Some 80%N
  else if String.eqb scheme "https" then Some 443%N
  else if String.eqb scheme "ws" then Some 80%N
  else if String.eqb scheme "wss" then Some 443%N
  else None.

(** The code points that end the authority of a special URL: [/], [?], [#]
    and [\]. *)
Definition ends_authority (c : ascii) : bool :=
  (URL.code c =? 47)%nat || (URL.code c =? 63)%nat || (URL.code c =? 35)%nat
  || (URL.code c =? 92)%nat.

(** *** Numbers *)

(** The value of [c] as a digit in radix [R], if it is one. *)
Definition radix_digit (R : N) (c : ascii) : option N :=
  let n := N.of_nat (URL.code c) in
  let v :=
    if URL.is_ASCII_digit c then Some (n - 48)%N
    else if (97 <=? n)%N && (n <=? 102)%N then Some (n - 87)%N
    else if (65 <=? n)%N && (n <=? 70)%N then Some (n - 55)%N
    else None in
  match v with
  | Some d => if (d <? R)%N then Some d else None
  | None => None
  end.

(** The number [s] stands for in radix [R], after the digits [acc]. *)
Fixpoint radix_value (R : N) (acc : N) (s : string) : option N :=
  match s with
  | EmptyString => Some acc
  | String c s' =>
      match radix_digit R c with
      | Some d => radix_value R (R * acc + d)%N s'
      | None => None
      end
  end.

(** *** The host parser *)

(** Percent-decoding of a byte sequence. *)
Fixpoint percent_decode (s : string) : string :=
  match s with
  | EmptyString => EmptyString
  | String c s' =>
      if (URL.code c =? 37)%nat then
        match s' with
        | String h1 (String h2 s'') =>
            match radix_digit 16 h1, radix_digit 16 h2 with
            | Some d1, Some d2 =>
                String (ascii_of_N (16 * d1 + d2)) (percent_decode s'')
            | _, _ => String c (percent_decode s')
            end
        | _ => String c (percent_decode s')
        end
      else String c (percent_decode s')
  end.

(** Strict split on [.]; [item] is the item being read. *)
Fixpoint split_on_dot (item s : string) : list string :=
  match s with
  | EmptyString => [item]
  | String c s' =>
      if (URL.code c =? 46)%nat then item :: split_on_dot EmptyString s'
      else split_on_dot (item ++ String c EmptyString) s'
  end.

Definition strictly_split (s : string) : list string :=
  split_on_dot EmptyString s.

Fixpoint ASCII_lowercase (s : string) : string :=
  match s with
  | EmptyString => EmptyString
  | String c s' => String (URL.ASCII_lowercase c) (ASCII_lowercase s')
  end.

Fixpoint all_chars (P : ascii → bool) (s : string) : bool :=
  match s with
  | EmptyString => true
  | String c s' => P c && all_chars P s'
  end.

Definition is_ASCII_string (s : string) : bool :=
  all_chars (λ c, (URL.code c <? 128)%nat) s.

(** The item starts with an ASCII case-insensitive match for [xn--]. *)
Definition starts_with_xn (item : string) : bool :=
  match item with
  | String c1 (String c2 (String c3 (String c4 _))) =>
      String.eqb
        (ASCII_lowercase
           (String c1 (String c2 (String c3 (String c4 EmptyString)))))
        "xn--"
  | _ => false
  end.

Definition is_forbidden_host_code_point (c : ascii) : bool :=
  bool_decide (URL.code c ∈ [0; 9; 10; 13; 32; 35; 47; 58; 60; 62; 63; 64;
                              91; 92; 93; 94; 124]).

Definition is_forbidden_domain_code_point (c : ascii) : bool :=
  is_forbidden_host_code_point c || (URL.code c <=? 31)%nat
  || (URL.code c =? 37)%nat || (URL.code c =? 127)%nat.

(** The IPv4 number parser, without its validation error flag. *)
Definition IPv4_number_parser (input : string) : option N :=
  match input with
  | EmptyString => None
  | String c1 (String c2 input') =>
      if (URL.code c1 =? 48)%nat
         && ((URL.code c2 =? 88)%nat || (URL.code c2 =? 120)%nat)
      then radix_value 16 0 input'
      else if (URL.code c1 =? 48)%nat then radix_value 8 0 (String c2 input')
      else radix_value 10 0 input
  | String c1 EmptyString => radix_value 10 0 input
  end.

(** The parts of [input] between dots, without the empty last part that a
    trailing dot leaves when there is another part. *)
Definition without_empty_last (parts : list string) : list string :=
  match reverse parts with
  | EmptyString :: ((_ :: _) as others) => reverse others
  | _ => parts
  end.

(** The ends-in-a-number checker. *)
Definition ends_in_a_number (input : string) : bool :=
  let parts := strictly_split input in
  match reverse parts with
  | [EmptyString] => false
  | EmptyString :: last :: _ | last :: _ =>
      (negb (String.eqb last EmptyString) && all_chars URL.is_ASCII_digit last)
      || bool_decide (is_Some (IPv4_number_parser last))
  | [] => false
  end.

(** The numbers of an IPv4 address, all but the last at most 255, put
    together: [numbers] counted from [counter]. *)
Fixpoint IPv4_sum (numbers : list N) (counter : nat) : N :=
  match numbers with
  | [] => 0%N
  | n :: numbers' =>
      (n * 256 ^ N.of_nat (3 - counter) + IPv4_sum numbers' (S counter))%N
  end.

(** The IPv4 parser. *)
Definition IPv4_parser (input : string) : option N :=
  let parts := without_empty_last (strictly_split input) in
  if (4 <? length parts)%nat then None
  else
    numbers ← mapM IPv4_number_parser parts;
    match reverse numbers with
    | [] => None
    | last :: others =>
        if bool_decide (Exists (λ n, (255 < n)%N) others) then None
        else if (256 ^ N.of_nat (5 - length numbers) <=? last)%N then None
        else Some (last + IPv4_sum (reverse others) 0)%N
    end.

Fixpoint remove_last (s : string) : string :=
  match s with
  | EmptyString => EmptyString
  | String c EmptyString => EmptyString
  | String c s' => String c (remove_last s')
  end.

Fixpoint last_code (s : string) : option nat :=
  match s with
  | EmptyString => None
  | String c EmptyString => Some (URL.code c)
  | String c s' => last_code s'
  end.

Section States.

Variable rt : Runtime.

(** Domain to ASCII, not strict.  On an ASCII domain without a label that
    starts with [xn--], Unicode ToASCII is ASCII lowercasing. *)
Definition domain_to_ASCII (domain : string) : option string :=
  result ← (if is_ASCII_string domain
               && negb (existsb starts_with_xn (strictly_split domain))
            then Some (ASCII_lowercase domain)
            else Unicode_ToASCII rt domain);
  if String.eqb result EmptyString then None
  else if negb (all_chars (λ c, negb (is_forbidden_domain_code_point c)) result)
  then None
  else Some result.

(** The host parser on the host of a special URL, which is not empty. *)
Definition host_parser (input : string) : option URL.Host :=
  match input with
  | String c input' =>
      if (URL.code c =? 91)%nat then
        if bool_decide (last_code input = Some 93)
        then pieces ← IPv6_parser rt (remove_last input');
             Some (URL.IPv6 pieces)
        else None
      else
        let domain := percent_decode input in
        asciiDomain ← domain_to_ASCII domain;
        if ends_in_a_number asciiDomain
        then address ← IPv4_parser asciiDomain; Some (URL.IPv4 address)
        else Some (URL.Domain asciiDomain)
  | EmptyString => None
  end.

(** *** The states *)

Variable scheme : string.

(** The end of the port state: the port is the number in the buffer, and
    no port when that is the default port of the scheme. *)
Definition port_of (buffer : string) : option (option N) :=
  if String.eqb buffer EmptyString then Some None
  else
    match radix_value 10 0 buffer with
    | Some port =>
        if (65535 <? port)%N then None
        else if bool_decide (default_port scheme = Some port) then Some None
        else Some (Some port)
    | None => None
    end.

(** Port state.  The result is the port and the input from the path start
    state on. *)
Fixpoint port_state (buffer remaining : string)
    : option (option N * string) :=
  match remaining with
  | String c remaining' =>
      if URL.is_ASCII_digit c
      then port_state (buffer ++ String c EmptyString) remaining'
      else if ends_authority c
      then port ← port_of buffer; Some (port, remaining)
      else None
  | EmptyString => port ← port_of buffer; Some (port, EmptyString)
  end.

(** Host state. *)
Fixpoint host_state (insideBrackets : bool) (buffer remaining : string)
    : option (URL.Host * option N * string) :=
  match remaining with
  | String c remaining' =>
      if (URL.code c =? 58)%nat && negb insideBrackets then
        if String.eqb buffer EmptyString then None
        else
          host ← host_parser buffer;
          '(port, remaining) ← port_state EmptyString remaining';
          Some (host, port, remaining)
      else if ends_authority c then
        if String.eqb buffer EmptyString then None
        else host ← host_parser buffer; Some (host, None, remaining)
      else
        host_state
          (if (URL.code c =? 91)%nat then true
           else if (URL.code c =? 93)%nat then false
           else insideBrackets)
          (buffer ++ String c EmptyString) remaining'
  | EmptyString =>
      if String.eqb buffer EmptyString then None
      else host ← host_parser buffer; Some (host, None, EmptyString)
  end.

(** The credentials in the buffer, added to the username and the password:
    the first colon separates the two. *)
Fixpoint add_credentials (passwordTokenSeen : bool)
    (username password buffer : string) : bool * string * string :=
  match buffer with
  | EmptyString => (passwordTokenSeen, username, password)
  | String c buffer' =>
      if (URL.code c =? 58)%nat && negb passwordTokenSeen
      then add_credentials true username password buffer'
      else if passwordTokenSeen
      then add_credentials passwordTokenSeen username
             (password ++ userinfo_percent_encode rt c) buffer'
      else add_credentials passwordTokenSeen
             (username ++ userinfo_percent_encode rt c) password buffer'
  end.

(** What the authority state does at the end of the authority: with an
    at sign and nothing after it the host is missing; otherwise the host
    state reads the buffer again. *)
Definition end_of_authority (atSignSeen : bool)
    (username password buffer remaining : string)
    : option (string * string * URL.Host * option N * string) :=
  if atSignSeen && String.eqb buffer EmptyString then None
  else
    '(host, port, remaining) ← host_state false EmptyString
                                 (buffer ++ remaining);
    Some (username, password, host, port, remaining).

(** Authority state. *)
Fixpoint authority_state (atSignSeen passwordTokenSeen : bool)
    (username password buffer remaining : string)
    : option (string * string * URL.Host * option N * string) :=
  match remaining with
  | String c remaining' =>
      if (URL.code c =? 64)%nat then
        let buffer := if atSignSeen then ("%40" ++ buffer)%string else buffer in
        let '(passwordTokenSeen, username, password) :=
          add_credentials passwordTokenSeen username password buffer in
        authority_state true passwordTokenSeen username password EmptyString
          remaining'
      else if ends_authority c
      then end_of_authority atSignSeen username password buffer remaining
      else authority_state atSignSeen passwordTokenSeen username password
             (buffer ++ String c EmptyString) remaining'
  | EmptyString =>
      end_of_authority atSignSeen username password buffer EmptyString
  end.

(** Special authority ignore slashes state. *)
Fixpoint special_authority_ignore_slashes_state (remaining : string)
    : option (string * string * URL.Host * option N * string) :=
  match remaining with
  | String c remaining' =>
      if (URL.code c =? 47)%nat || (URL.code c =? 92)%nat
      then special_authority_ignore_slashes_state remaining'
      else authority_state false false EmptyString EmptyString EmptyString
             remaining
  | EmptyString =>
      authority_state false false EmptyString EmptyString EmptyString
        EmptyString
  end.

(** Special authority slashes state. *)
Definition special_authority_slashes_state (remaining : string)
    : option (string * string * URL.Host * option N * string) :=
  match remaining with
  | String c1 (String c2 remaining') =>
      if (URL.code c1 =? 47)%nat && (URL.code c2 =? 47)%nat
      then special_authority_ignore_slashes_state remaining'
      else special_authority_ignore_slashes_state remaining
  | _ => special_authority_ignore_slashes_state remaining
  end.

End States.

(** The parser after the scheme state. *)
Definition after_scheme (rt : Runtime) (scheme remaining : string)
    : option URL.Rest :=
  if is_special scheme && negb (String.eqb scheme "file") then
    '(username, password, host, port, remaining) ←
      special_authority_slashes_state rt scheme remaining;
    let '(path, query, fragment) := path_start_state rt scheme remaining in
    Some {| URL.username := username; URL.password := password;
            URL.host := Some host; URL.port := port;
            URL.path := path; URL.query := query;
            URL.fragment := fragment |}
  else other_schemes rt scheme remaining.

(** A domain in plain form: letters in lower case, digits, hyphens and
    dots, no label that starts with [xn--], and no number at the end. *)
Definition is_plain_domain_char (c : ascii) : bool :=
  ((97 <=? URL.code c)%nat && (URL.code c <=? 122)%nat)
  || URL.is_ASCII_digit c || (URL.code c =? 45)%nat || (URL.code c =? 46)%nat.

Definition is_plain_domain (host : string) : bool :=
  negb (String.eqb host EmptyString)
  && all_chars is_plain_domain_char host
  && negb (existsb starts_with_xn (strictly_split host))
  && negb (ends_in_a_number host).

(** What may follow the authority: nothing, or a text that starts with a
    code point that ends the authority. *)
Definition follows_authority (tail : string) : bool :=
  match tail with
  | EmptyString => true
  | String c _ => ends_authority c
  end.

End SpecialURL.

(** A code point that is none of the marks of the parser: it does not end
    the authority and is no at sign, colon, bracket, percent sign, blank or
    forbidden code point, and lowercasing leaves it as it is. *)
Definition unmarked (c : ascii) : Prop :=
  SpecialURL.ends_authority c = false ∧
  (URL.code c =? 64)%nat = false ∧
  (URL.code c =? 58)%nat = false ∧
  (URL.code c =? 91)%nat = false ∧
  (URL.code c =? 93)%nat = false ∧
  (URL.code c =? 37)%nat = false ∧
  (URL.code c <? 128)%nat = true ∧
  URL.ASCII_lowercase c = c ∧
  SpecialURL.is_forbidden_domain_code_point c = false ∧
  URL.is_C0_control_or_space c = false ∧
  URL.is_ASCII_tab_or_newline c = false.

Definition not_blank (c : ascii) : bool :=
  negb (URL.is_C0_control_or_space c).

(** The [SITE_URL] that the configuration module exports for [site], if it
    loads. *)
Definition SITE_URL_of (rt : SpecialURL.Runtime) (site : string)
    : Completion string :=
  m ← Config.load (SpecialURL.after_scheme rt) {| Config.SITE := Some site |};
  mret (Config.SITE_URL m).

Module SiteExamples.

(** A runtime that knows the special schemes only: no IPv6 addresses, no
    domains outside ASCII, and no path, query or fragment kept. *)
Definition plain_runtime : SpecialURL.Runtime :=
  {| SpecialURL.userinfo_percent_encode := λ c, String c EmptyString;
     SpecialURL.IPv6_parser := λ _, None;
     SpecialURL.Unicode_ToASCII := λ _, None;
     SpecialURL.path_start_state := λ _ _, (URL.Segments [], None, None);
     SpecialURL.other_schemes := λ _ _, None |}.

End SiteExamples.

(** ** Site URLs in plain form *)

(** A site URL as one writes it for a blog: a scheme, the labels of a
    domain, a port or none, and what follows the authority. *)

(** Lower-case letters, digits and the hyphen. *)
Definition is_label_char (c : ascii) : bool :=
  bool_decide (c ∈ list_ascii_of_string "abcdefghijklmnopqrstuvwxyz0123456789-").

(** A label of such code points that is not in Punycode. *)
Definition plain_label (label : string) : bool :=
  SpecialURL.all_chars is_label_char label && negb (String.prefix "xn--" label).

Definition starts_with_letter (label : string) : bool :=
  match label with
  | String c _ =>
      bool_decide (c ∈ list_ascii_of_string "abcdefghijklmnopqrstuvwxyz")
  | EmptyString => false
  end.

(** The labels of a domain in plain form: the last one starts with a letter,
    so the domain is no IPv4 address. *)
Definition plain_domain (labels : list string) : bool :=
  forallb plain_label labels
  && match last labels with
     | Some label => starts_with_letter label
     | None => false
     end.


(** What may come after the authority: nothing, or a path, which a slash
    or a backslash starts, a query or a fragment. *)
Definition after_authority (tail : string) : bool :=
  match tail with
  | EmptyString => true
  | String c _ => bool_decide (c ∈ list_ascii_of_string "/?#\")
  end.

(** * Properties *)

(** ** Numbers *)

Lemma round_double_sgn z : Z.sgn (round_double z) = Z.sgn z.
Proof.
  unfold round_double.
  destruct (Z.leb_spec (Z.log2 (Z.abs z) - 52) 0%Z) as [|He]; [done|].
  assert (Ha : (0 < Z.abs z)%Z).
  { destruct (Z.eq_dec (Z.abs z) 0%Z) as [E|]; [|lia].
    rewrite E in He. simpl in He. lia. }
  set (e := (Z.log2 (Z.abs z) - 52)%Z) in *.
  assert (Hp : (0 < 2 ^ e)%Z) by (apply Z.pow_pos_nonneg; lia).
  assert (Hq : (0 < Z.abs z / 2 ^ e)%Z).
  { apply Z.div_str_pos. split; [done|].
    transitivity (2 ^ Z.log2 (Z.abs z))%Z.
    - apply Z.pow_le_mono_r; lia.
    - apply Z.log2_spec; done. }
  set (q := (Z.abs z / 2 ^ e)%Z) in *.
  match goal with |- Z.sgn (_ * (?q' * _)) = _ => assert (Hq' : (0 < q')%Z) end.
  { repeat case_match; lia. }
  rewrite Z.sgn_mul, Z.sgn_sgn.
  rewrite (Z.sgn_pos (_ * _)); [lia|]. apply Z.mul_pos_pos; done.
Qed.

Lemma round_double_le_zero z : (round_double z <=? 0)%Z = (z <=? 0)%Z.
Proof.
  pose proof (round_double_sgn z) as H.
  destruct (Z.leb_spec z 0%Z), (Z.leb_spec (round_double z) 0%Z); try done.
  - destruct (Z.eq_dec z 0%Z) as [->|]; [done|].
    rewrite (Z.sgn_pos (round_double z)), (Z.sgn_neg z) in H by lia. done.
  - rewrite (Z.sgn_pos z) in H by lia.
    destruct (Z.eq_dec (round_double z) 0%Z) as [E|].
    + rewrite E in H. done.
    + rewrite Z.sgn_neg in H by lia. done.
Qed.

Lemma Number_subtract_le_zero a b :
  Number_le_zero (Number_subtract (Int a) (Int b)) = (a <=? b)%Z.
Proof.
  simpl. rewrite round_double_le_zero.
  destruct (Z.leb_spec (a - b) 0%Z), (Z.leb_spec a b); done || lia.
Qed.

Lemma TimeClip_valid n : valid_time n → TimeClip n = n.
Proof.
  intros (t & -> & Ht). simpl.
  destruct (Z.ltb_spec 8640000000000000%Z (Z.abs t)); [lia | done].
Qed.

Lemma IsStrictlyEqual_true v : IsStrictlyEqual v (Boolean true) = true ↔ v = Boolean true.
Proof.
  destruct v as [| |[]|[]|]; simpl; split; congruence.
Qed.

(** ** The sort on lists *)

Section InsertionSortFacts.

Context {A : Type} (le : A → A → bool).

Lemma insert_before_perm x l : insert_before le x l ≡ₚ x :: l.
Proof.
  induction l as [|y l IH]; simpl; [done|].
  destruct (le x y); [done|]. rewrite IH. apply Permutation_swap.
Qed.

Lemma insertion_sort_perm l : insertion_sort le l ≡ₚ l.
Proof.
  induction l as [|x l IH]; simpl; [done|].
  by rewrite insert_before_perm, IH.
Qed.

Lemma insert_before_ext (le' : A → A → bool) x l :
  (∀ y, y ∈ l → le x y = le' x y) →
  insert_before le x l = insert_before le' x l.
Proof.
  induction l as [|y l IH]; intros Hext; simpl; [done|].
  rewrite Hext by left. rewrite IH; [done|].
  intros z Hz. apply Hext. by right.
Qed.

(** Only the comparisons between elements of the list matter. *)
Lemma insertion_sort_ext (le' : A → A → bool) l :
  (∀ x y, x ∈ l → y ∈ l → le x y = le' x y) →
  insertion_sort le l = insertion_sort le' l.
Proof.
  induction l as [|x l IH]; intros Hext; simpl; [done|].
  rewrite <- IH by (intros; apply Hext; by right).
  apply insert_before_ext. intros y Hy. apply Hext; [by left|].
  right. by rewrite insertion_sort_perm in Hy.
Qed.

(** Stability: an element never moves behind one of its own class. *)
Lemma insert_before_filter (P : A → bool) x l :
  (∀ y, P x = true → P y = true → le x y = true) →
  List.filter P (insert_before le x l) = List.filter P (x :: l).
Proof.
  intros Hle. induction l as [|y l IH]; simpl; [done|].
  destruct (le x y) eqn:Hxy; [done|]. simpl in *. rewrite IH.
  destruct (P x) eqn:Hx, (P y) eqn:Hy; try done.
  rewrite Hle in Hxy; done.
Qed.

Lemma insertion_sort_filter (P : A → bool) l :
  (∀ x y, P x = true → P y = true → le x y = true) →
  List.filter P (insertion_sort le l) = List.filter P l.
Proof.
  intros Hle. induction l as [|x l IH]; simpl; [done|].
  rewrite insert_before_filter by auto. simpl. by rewrite IH.
Qed.

(** Adjacent elements of the result are in order as soon as [le] is
    total.  *)
Lemma insert_before_Sorted x l :
  (∀ x y, le x y = false → le y x = true) →
  Sorted (λ a b, le a b = true) l →
  Sorted (λ a b, le a b = true) (insert_before le x l).
Proof.
  intros Htot. induction 1 as [|y l Hs IH Hhd]; simpl.
  - by repeat constructor.
  - destruct (le x y) eqn:Hxy.
    + by repeat constructor.
    + constructor; [done|].
      destruct Hhd as [|z l Hyz]; simpl.
      * constructor. by apply Htot.
      * destruct (le x z); constructor; [by apply Htot | done].
Qed.

Lemma insertion_sort_Sorted l :
  (∀ x y, le x y = false → le y x = true) →
  Sorted (λ a b, le a b = true) (insertion_sort le l).
Proof.
  intros Htot. induction l; simpl; [constructor|].
  by apply insert_before_Sorted.
Qed.

(** A list whose adjacent elements are in order is left as it is. *)
Lemma insertion_sort_fixed l :
  Sorted (λ a b, le a b = true) l → insertion_sort le l = l.
Proof.
  induction 1 as [|x l Hs IH Hhd]; simpl; [done|].
  rewrite IH. destruct Hhd as [|y l Hxy]; simpl; [done|]. by rewrite Hxy.
Qed.

(** With keys on which [le] is the descending order, the result is in
    descending order of the keys. *)
Lemma insertion_sort_descending (V : A → Prop) (key : A → Z) l :
  (∀ x y, V x → V y → le x y = true ↔ (key y ≤ key x)%Z) →
  Forall V l →
  StronglySorted (λ a b, (key b ≤ key a)%Z) (insertion_sort le l).
Proof.
  intros Hle. induction 1 as [|x l HVx HV IH]; simpl; [constructor|].
  assert (HVs : Forall V (insertion_sort le l))
    by (by rewrite insertion_sort_perm).
  revert IH HVs. generalize (insertion_sort le l). intros s.
  induction 1 as [|y s Hs IHs Hall]; intros HVs; simpl.
  - by repeat constructor.
  - apply Forall_cons in HVs as [HVy HVs].
    destruct (le x y) eqn:Hxy.
    + apply Hle in Hxy; [|done..].
      constructor; [by constructor|]. constructor; [done|].
      eapply Forall_impl; [exact Hall|]. simpl. intros; lia.
    + assert (key x < key y)%Z.
      { destruct (Z.le_gt_cases (key y) (key x)) as [Hk|]; [|lia].
        apply Hle in Hk; [congruence | done..]. }
      constructor; [by apply IHs|].
      rewrite insert_before_perm. constructor; [lia | done].
Qed.

End InsertionSortFacts.

(** ** Lists *)

Lemma list_filter_bool {A} (P : A → Prop) `{!∀ x, Decision (P x)}
    (f : A → bool) (l : list A) :
  (∀ x, x ∈ l → f x = true ↔ P x) → List.filter f l = filter P l.
Proof.
  induction l as [|x l IH]; intros Hf; [done|].
  simpl. rewrite filter_cons, IH by (intros; apply Hf; by right).
  specialize (Hf x (list_elem_of_here _ _)).
  destruct (f x); case_decide as HP; try done.
  - exfalso. by apply HP, Hf.
  - by apply Hf in HP.
Qed.

Lemma filter_sublist_mono {A} (P : A → Prop) `{!∀ x, Decision (P x)}
    (l1 l2 : list A) :
  l1 `sublist_of` l2 → filter P l1 `sublist_of` filter P l2.
Proof.
  induction 1 as [|x l1 l2 Hsub IH|x l1 l2 Hsub IH]; [done|..];
    rewrite ?filter_cons; case_decide;
    auto using sublist_skip, sublist_cons.
Qed.

Lemma StronglySorted_lookup {A} (R : A → A → Prop) (l : list A) i j a b :
  StronglySorted R l → i < j → l !! i = Some a → l !! j = Some b → R a b.
Proof.
  intros Hs. revert i j. induction Hs as [|x l Hs IH Hall]; intros i j Hij Hi Hj.
  - done.
  - destruct j as [|j]; [lia|]. destruct i as [|i]; simpl in *.
    + injection Hi as ->. rewrite Forall_forall in Hall. apply Hall.
      by eapply list_elem_of_lookup_2.
    + eapply IH; [|done..]. lia.
Qed.

Lemma Forall_filter_id {A} (f : A → bool) (l : list A) :
  Forall (λ x, f x = true) l → List.filter f l = l.
Proof.
  induction 1 as [|x l Hx Hl IH]; simpl; [done|]. by rewrite Hx, IH.
Qed.


(** ** Reading Documents *)

Ltac js_unfold :=
  unfold mbind, JS_bind, mret, JS_ret, lift, alloc,
    array_elements, array_push, array_write, frontmatter_of in *.

Lemma document_at_Some h p d :
  document_at h p = Some d ↔ h !! p = Some (ODocument d).
Proof.
  unfold document_at. destruct (h !! p) as [[]|]; naive_solver.
Qed.

(** Arrays can be added and rewritten without any effect on the Documents. *)
Lemma document_at_alloc_array h elems p :
  document_at (h ++ [OArray elems]) p = document_at h p.
Proof.
  unfold document_at.
  destruct (decide (p < length h)) as [Hlt|Hge].
  - by rewrite lookup_app_l.
  - rewrite (lookup_ge_None_2 h) by lia.
    destruct (decide (p = length h)) as [->|].
    + by rewrite list_lookup_middle.
    + rewrite lookup_ge_None_2; [done|]. rewrite length_app. simpl. lia.
Qed.

Lemma document_at_write_array h A old elems p :
  h !! A = Some (OArray old) →
  document_at (<[A := OArray elems]> h) p = document_at h p.
Proof.
  intros HA. unfold document_at.
  destruct (decide (A = p)) as [<-|].
  - rewrite list_lookup_insert_eq by (by eapply lookup_lt_Some). by rewrite HA.
  - by rewrite list_lookup_insert_ne.
Qed.

(** Two stores with the same Documents answer the callbacks alike. *)
Lemma published_ext h h' p :
  document_at h' p = document_at h p → published h' p = published h p.
Proof. unfold published. by intros ->. Qed.

Lemma keeps_before_ext h h' x y :
  document_at h' x = document_at h x → document_at h' y = document_at h y →
  keeps_before h' x y = keeps_before h x y.
Proof.
  unfold keeps_before, timestamp, date_of. by intros -> ->.
Qed.

Lemma filter_published_ext h h' l :
  (∀ p, document_at h' p = document_at h p) →
  List.filter (published h') l = List.filter (published h) l.
Proof.
  intros Hext. apply List.filter_ext. intros p. by apply published_ext.
Qed.

Lemma isPublished_run h p :
  is_Some (document_at h p) → isPublished p h = (Normal (published h p), h).
Proof.
  intros [d Hd]. unfold isPublished, published. rewrite Hd.
  apply document_at_Some in Hd. js_unfold. by rewrite Hd.
Qed.

Lemma byDateDescending_run h a b :
  is_Some (document_at h a) → is_Some (document_at h b) →
  byDateDescending a b h
  = (Normal (Number_subtract (timestamp h b) (timestamp h a)), h).
Proof.
  intros [da Ha] [db Hb]. unfold byDateDescending, timestamp, date_of.
  rewrite Ha, Hb. apply document_at_Some in Ha, Hb. js_unfold.
  rewrite Hb, Ha. by destruct da as [? [] ?], db as [? [] ?].
Qed.

(** The callbacks never write to the store. *)
Lemma isPublished_pure h p c h' : isPublished p h = (c, h') → h' = h.
Proof.
  unfold isPublished. js_unfold. repeat case_match; naive_solver.
Qed.

Lemma byDateDescending_pure h a b c h' :
  byDateDescending a b h = (c, h') → h' = h.
Proof.
  unfold byDateDescending. js_unfold. repeat case_match; naive_solver.
Qed.

(** ** The two array methods on Documents *)

Lemma JS_bind_Normal {A B} (m : JS A) (k : A → JS B) h a h' :
  m h = (Normal a, h') → (m ≫= k) h = k a h'.
Proof. intros Hm. unfold mbind, JS_bind. by rewrite Hm. Qed.

Lemma JS_bind_Throw {A B} (m : JS A) (k : A → JS B) h e h' :
  m h = (Throw e, h') → (m ≫= k) h = (Throw e, h').
Proof. intros Hm. unfold mbind, JS_bind. by rewrite Hm. Qed.

Lemma array_elements_run h O elems :
  h !! O = Some (OArray elems) → array_elements O h = (Normal elems, h).
Proof. intros HO. unfold array_elements. by rewrite HO. Qed.

Lemma filter_loop_run h A acc elems :
  h !! A = Some (OArray acc) →
  Forall (λ p, is_Some (document_at h p)) elems →
  filter_loop isPublished A elems h
  = (Normal (), <[A := OArray (acc ++ List.filter (published h) elems)]> h).
Proof.
  revert h acc. induction elems as [|p elems IH]; intros h acc HA Hdocs.
  - simpl. unfold mret, JS_ret. rewrite app_nil_r, list_insert_id; done.
  - apply Forall_cons in Hdocs as [Hp Hdocs].
    cbn [filter_loop List.filter].
    rewrite (JS_bind_Normal _ _ _ _ _ (isPublished_run _ _ Hp)).
    destruct (published h p) eqn:Hpub.
    + erewrite JS_bind_Normal; [|unfold array_push; by rewrite HA].
      rewrite (IH _ (acc ++ [p])).
      * rewrite list_insert_insert_eq, <- app_assoc. simpl.
        rewrite (filter_published_ext h); [done|].
        intros q. by eapply document_at_write_array.
      * apply list_lookup_insert_eq. by eapply lookup_lt_Some.
      * eapply Forall_impl; [exact Hdocs|]. intros q Hq. simpl.
        by erewrite document_at_write_array.
    + erewrite JS_bind_Normal; [|reflexivity]. by apply IH.
Qed.

Lemma Array_filter_run h O elems :
  is_posts h O elems →
  Array_filter O isPublished h
  = (Normal (length h), h ++ [OArray (List.filter (published h) elems)]).
Proof.
  intros [HO Hdocs]. unfold Array_filter.
  rewrite (JS_bind_Normal _ _ _ _ _ (array_elements_run _ _ _ HO)).
  erewrite JS_bind_Normal; [|reflexivity].
  erewrite JS_bind_Normal; [|apply (filter_loop_run _ _ [])].
  - unfold mret, JS_ret. f_equal.
    rewrite insert_app_r_alt, Nat.sub_diag by lia. simpl.
    rewrite (filter_published_ext h); [done|].
    intros q. apply document_at_alloc_array.
  - by apply list_lookup_middle.
  - eapply Forall_impl; [exact Hdocs|]. intros q Hq. simpl.
    by rewrite document_at_alloc_array.
Qed.

Lemma SortCompare_run h x y :
  is_Some (document_at h x) → is_Some (document_at h y) →
  SortCompare byDateDescending x y h
  = (Normal (match Number_subtract (timestamp h y) (timestamp h x) with
             | NaN => Int 0
             | Int z => Int z
             end), h).
Proof.
  intros Hx Hy. unfold SortCompare.
  by rewrite (JS_bind_Normal _ _ _ _ _ (byDateDescending_run _ _ _ Hx Hy)).
Qed.

Lemma sort_insert_run h x sorted :
  is_Some (document_at h x) →
  Forall (λ p, is_Some (document_at h p)) sorted →
  sort_insert byDateDescending x sorted h
  = (Normal (insert_before (keeps_before h) x sorted), h).
Proof.
  intros Hx. induction 1 as [|y sorted Hy Hdocs IH]; [done|].
  cbn [sort_insert insert_before].
  rewrite (JS_bind_Normal _ _ _ _ _ (SortCompare_run _ _ _ Hx Hy)).
  unfold keeps_before at 1.
  destruct (Number_le_zero _); [done|].
  by rewrite (JS_bind_Normal _ _ _ _ _ IH).
Qed.

Lemma sort_elements_run h elems :
  Forall (λ p, is_Some (document_at h p)) elems →
  sort_elements byDateDescending elems h
  = (Normal (insertion_sort (keeps_before h) elems), h).
Proof.
  induction 1 as [|x elems Hx Hdocs IH]; [done|].
  cbn [sort_elements insertion_sort].
  rewrite (JS_bind_Normal _ _ _ _ _ IH).
  apply sort_insert_run; [done|]. by rewrite insertion_sort_perm.
Qed.

Lemma Array_sort_run h O elems :
  is_posts h O elems →
  Array_sort O byDateDescending h
  = (Normal O, <[O := OArray (insertion_sort (keeps_before h) elems)]> h).
Proof.
  intros [HO Hdocs]. unfold Array_sort.
  rewrite (JS_bind_Normal _ _ _ _ _ (array_elements_run _ _ _ HO)).
  rewrite (JS_bind_Normal _ _ _ _ _ (sort_elements_run _ _ Hdocs)).
  erewrite JS_bind_Normal; [done|]. unfold array_write. by rewrite HO.
Qed.

(** The whole run on an array of Documents: the store gains one array, the
    result, which holds the published posts sorted. *)
Lemma sortedPosts_run h posts refs :
  is_posts h posts refs →
  sortedPosts posts h
  = (Normal (length h),
     h ++ [OArray (insertion_sort (keeps_before h)
                     (List.filter (published h) refs))]).
Proof.
  intros Hposts. unfold sortedPosts.
  rewrite (JS_bind_Normal _ _ _ _ _ (Array_filter_run _ _ _ Hposts)).
  destruct Hposts as [HO Hdocs].
  rewrite (Array_sort_run _ _ (List.filter (published h) refs)).
  - f_equal. rewrite insert_app_r_alt, Nat.sub_diag by lia. simpl.
    do 3 f_equal. apply insertion_sort_ext. intros x y _ _.
    apply keeps_before_ext; apply document_at_alloc_array.
  - split; [by apply list_lookup_middle|].
    apply Forall_forall. intros p Hp. rewrite document_at_alloc_array.
    apply list_elem_of_In, List.filter_In in Hp as [Hp _].
    rewrite Forall_forall in Hdocs. apply Hdocs. by apply list_elem_of_In.
Qed.

(** ** The callbacks *)

Lemma published_not_draft h p :
  is_Some (document_at h p) → published h p = true ↔ not_draft h p.
Proof.
  intros [d Hd]. unfold published, not_draft, draft_of. rewrite Hd.
  rewrite negb_true_iff, <- not_true_iff_false.
  by rewrite IsStrictlyEqual_true.
Qed.

Lemma filter_published h refs :
  Forall (λ p, is_Some (document_at h p)) refs →
  List.filter (published h) refs = filter (not_draft h) refs.
Proof.
  intros Hdocs. apply list_filter_bool. intros p Hp.
  apply published_not_draft. rewrite Forall_forall in Hdocs. by apply Hdocs.
Qed.

Lemma timestamp_Int h p t :
  timestamp h p = Int t ↔
  date_of h p = Int t ∧ (Z.abs t ≤ 8640000000000000)%Z.
Proof.
  unfold timestamp. simpl. destruct (date_of h p) as [|z]; simpl.
  - split; [done | by intros [? _]].
  - destruct (Z.ltb_spec 8640000000000000%Z (Z.abs z)); split.
    + done.
    + intros [[= ->] ?]. lia.
    + intros [= ->]. split; [done | lia].
    + by intros [-> _].
Qed.

Lemma timestamp_valid h p :
  valid_time (date_of h p) → timestamp h p = date_of h p.
Proof.
  intros (t & Ht & Hr). rewrite Ht. apply timestamp_Int. by rewrite Ht.
Qed.

Lemma keeps_before_Int h x y tx ty :
  timestamp h x = Int tx → timestamp h y = Int ty →
  keeps_before h x y = true ↔ (ty ≤ tx)%Z.
Proof.
  intros Hx Hy. unfold keeps_before. rewrite Hx, Hy.
  change (Number_le_zero (Number_subtract (Int ty) (Int tx)) = true ↔ (ty ≤ tx)%Z).
  rewrite Number_subtract_le_zero. apply Z.leb_le.
Qed.

Lemma keeps_before_total h x y :
  keeps_before h x y = false → keeps_before h y x = true.
Proof.
  destruct (timestamp h x) as [|tx] eqn:Hx;
    [by unfold keeps_before; rewrite Hx; destruct (timestamp h y)|].
  destruct (timestamp h y) as [|ty] eqn:Hy;
    [by unfold keeps_before; rewrite Hy|].
  intros Hxy. apply (keeps_before_Int _ _ _ _ _ Hy Hx).
  destruct (Z.le_gt_cases ty tx) as [Hle|]; [|lia].
  apply (keeps_before_Int _ _ _ _ _ Hx Hy) in Hle. congruence.
Qed.

(** ** The listing *)

Lemma sortedPosts_returns h posts refs :
  is_posts h posts refs →
  returns_posts h posts
    (insertion_sort (keeps_before h) (filter (not_draft h) refs))
    (h ++ [OArray (insertion_sort (keeps_before h)
                     (filter (not_draft h) refs))]).
Proof.
  intros Hposts. exists (length h).
  rewrite (sortedPosts_run _ _ _ Hposts).
  destruct Hposts as [_ Hdocs]. rewrite filter_published by done.
  split; [done|]. by apply list_lookup_middle.
Qed.

(** C1: for every array of Documents, the run completes and the elements of
    the array it returns are exactly the elements of the input whose [draft]
    field is not the boolean [true] (absent, [false], or any other value),
    each as many times as in the input: a permutation of that part of the
    input. *)
Theorem sortedPosts_keeps_the_published h posts refs :
  is_posts h posts refs →
  ∃ out h', returns_posts h posts out h' ∧
            out ≡ₚ filter (not_draft h) refs.
Proof.
  intros Hposts. eexists _, _. split; [by apply sortedPosts_returns|].
  apply insertion_sort_perm.
Qed.

Lemma sortedPosts_keeps_the_published_witness :
  is_posts Examples.example2 5 [0; 1; 2; 3; 4] ∧
  ∃ out h', returns_posts Examples.example2 5 out h' ∧
            out ≡ₚ filter (not_draft Examples.example2) [0; 1; 2; 3; 4].
Proof.
  assert (Hposts : is_posts Examples.example2 5 [0; 1; 2; 3; 4])
    by (split; [reflexivity | repeat constructor; by eexists]).
  split; [exact Hposts|].
  exact (sortedPosts_keeps_the_published _ _ _ Hposts).
Defined.

(** C2: when the published Documents of the input have valid dates, any
    element of the result that comes before another one has a time value
    that is greater or equal: the order is that of the instants, milliseconds
    since the epoch compared as integers. *)
Theorem sortedPosts_newest_first h posts refs :
  is_posts h posts refs →
  (∀ p, p ∈ refs → not_draft h p → valid_time (date_of h p)) →
  ∃ out h', returns_posts h posts out h' ∧
    ∀ i j a b, i < j → out !! i = Some a → out !! j = Some b →
      ∃ ta tb, date_of h a = Int ta ∧ date_of h b = Int tb ∧ (tb ≤ ta)%Z.
Proof.
  intros Hposts Hvalid. eexists _, _. split; [by apply sortedPosts_returns|].
  set (kept := filter (not_draft h) refs).
  set (key := λ p, match date_of h p with Int t => t | NaN => 0%Z end).
  assert (Hkept : Forall (λ p, valid_time (date_of h p)) kept).
  { apply Forall_forall. intros p [Hp Hin]%list_elem_of_filter. by apply Hvalid. }
  assert (Hsorted : StronglySorted (λ a b, (key b ≤ key a)%Z)
                      (insertion_sort (keeps_before h) kept)).
  { apply (insertion_sort_descending _ (λ p, valid_time (date_of h p)));
      [|done].
    intros x y Hx Hy.
    pose proof (timestamp_valid _ _ Hx) as Hx'.
    pose proof (timestamp_valid _ _ Hy) as Hy'.
    destruct Hx as (tx & Ex & _), Hy as (ty & Ey & _).
    rewrite Ex in Hx'. rewrite Ey in Hy'.
    rewrite (keeps_before_Int _ _ _ _ _ Hx' Hy'). unfold key.
    by rewrite Ex, Ey. }
  intros i j a b Hij Ha Hb.
  pose proof (StronglySorted_lookup _ _ _ _ _ _ Hsorted Hij Ha Hb) as Hab.
  assert (Hin : ∀ k c, insertion_sort (keeps_before h) kept !! k = Some c →
                       valid_time (date_of h c)).
  { intros k c Hc. apply list_elem_of_lookup_2 in Hc.
    rewrite insertion_sort_perm in Hc.
    rewrite Forall_forall in Hkept. by apply Hkept. }
  destruct (Hin _ _ Ha) as (ta & Ea & _), (Hin _ _ Hb) as (tb & Eb & _).
  exists ta, tb. unfold key in Hab. by rewrite Ea, Eb in Hab.
Qed.

Lemma sortedPosts_newest_first_witness :
  is_posts Examples.example1 3 [0; 1; 2] ∧
  (∀ p, p ∈ [0; 1; 2] → not_draft Examples.example1 p →
        valid_time (date_of Examples.example1 p)) ∧
  ∃ out h', returns_posts Examples.example1 3 out h' ∧
    ∀ i j a b, i < j → out !! i = Some a → out !! j = Some b →
      ∃ ta tb, date_of Examples.example1 a = Int ta ∧
               date_of Examples.example1 b = Int tb ∧ (tb ≤ ta)%Z.
Proof.
  assert (Hposts : is_posts Examples.example1 3 [0; 1; 2])
    by (split; [reflexivity | repeat constructor; by eexists]).
  assert (Hvalid : ∀ p, p ∈ [0; 1; 2] → not_draft Examples.example1 p →
                        valid_time (date_of Examples.example1 p)).
  { intros p Hp _.
    repeat (apply elem_of_cons in Hp as [->|Hp];
            [eexists; split; [reflexivity | simpl; lia]|]).
    by apply elem_of_nil in Hp. }
  split; [exact Hposts|]. split; [exact Hvalid|].
  exact (sortedPosts_newest_first _ _ _ Hposts Hvalid).
Defined.

(** C3: the sequence returned is a function of the input array and of its
    Documents alone.  A second invocation, in the store the first one left,
    returns the same elements in the same order, and so does an invocation in
    any store that holds the same input; equal dates make no difference. *)
Theorem sortedPosts_deterministic h posts refs :
  is_posts h posts refs →
  ∃ out h1,
    returns_posts h posts out h1 ∧
    (∃ h2, returns_posts h1 posts out h2) ∧
    (∀ h', is_posts h' posts refs →
           (∀ p, p ∈ refs → document_at h' p = document_at h p) →
           ∃ h1', returns_posts h' posts out h1').
Proof.
  intros Hposts.
  assert (Hsame : ∀ h', is_posts h' posts refs →
            (∀ p, p ∈ refs → document_at h' p = document_at h p) →
            ∃ h1', returns_posts h' posts
                     (insertion_sort (keeps_before h)
                        (filter (not_draft h) refs)) h1').
  { intros h' Hposts' Hdocs. eexists.
    replace (insertion_sort (keeps_before h) (filter (not_draft h) refs))
      with (insertion_sort (keeps_before h') (filter (not_draft h') refs));
      [by apply sortedPosts_returns|].
    destruct Hposts as [_ Hd], Hposts' as [_ Hd'].
    rewrite <- !filter_published by done.
    rewrite (List.filter_ext_in (published h') (published h)).
    - apply insertion_sort_ext. intros x y Hx Hy.
      apply list_elem_of_In, List.filter_In in Hx as [Hx _], Hy as [Hy _].
      apply keeps_before_ext; apply Hdocs; by apply list_elem_of_In.
    - intros p Hp. apply published_ext, Hdocs. by apply list_elem_of_In. }
  eexists _, _. split; [by apply sortedPosts_returns|]. split; [|done].
  apply Hsame.
  - destruct Hposts as [HO Hdocs]. split; [by apply lookup_app_l_Some|].
    eapply Forall_impl; [exact Hdocs|]. intros p Hp. simpl.
    by rewrite document_at_alloc_array.
  - intros p _. apply document_at_alloc_array.
Qed.

Lemma sortedPosts_deterministic_witness :
  is_posts Examples.example2 5 [0; 1; 2; 3; 4] ∧
  ∃ out h1,
    returns_posts Examples.example2 5 out h1 ∧
    (∃ h2, returns_posts h1 5 out h2) ∧
    (∀ h', is_posts h' 5 [0; 1; 2; 3; 4] →
           (∀ p, p ∈ [0; 1; 2; 3; 4] →
                 document_at h' p = document_at Examples.example2 p) →
           ∃ h1', returns_posts h' 5 out h1').
Proof.
  assert (Hposts : is_posts Examples.example2 5 [0; 1; 2; 3; 4])
    by (split; [reflexivity | repeat constructor; by eexists]).
  split; [exact Hposts|].
  exact (sortedPosts_deterministic _ _ _ Hposts).
Defined.

(** The elements of the result are published Documents, in an order that
    the sort leaves alone. *)
Lemma sortedPosts_result_is_posts h posts refs :
  is_posts h posts refs →
  let out := insertion_sort (keeps_before h) (filter (not_draft h) refs) in
  is_posts (h ++ [OArray out]) (length h) out ∧
  Forall (λ p, published (h ++ [OArray out]) p = true) out ∧
  Sorted (λ a b, keeps_before (h ++ [OArray out]) a b = true) out.
Proof.
  intros [HO Hdocs] out.
  assert (Hout : Forall (λ p, is_Some (document_at h p) ∧ not_draft h p) out).
  { unfold out. rewrite insertion_sort_perm. apply Forall_forall.
    intros p [Hp Hin]%list_elem_of_filter. split; [|done].
    rewrite Forall_forall in Hdocs. by apply Hdocs. }
  split; [split|split].
  - by apply list_lookup_middle.
  - eapply Forall_impl; [exact Hout|]. intros p [Hp _]. simpl.
    by rewrite document_at_alloc_array.
  - eapply Forall_impl; [exact Hout|]. intros p [Hp Hnd]. simpl.
    rewrite (published_ext h) by apply document_at_alloc_array.
    by apply published_not_draft.
  - eapply (Sorted_ind (λ l, Sorted _ l));
      [constructor| |apply (insertion_sort_Sorted (keeps_before h));
                     apply keeps_before_total].
    intros a l _ Hl Hhd. constructor; [done|].
    destruct Hhd; constructor.
    by rewrite (keeps_before_ext h) by apply document_at_alloc_array.
Qed.

(** An array of published Documents whose adjacent elements the comparator
    does not ask to swap comes back as it is, in a new array. *)
Lemma sortedPosts_fixed h posts refs :
  is_posts h posts refs →
  Forall (λ p, published h p = true) refs →
  Sorted (λ a b, keeps_before h a b = true) refs →
  returns_posts h posts refs (h ++ [OArray refs]).
Proof.
  intros Hposts Hpub Hsorted. exists (length h).
  rewrite (sortedPosts_run _ _ _ Hposts).
  rewrite Forall_filter_id, insertion_sort_fixed by done.
  split; [done|]. by apply list_lookup_middle.
Qed.

(** C4: the operation applied to an array it has returned returns the same
    elements in the same order. *)
Theorem sortedPosts_idempotent h posts refs :
  is_posts h posts refs →
  ∃ out r h1,
    sortedPosts posts h = (Normal r, h1) ∧ h1 !! r = Some (OArray out) ∧
    ∃ h2, returns_posts h1 r out h2.
Proof.
  intros Hposts.
  destruct (sortedPosts_result_is_posts _ _ _ Hposts) as (Hout & Hpub & Hs).
  eexists _, _, _. split; [by apply sortedPosts_run|].
  destruct Hposts as [_ Hdocs]. rewrite filter_published by done.
  split; [by apply list_lookup_middle|].
  eexists. by apply sortedPosts_fixed.
Qed.

Lemma sortedPosts_idempotent_witness :
  is_posts Examples.example2 5 [0; 1; 2; 3; 4] ∧
  ∃ out r h1,
    sortedPosts 5 Examples.example2 = (Normal r, h1) ∧
    h1 !! r = Some (OArray out) ∧
    ∃ h2, returns_posts h1 r out h2.
Proof.
  assert (Hposts : is_posts Examples.example2 5 [0; 1; 2; 3; 4])
    by (split; [reflexivity | repeat constructor; by eexists]).
  split; [exact Hposts|].
  exact (sortedPosts_idempotent _ _ _ Hposts).
Defined.

(** X4: an array that is filtered and sorted in the words of the
    specification (no drafts, valid dates, each date at least the next) comes
    back with the same elements in the same order, in a new array. *)
Lemma sortedPosts_sorted_input h posts refs :
  is_posts h posts refs →
  Forall (not_draft h) refs →
  Forall (λ p, valid_time (date_of h p)) refs →
  Sorted (λ a b, ∃ ta tb, date_of h a = Int ta ∧ date_of h b = Int tb
                          ∧ (tb ≤ ta)%Z) refs →
  returns_posts h posts refs (h ++ [OArray refs]).
Proof.
  intros Hposts Hnd Hvalid Hsorted. apply sortedPosts_fixed; [done|..].
  - destruct Hposts as [_ Hdocs]. rewrite Forall_forall in *.
    intros p Hp. apply published_not_draft; auto.
  - clear Hnd Hposts. induction Hsorted as [|a l Hs IH Hhd]; [constructor|].
    apply Forall_cons in Hvalid as [Ha Hl]. constructor; [by apply IH|].
    destruct Hhd as [|b l (ta & tb & Ea & Eb & Hle)]; constructor.
    apply Forall_cons in Hl as [Hb _].
    apply timestamp_valid in Ha, Hb. rewrite Ea in Ha. rewrite Eb in Hb.
    by apply (keeps_before_Int _ _ _ _ _ Ha Hb).
Qed.

(** C5: the run leaves the input array and every object of the store as
    they were; the array it returns is a new one, at a reference that was
    free before. *)
Theorem sortedPosts_leaves_input h posts refs :
  is_posts h posts refs →
  ∃ r out h',
    sortedPosts posts h = (Normal r, h') ∧ h' !! r = Some (OArray out) ∧
    h !! r = None ∧ r ≠ posts ∧
    h' !! posts = Some (OArray refs) ∧
    (∀ l o, h !! l = Some o → h' !! l = Some o) ∧
    (∀ p, document_at h' p = document_at h p).
Proof.
  intros Hposts. eexists _, _, _.
  split; [by apply sortedPosts_run|]. destruct Hposts as [HO Hdocs].
  split; [by apply list_lookup_middle|].
  split; [by apply lookup_ge_None_2|].
  split; [apply lookup_lt_Some in HO; lia|].
  split; [by apply lookup_app_l_Some|].
  split; [intros l o Hl; by apply lookup_app_l_Some|].
  intros p. apply document_at_alloc_array.
Qed.

Lemma sortedPosts_leaves_input_witness :
  is_posts Examples.example1 3 [0; 1; 2] ∧
  ∃ r out h',
    sortedPosts 3 Examples.example1 = (Normal r, h') ∧
    h' !! r = Some (OArray out) ∧
    Examples.example1 !! r = None ∧ r ≠ 3 ∧
    h' !! 3 = Some (OArray [0; 1; 2]) ∧
    (∀ l o, Examples.example1 !! l = Some o → h' !! l = Some o) ∧
    (∀ p, document_at h' p = document_at Examples.example1 p).
Proof.
  assert (Hposts : is_posts Examples.example1 3 [0; 1; 2])
    by (split; [reflexivity | repeat constructor; by eexists]).
  split; [exact Hposts|].
  exact (sortedPosts_leaves_input _ _ _ Hposts).
Defined.

Lemma filter_loop_frame h A acc elems c h' :
  h !! A = Some (OArray acc) →
  filter_loop isPublished A elems h = (c, h') →
  ∃ acc', h' = <[A := OArray acc']> h.
Proof.
  revert h acc. induction elems as [|p elems IH]; intros h acc HA Hrun.
  - injection Hrun as _ <-. exists acc. by rewrite list_insert_id.
  - cbn [filter_loop] in Hrun.
    destruct (isPublished p h) as [[b|e] h1] eqn:Hp;
      pose proof (isPublished_pure _ _ _ _ Hp) as ->.
    + rewrite (JS_bind_Normal _ _ _ _ _ Hp) in Hrun. destruct b.
      * erewrite JS_bind_Normal in Hrun; [|unfold array_push; by rewrite HA].
        apply (IH _ (acc ++ [p])) in Hrun as [acc' ->].
        -- exists acc'. by rewrite list_insert_insert_eq.
        -- apply list_lookup_insert_eq. by eapply lookup_lt_Some.
      * erewrite JS_bind_Normal in Hrun; [|reflexivity]. by eapply IH.
    + rewrite (JS_bind_Throw _ _ _ _ _ Hp) in Hrun. injection Hrun as _ <-.
      exists acc. by rewrite list_insert_id.
Qed.

Lemma sort_insert_pure h x sorted c h' :
  sort_insert byDateDescending x sorted h = (c, h') → h' = h.
Proof.
  revert c. induction sorted as [|y sorted IH]; intros c Hrun.
  - by injection Hrun as _ <-.
  - cbn [sort_insert] in Hrun. unfold SortCompare in Hrun.
    destruct (byDateDescending x y h) as [[v|e] h1] eqn:Hv;
      pose proof (byDateDescending_pure _ _ _ _ _ Hv) as ->.
    + erewrite JS_bind_Normal in Hrun;
        [|by rewrite (JS_bind_Normal _ _ _ _ _ Hv)].
      destruct (Number_le_zero _); [by injection Hrun as _ <-|].
      destruct (sort_insert byDateDescending x sorted h) as [[s|e] h1] eqn:Hs.
      * rewrite (JS_bind_Normal _ _ _ _ _ Hs) in Hrun.
        injection Hrun as _ <-. by eapply IH.
      * rewrite (JS_bind_Throw _ _ _ _ _ Hs) in Hrun.
        injection Hrun as _ <-. by eapply IH.
    + erewrite JS_bind_Throw in Hrun;
        [|by rewrite (JS_bind_Throw _ _ _ _ _ Hv)].
      by injection Hrun as _ <-.
Qed.

Lemma sort_elements_pure h elems c h' :
  sort_elements byDateDescending elems h = (c, h') → h' = h.
Proof.
  revert c h'. induction elems as [|x elems IH]; intros c h' Hrun.
  - by injection Hrun as _ <-.
  - cbn [sort_elements] in Hrun.
    destruct (sort_elements byDateDescending elems h) as [[s|e] h1] eqn:Hs;
      pose proof (IH _ _ eq_refl) as ->.
    + rewrite (JS_bind_Normal _ _ _ _ _ Hs) in Hrun.
      by eapply sort_insert_pure.
    + rewrite (JS_bind_Throw _ _ _ _ _ Hs) in Hrun. by injection Hrun as _ <-.
Qed.

(** X1: whatever the store holds and however the run completes, also with a
    throw, the store afterwards is the store before followed by what the run
    allocated, and the Documents are the same. *)
Lemma sortedPosts_frame h posts c h' :
  sortedPosts posts h = (c, h') →
  h `prefix_of` h' ∧ ∀ p, document_at h' p = document_at h p.
Proof.
  unfold sortedPosts, Array_filter. intros Hrun.
  destruct (h !! posts) as [[d|elems]|] eqn:HO;
    try (unfold mbind, JS_bind, array_elements in Hrun; rewrite HO in Hrun;
         by injection Hrun as _ <-).
  assert (Hgrown : ∀ acc, h `prefix_of` <[length h := OArray acc]> (h ++ [OArray []])
            ∧ ∀ p, document_at (<[length h := OArray acc]> (h ++ [OArray []])) p
                   = document_at h p).
  { intros acc. rewrite insert_app_r_alt, Nat.sub_diag by lia. simpl.
    split; [by apply prefix_app_r|]. intros p. apply document_at_alloc_array. }
  destruct (filter_loop isPublished (length h) elems (h ++ [OArray []]))
    as [[[]|e] h1] eqn:Hloop;
    destruct (filter_loop_frame _ _ _ _ _ _ (list_lookup_middle h [] _ _ eq_refl) Hloop)
      as [kept ->].
  - erewrite JS_bind_Normal in Hrun; cycle 1.
    { rewrite (JS_bind_Normal _ _ _ _ _ (array_elements_run _ _ _ HO)).
      erewrite JS_bind_Normal; [|reflexivity].
      by rewrite (JS_bind_Normal _ _ _ _ _ Hloop). }
    unfold Array_sort in Hrun.
    assert (HA : <[length h := OArray kept]> (h ++ [OArray []]) !! length h
                 = Some (OArray kept)).
    { apply list_lookup_insert_eq. rewrite length_app. simpl. lia. }
    rewrite (JS_bind_Normal _ _ _ _ _ (array_elements_run _ _ _ HA)) in Hrun.
    destruct (sort_elements byDateDescending kept
                (<[length h := OArray kept]> (h ++ [OArray []])))
      as [[s|e] h2] eqn:Hsort;
      pose proof (sort_elements_pure _ _ _ _ Hsort) as ->.
    + rewrite (JS_bind_Normal _ _ _ _ _ Hsort) in Hrun.
      erewrite JS_bind_Normal in Hrun;
        [|unfold array_write; by rewrite HA].
      injection Hrun as _ <-. rewrite list_insert_insert_eq. apply Hgrown.
    + rewrite (JS_bind_Throw _ _ _ _ _ Hsort) in Hrun.
      injection Hrun as _ <-. apply Hgrown.
  - erewrite JS_bind_Throw in Hrun; cycle 1.
    { rewrite (JS_bind_Normal _ _ _ _ _ (array_elements_run _ _ _ HO)).
      erewrite JS_bind_Normal; [|reflexivity].
      by rewrite (JS_bind_Throw _ _ _ _ _ Hloop). }
    injection Hrun as _ <-. apply Hgrown.
Qed.

(** C6: on an empty array the run completes normally and returns an empty
    array. *)
Theorem sortedPosts_empty h posts :
  h !! posts = Some (OArray []) → ∃ h', returns_posts h posts [] h'.
Proof.
  intros HO. exists (h ++ [OArray []]), (length h).
  split; [|by apply list_lookup_middle].
  by apply (sortedPosts_run h posts []).
Qed.

Lemma sortedPosts_empty_witness :
  Examples.example_empty !! 0 = Some (OArray []) ∧
  ∃ h', returns_posts Examples.example_empty 0 [] h'.
Proof.
  split; [reflexivity|].
  apply (sortedPosts_empty Examples.example_empty 0). reflexivity.
Defined.

(** The sort does not reorder the Documents of one instant. *)
Lemma sortedPosts_stable_classes h l t :
  filter (λ p, timestamp h p = Int t) (insertion_sort (keeps_before h) l)
  = filter (λ p, timestamp h p = Int t) l.
Proof.
  rewrite <- !(list_filter_bool (λ p, timestamp h p = Int t)
                 (λ p, bool_decide (timestamp h p = Int t)))
    by (intros; apply bool_decide_eq_true).
  apply insertion_sort_filter.
  intros x y Hx%bool_decide_eq_true Hy%bool_decide_eq_true.
  by apply (keeps_before_Int _ _ _ _ _ Hx Hy).
Qed.

(** C9: on every array of Documents, whatever their dates, the run completes
    normally with a permutation of the published ones.  When a date is
    invalid the comparator returns NaN and completes normally as well. *)
Theorem sortedPosts_total h posts refs :
  is_posts h posts refs →
  (∀ a b, a ∈ refs → b ∈ refs →
     timestamp h a = NaN ∨ timestamp h b = NaN →
     byDateDescending a b h = (Normal NaN, h)) ∧
  ∃ r out h',
    sortedPosts posts h = (Normal r, h') ∧ h' !! r = Some (OArray out) ∧
    out ≡ₚ filter (not_draft h) refs.
Proof.
  intros Hposts. split.
  - destruct Hposts as [_ Hdocs]. rewrite Forall_forall in Hdocs.
    intros a b Ha Hb Hnan. rewrite byDateDescending_run by auto.
    destruct Hnan as [-> | ->]; [|done]. by destruct (timestamp h b).
  - destruct (sortedPosts_returns _ _ _ Hposts) as (r & Hrun & Hr).
    eexists _, _, _. split; [done|]. split; [done|].
    apply insertion_sort_perm.
Qed.

Lemma sortedPosts_total_witness :
  is_posts Examples.example2 5 [0; 1; 2; 3; 4] ∧
  (∀ a b, a ∈ [0; 1; 2; 3; 4] → b ∈ [0; 1; 2; 3; 4] →
     timestamp Examples.example2 a = NaN ∨ timestamp Examples.example2 b = NaN →
     byDateDescending a b Examples.example2 = (Normal NaN, Examples.example2)) ∧
  ∃ r out h',
    sortedPosts 5 Examples.example2 = (Normal r, h') ∧
    h' !! r = Some (OArray out) ∧
    out ≡ₚ filter (not_draft Examples.example2) [0; 1; 2; 3; 4].
Proof.
  assert (Hposts : is_posts Examples.example2 5 [0; 1; 2; 3; 4])
    by (split; [reflexivity | repeat constructor; by eexists]).
  split; [exact Hposts|].
  exact (sortedPosts_total _ _ _ Hposts).
Defined.

(** The examples of the specification, run. *)
Example sortedPosts_example1 :
  ∃ h', returns_posts Examples.example1 3 [1; 0] h'.
Proof. eexists _, _. split; reflexivity. Qed.

Example sortedPosts_example2 :
  ∃ h', returns_posts Examples.example2 5 [1; 0; 2; 4] h'.
Proof. eexists _, _. split; reflexivity. Qed.

(** ** The choice of the sort *)

(** A list in descending order of its keys is determined by the sequences of
    its elements of each key: two stable sorts of the same list agree. *)
Lemma descending_stable_unique {A} (key : A → Z) (l1 l2 : list A) :
  StronglySorted (λ a b, (key b ≤ key a)%Z) l1 →
  StronglySorted (λ a b, (key b ≤ key a)%Z) l2 →
  (∀ t, filter (λ x, key x = t) l1 = filter (λ x, key x = t) l2) →
  l1 = l2.
Proof.
  intros Hs1. revert l2.
  induction Hs1 as [|x l1 Hs1 IH Hx]; intros l2 Hs2 Hclass.
  - destruct l2 as [|y l2]; [done|].
    specialize (Hclass (key y)). by rewrite filter_cons_True in Hclass.
  - destruct Hs2 as [|y l2 Hs2 Hy].
    { specialize (Hclass (key x)). by rewrite filter_cons_True in Hclass. }
    assert (Hkey : key x = key y).
    { pose proof (Hclass (key x)) as Ex. pose proof (Hclass (key y)) as Ey.
      rewrite filter_cons_True in Ex by done.
      rewrite (filter_cons_True _ y) in Ey by done.
      assert (Hin : x ∈ y :: l2).
      { eapply (list_elem_of_filter (λ z, key z = key x)). rewrite <- Ex. left. }
      assert (Hin' : y ∈ x :: l1).
      { eapply (list_elem_of_filter (λ z, key z = key y)). rewrite Ey. left. }
      rewrite Forall_forall in Hx, Hy.
      apply elem_of_cons in Hin as [->|Hin]; [done|].
      apply elem_of_cons in Hin' as [->|Hin']; [done|].
      specialize (Hx _ Hin'). specialize (Hy _ Hin). simpl in *. lia. }
    pose proof (Hclass (key x)) as Ex.
    rewrite filter_cons_True, (filter_cons_True _ y) in Ex by done.
    injection Ex as -> Ex. f_equal. apply IH; [done|].
    intros t. specialize (Hclass t). rewrite !filter_cons in Hclass.
    destruct (decide (key y = t)); [by injection Hclass | done].
Qed.

(** X3: with valid dates the comparator is consistent and the standard
    leaves the engine no choice: a sequence that holds the published posts in
    descending order of their dates, those of one instant in the order of the
    input, is the sequence the model returns. *)
Lemma sortedPosts_result_unique h posts refs out :
  is_posts h posts refs →
  (∀ p, p ∈ refs → not_draft h p → valid_time (date_of h p)) →
  out ≡ₚ filter (not_draft h) refs →
  (∀ i j a b, i < j → out !! i = Some a → out !! j = Some b →
     ∃ ta tb, date_of h a = Int ta ∧ date_of h b = Int tb ∧ (tb ≤ ta)%Z) →
  (∀ t, filter (λ p, timestamp h p = Int t) out
        = filter (λ p, timestamp h p = Int t) (filter (not_draft h) refs)) →
  ∃ h', returns_posts h posts out h'.
Proof.
  intros Hposts Hvalid Hperm Hdesc Hclass.
  set (kept := filter (not_draft h) refs) in *.
  set (key := λ p, match date_of h p with Int t => t | NaN => 0%Z end).
  assert (Hkept : ∀ p, p ∈ kept → valid_time (date_of h p)).
  { intros p [Hp Hin]%list_elem_of_filter. by apply Hvalid. }
  assert (Hkey : ∀ t (l : list loc), (∀ p, p ∈ l → p ∈ kept) →
            filter (λ p, key p = t) l = filter (λ p, timestamp h p = Int t) l).
  { intros t l Hl.
    rewrite <- (list_filter_bool _ (λ p, bool_decide (key p = t)))
      by (intros; apply bool_decide_eq_true).
    apply list_filter_bool. intros p Hp. rewrite bool_decide_eq_true.
    pose proof (Hkept _ (Hl _ Hp)) as Hv.
    rewrite (timestamp_valid _ _ Hv). destruct Hv as (tp & Ep & _).
    unfold key. rewrite Ep. naive_solver. }
  replace out with (insertion_sort (keeps_before h) kept);
    [eexists; by apply sortedPosts_returns|].
  apply (descending_stable_unique key).
  - apply (insertion_sort_descending _ (λ p, valid_time (date_of h p)));
      [|by apply Forall_forall].
    intros x y Hx Hy.
    pose proof (timestamp_valid _ _ Hx) as Hx'.
    pose proof (timestamp_valid _ _ Hy) as Hy'.
    destruct Hx as (tx & Ex & _), Hy as (ty & Ey & _).
    rewrite Ex in Hx'. rewrite Ey in Hy'.
    rewrite (keeps_before_Int _ _ _ _ _ Hx' Hy'). unfold key.
    by rewrite Ex, Ey.
  - clear Hclass Hperm Hkey. induction out as [|a out IH]; [constructor|].
    constructor.
    + apply IH. intros i j c d Hij Hc Hd.
      apply (Hdesc (S i) (S j)); [lia | done..].
    + apply Forall_forall. intros b [j Hb]%list_elem_of_lookup.
      destruct (Hdesc 0 (S j) a b) as (ta & tb & Ea & Eb & Hle); [lia|done..|].
      unfold key. by rewrite Ea, Eb.
  - intros t. rewrite !Hkey.
    + rewrite Hclass. apply (sortedPosts_stable_classes h kept t).
    + intros p Hp. by rewrite <- Hperm.
    + intros p Hp. by rewrite insertion_sort_perm in Hp.
Qed.

(** ** The configuration module *)

Section ConfigFacts.

Variable after_scheme : string → string → option URL.Rest.

(** Without a scheme there is no URL: the string an absent [SITE] turns
    into does not parse, whatever the runtime does after a scheme. *)
Lemma parse_undefined :
  URL.basic_URL_parser after_scheme (Config.ToString None) = None.
Proof. reflexivity. Qed.



Lemma load_parsed env u :
  URL.basic_URL_parser after_scheme (Config.ToString (Config.SITE env))
  = Some u →
  Config.load after_scheme env
  = Normal {|
      Config.SITE_TITLE := "Cloud & Code with Damian Esteban ";
      Config.SITE_DESCRIPTION := "Dive into the world of cloud computing, software engineering, and application architecture. Damian Esteban brings you practical guides, tips, and tech musings.";
      Config.TWITTER_HANDLE := "@estebanrules";
      Config.MY_NAME := "Damian Esteban";
      Config.SITE_URL := Config.URL_origin after_scheme u |}.
Proof.
  intros Hu. unfold Config.load, Config.URL_new. by rewrite Hu.
Qed.

(** The module has exports only when the URL has parsed. *)
Lemma load_Normal env m :
  Config.load after_scheme env = Normal m →
  ∃ u, URL.basic_URL_parser after_scheme (Config.ToString (Config.SITE env))
       = Some u
       ∧ Config.SITE_URL m = Config.URL_origin after_scheme u.
Proof.
  unfold Config.load, Config.URL_new.
  destruct (URL.basic_URL_parser _ _) as [u|]; [|done].
  intros [= <-]. by exists u.
Qed.

(** C10: when [SITE] is absent or does not parse, loading the module
    throws a TypeError and there are no exports; the script of the page,
    which imports the module, throws before it touches the posts. *)
Theorem config_fails_fast env :
  Config.SITE env = None
  ∨ URL.basic_URL_parser after_scheme (Config.ToString (Config.SITE env))
    = None →
  Config.load after_scheme env = Throw TypeError ∧
  (∀ m, Config.load after_scheme env ≠ Normal m) ∧
  (∀ posts h,
     page_script after_scheme env posts h = (Throw TypeError, h)).
Proof.
  intros Hbad.
  assert (Hfail : URL.basic_URL_parser after_scheme
                    (Config.ToString (Config.SITE env)) = None).
  { destruct Hbad as [-> | ?]; [apply parse_undefined | done]. }
  assert (Hload : Config.load after_scheme env = Throw TypeError).
  { unfold Config.load, Config.URL_new. by rewrite Hfail. }
  split; [done|]. split; [by rewrite Hload|].
  intros posts h. unfold page_script.
  apply JS_bind_Throw. unfold lift. by rewrite Hload.
Qed.

End ConfigFacts.

Lemma config_fails_fast_witness :
  (Config.SITE Examples.no_site_env = None
   ∨ URL.basic_URL_parser Examples.site_after_scheme
       (Config.ToString (Config.SITE Examples.no_site_env)) = None) ∧
  Config.load Examples.site_after_scheme Examples.no_site_env = Throw TypeError ∧
  (∀ m, Config.load Examples.site_after_scheme Examples.no_site_env ≠ Normal m) ∧
  (∀ posts h,
     page_script Examples.site_after_scheme Examples.no_site_env posts h
     = (Throw TypeError, h)).
Proof.
  assert (Hbad : Config.SITE Examples.no_site_env = None
                 ∨ URL.basic_URL_parser Examples.site_after_scheme
                     (Config.ToString (Config.SITE Examples.no_site_env)) = None)
    by (left; reflexivity).
  split; [exact Hbad|].
  exact (config_fails_fast Examples.site_after_scheme Examples.no_site_env Hbad).
Defined.

(** The site, configured. *)
Example config_site_url :
  (m ← Config.load Examples.site_after_scheme Examples.site_env;
   mret (Config.SITE_URL m))
  = Normal "https://blog.damianesteban.dev"%string.
Proof. reflexivity. Qed.

(** A site URL that is not a URL: no scheme. *)
Example config_relative_url after_scheme :
  Config.load after_scheme {| Config.SITE := Some "blog.damianesteban.dev" |}
  = Throw TypeError.
Proof. reflexivity. Qed.

(** The page, with the site configured: the title and the two published
    posts of the first example, newest first. *)
Example page_script_example1 :
  ∃ r h',
    page_script Examples.site_after_scheme Examples.site_env 3 Examples.example1
    = (Normal ("Cloud & Code with Damian Esteban "%string, r), h')
    ∧ h' !! r = Some (OArray [1; 0]).
Proof. eexists _, _. split; reflexivity. Qed.

(** ** Calendar fields *)

Lemma TimeFromYear_le y t : (TimeFromYear y <=? t)%Z = (DayFromYear y <=? Day t)%Z.
Proof.
  unfold TimeFromYear, Day, msPerDay. generalize (DayFromYear y). intros D.
  apply eq_iff_eq_true. rewrite !Z.leb_le. split; intros H.
  - apply Z.div_le_lower_bound; lia.
  - etrans; [|apply (Z.mul_div_le t 86400000); lia]. lia.
Qed.

Lemma div_step n a :
  (0 < n)%Z → ((a + 1) / n = a / n + if ((a + 1) mod n =? 0) then 1 else 0)%Z.
Proof.
  intros Hn. destruct (Z.eqb_spec ((a + 1) mod n) 0) as [E|E].
  - pose proof (Z.div_mod (a + 1) n ltac:(lia)) as H1.
    pose proof (Z.div_mod a n ltac:(lia)) as H2.
    pose proof (Z.mod_pos_bound a n Hn) as H3.
    rewrite E in H1. nia.
  - pose proof (Z.div_mod (a + 1) n ltac:(lia)) as H1.
    pose proof (Z.div_mod a n ltac:(lia)) as H2.
    pose proof (Z.mod_pos_bound a n Hn) as H3.
    pose proof (Z.mod_pos_bound (a + 1) n Hn) as H4.
    nia.
Qed.

Lemma DayFromYear_succ y : (DayFromYear (y + 1) = DayFromYear y + DaysInYear y)%Z.
Proof.
  unfold DayFromYear, DaysInYear.
  replace (y + 1 - 1969)%Z with (y - 1969 + 1)%Z by lia.
  replace (y + 1 - 1901)%Z with (y - 1901 + 1)%Z by lia.
  replace (y + 1 - 1601)%Z with (y - 1601 + 1)%Z by lia.
  rewrite !div_step by lia.
  replace ((y - 1969 + 1) mod 4)%Z with (y mod 4)%Z
    by (replace (y - 1969 + 1)%Z with (y + (-492) * 4)%Z by lia; by rewrite Z.mod_add).
  replace ((y - 1901 + 1) mod 100)%Z with (y mod 100)%Z
    by (replace (y - 1901 + 1)%Z with (y + (-19) * 100)%Z by lia; by rewrite Z.mod_add).
  replace ((y - 1601 + 1) mod 400)%Z with (y mod 400)%Z
    by (replace (y - 1601 + 1)%Z with (y + (-4) * 400)%Z by lia; by rewrite Z.mod_add).
  assert (H100 : (y mod 100 = 0 → y mod 4 = 0)%Z).
  { intros H. rewrite (Z.div_mod y 100) by lia. rewrite H, Z.add_0_r.
    replace (100 * (y / 100))%Z with (25 * (y / 100) * 4)%Z by lia.
    apply Z.mod_mul. lia. }
  assert (H400 : (y mod 400 = 0 → y mod 100 = 0)%Z).
  { intros H. rewrite (Z.div_mod y 400) by lia. rewrite H, Z.add_0_r.
    replace (400 * (y / 400))%Z with (4 * (y / 400) * 100)%Z by lia.
    apply Z.mod_mul. lia. }
  repeat match goal with |- context [Z.eqb ?a ?b] => destruct (Z.eqb_spec a b); simpl end;
    lia.
Qed.

Lemma YearFromTime_spec t :
  (DayFromYear (YearFromTime t) ≤ Day t < DayFromYear (YearFromTime t + 1))%Z.
Proof.
  unfold YearFromTime. rewrite !TimeFromYear_le.
  generalize (Day t). intros day.
  repeat match goal with |- context [Z.leb ?a ?b] => destruct (Z.leb_spec a b) end.
  - split; [done|]. clear. unfold DayFromYear. Z.div_mod_to_equations. lia.
  - split; [done|]. done.
  - split; [|by replace (1970 + 400 * day / 146097 - 1 + 1)%Z
                  with (1970 + 400 * day / 146097)%Z by lia].
    clear. unfold DayFromYear. Z.div_mod_to_equations. lia.
Qed.

Lemma DayFromYear_mono y y' : (y ≤ y')%Z → (DayFromYear y ≤ DayFromYear y')%Z.
Proof.
  intros Hle. replace y' with (y + Z.of_nat (Z.to_nat (y' - y)))%Z by lia.
  induction (Z.to_nat (y' - y)) as [|n IH]; [by rewrite Z.add_0_r|].
  replace (y + Z.of_nat (S n))%Z with (y + Z.of_nat n + 1)%Z by lia.
  rewrite DayFromYear_succ. unfold DaysInYear. repeat case_match; lia.
Qed.

(** [YearFromTime] is the largest year that starts at or before [t], as
    the standard defines it. *)
Lemma YearFromTime_largest t y :
  (TimeFromYear y ≤ t)%Z ↔ (y ≤ YearFromTime t)%Z.
Proof.
  rewrite <- Z.leb_le, TimeFromYear_le, Z.leb_le.
  pose proof (YearFromTime_spec t) as [Hlo Hhi]. split; intros H.
  - destruct (Z.le_gt_cases y (YearFromTime t)) as [|Hgt]; [done|].
    pose proof (DayFromYear_mono (YearFromTime t + 1) y ltac:(lia)). lia.
  - pose proof (DayFromYear_mono _ _ H). lia.
Qed.

Lemma YearFromTime_Day t t' : Day t = Day t' → YearFromTime t = YearFromTime t'.
Proof.
  intros E. unfold YearFromTime. by rewrite !TimeFromYear_le, E.
Qed.

Lemma DayWithinYear_range t :
  (0 ≤ DayWithinYear t < DaysInYear (YearFromTime t))%Z.
Proof.
  unfold DayWithinYear. pose proof (YearFromTime_spec t) as H.
  rewrite DayFromYear_succ in H. lia.
Qed.

Lemma InLeapYear_DaysInYear t : DaysInYear (YearFromTime t) = (365 + InLeapYear t)%Z.
Proof.
  unfold InLeapYear, DaysInYear. repeat case_match; done.
Qed.

Lemma MonthFromTime_range t : (0 ≤ MonthFromTime t ≤ 11)%Z.
Proof. unfold MonthFromTime. repeat case_match; lia. Qed.

Lemma DateFromTime_range t : (1 ≤ DateFromTime t ≤ 31)%Z.
Proof.
  pose proof (DayWithinYear_range t) as H.
  rewrite InLeapYear_DaysInYear in H.
  assert (Hleap : InLeapYear t = 0%Z ∨ InLeapYear t = 1%Z)
    by (unfold InLeapYear; case_match; auto).
  unfold DateFromTime, MonthFromTime.
  repeat match goal with
         | |- context [Z.ltb ?a ?b] => destruct (Z.ltb_spec a b)
         end; lia.
Qed.

(** The fields give the day back. *)
Lemma MakeDay_fields t :
  MakeDay (YearFromTime t) (MonthFromTime t) (DateFromTime t) = Day t.
Proof.
  unfold MakeDay.
  pose proof (MonthFromTime_range t) as Hm.
  rewrite Z.div_small, Z.mod_small, Z.add_0_r by lia.
  change (if (DaysInYear (YearFromTime t) =? 366)%Z then 1%Z else 0%Z)
    with (InLeapYear t).
  unfold DateFromTime, MonthFromTime, DayWithinYear.
  repeat match goal with
         | |- context [Z.ltb ?a ?b] => destruct (Z.ltb_spec a b)
         end; simpl; lia.
Qed.

Lemma MakeTime_fields t :
  MakeTime (HourFromTime t) (MinFromTime t) (SecFromTime t) (msFromTime t)
  = TimeWithinDay t.
Proof.
  unfold MakeTime, HourFromTime, MinFromTime, SecFromTime, msFromTime,
    TimeWithinDay, msPerDay.
  Z.div_mod_to_equations. lia.
Qed.

Lemma MakeDate_fields t :
  MakeDate
    (MakeDay (YearFromTime t) (MonthFromTime t) (DateFromTime t))
    (MakeTime (HourFromTime t) (MinFromTime t) (SecFromTime t) (msFromTime t))
  = t.
Proof.
  rewrite MakeDay_fields, MakeTime_fields.
  unfold MakeDate, Day, TimeWithinDay, msPerDay.
  pose proof (Z.div_mod t 86400000). lia.
Qed.

Lemma YearFromTime_valid t :
  (Z.abs t ≤ 8640000000000000)%Z → (-271821 ≤ YearFromTime t ≤ 275760)%Z.
Proof.
  intros Ht. pose proof (YearFromTime_spec t) as [Hlo Hhi].
  assert (Hday : (-100000000 ≤ Day t ≤ 100000000)%Z).
  { unfold Day, msPerDay. split.
    - apply Z.div_le_lower_bound; lia.
    - apply Z.div_le_upper_bound; lia. }
  split.
  - destruct (Z.le_gt_cases (-271821) (YearFromTime t)) as [|Hlt]; [done|].
    pose proof (DayFromYear_mono (YearFromTime t + 1) (-271821) ltac:(lia)) as H.
    change (DayFromYear (-271821)) with (-100000109)%Z in H. lia.
  - destruct (Z.le_gt_cases (YearFromTime t) 275760) as [|Hgt]; [done|].
    pose proof (DayFromYear_mono 275761 (YearFromTime t) ltac:(lia)) as H.
    change (DayFromYear 275761) with (100000110)%Z in H. lia.
Qed.

(** ** The date and time format *)

Lemma digit_value_digit v :
  (0 ≤ v ≤ 9)%Z → digit_value (digit v) = Some v.
Proof.
  intros Hv.
  assert (Hcases : v = 0%Z ∨ v = 1%Z ∨ v = 2%Z ∨ v = 3%Z ∨ v = 4%Z ∨ v = 5%Z
                   ∨ v = 6%Z ∨ v = 7%Z ∨ v = 8%Z ∨ v = 9%Z) by lia.
  repeat destruct Hcases as [-> | Hcases]; try reflexivity. by subst.
Qed.

Lemma read_year_digit v s :
  (0 ≤ v ≤ 9)%Z →
  read_year (String (digit v) s) = read_digits 4 0 (String (digit v) s).
Proof.
  intros Hv.
  assert (Hcases : v = 0%Z ∨ v = 1%Z ∨ v = 2%Z ∨ v = 3%Z ∨ v = 4%Z ∨ v = 5%Z
                   ∨ v = 6%Z ∨ v = 7%Z ∨ v = 8%Z ∨ v = 9%Z) by lia.
  repeat destruct Hcases as [-> | Hcases]; try reflexivity. by subst.
Qed.

Lemma append_String c s rest : (String c s ++ rest)%string = String c (s ++ rest).
Proof. reflexivity. Qed.

Lemma append_EmptyString rest : (EmptyString ++ rest)%string = rest.
Proof. reflexivity. Qed.

Lemma read_digits_digits w acc n rest :
  read_digits w acc (digits w n ++ rest)
  = Some ((acc * 10 ^ Z.of_nat w + n mod 10 ^ Z.of_nat w)%Z, rest).
Proof.
  revert acc. induction w as [|w IH]; intros acc.
  - cbn [digits read_digits]. rewrite append_EmptyString, Z.mod_1_r.
    do 2 f_equal. simpl. lia.
  - cbn [digits]. rewrite append_String. cbn [read_digits].
    rewrite digit_value_digit
      by (pose proof (Z.mod_pos_bound (n / 10 ^ Z.of_nat w) 10); lia).
    cbn [mbind option_bind]. rewrite IH. do 2 f_equal.
    rewrite Nat2Z.inj_succ, Z.pow_succ_r by lia.
    rewrite (Z.mul_comm 10 (10 ^ Z.of_nat w)).
    rewrite (Z.rem_mul_r n (10 ^ Z.of_nat w) 10) by lia. lia.
Qed.

(** A field that fits its width is read back. *)
Lemma read_digits_field w f rest :
  (0 ≤ f < 10 ^ Z.of_nat w)%Z →
  read_digits w 0 (digits w f ++ rest) = Some (f, rest).
Proof.
  intros Hf. rewrite read_digits_digits. by rewrite Z.mod_small.
Qed.

Lemma read_year_year_string y rest :
  (-999999 ≤ y ≤ 999999)%Z →
  read_year (year_string y ++ rest) = Some (y, rest).
Proof.
  intros Hy. unfold year_string.
  destruct (Z.leb_spec 0 y), (Z.leb_spec y 9999); simpl andb; cbv iota.
  - pose proof (read_digits_field 4 y rest ltac:(lia)) as Hread.
    cbn [digits] in *. rewrite append_String in *.
    rewrite read_year_digit; [done|].
    pose proof (Z.mod_pos_bound (y / 10 ^ Z.of_nat 3) 10). lia.
  - destruct (Z.ltb_spec y 0); [lia|].
    rewrite !append_String, append_EmptyString. cbn [read_year].
    rewrite Z.abs_eq by lia. apply read_digits_field. lia.
  - destruct (Z.ltb_spec y 0); [|lia].
    rewrite !append_String, append_EmptyString. cbn [read_year].
    rewrite read_digits_field by lia. cbn [mbind option_bind].
    do 2 f_equal. lia.
  - lia.
Qed.

(** Reading the text of [toISOString] gives the time value back. *)
Lemma parse_ISO_string_ISO_string t :
  (Z.abs t ≤ 8640000000000000)%Z → parse_ISO_string (ISO_string t) = Some t.
Proof.
  intros Ht. unfold parse_ISO_string, ISO_string.
  pose proof (YearFromTime_valid t Ht).
  pose proof (MonthFromTime_range t).
  pose proof (DateFromTime_range t).
  assert ((0 ≤ HourFromTime t < 24)%Z) by (apply Z.mod_pos_bound; lia).
  assert ((0 ≤ MinFromTime t < 60)%Z) by (apply Z.mod_pos_bound; lia).
  assert ((0 ≤ SecFromTime t < 60)%Z) by (apply Z.mod_pos_bound; lia).
  assert ((0 ≤ msFromTime t < 1000)%Z) by (apply Z.mod_pos_bound; lia).
  rewrite read_year_year_string by lia.
  repeat (cbn [mbind option_bind read_char Ascii.eqb Bool.eqb];
          rewrite ?append_String, ?append_EmptyString;
          rewrite ?read_digits_field by (simpl; lia)).
  rewrite Z.add_simpl_r. by rewrite MakeDate_fields.
Qed.

(** ** The listing: errors, the engine, the comparator *)

Lemma sortedPosts_frame_witness :
  sortedPosts 1 MoreExamples.example_broken
  = (Throw TypeError, MoreExamples.example_broken ++ [OArray [0]]) ∧
  (MoreExamples.example_broken
     `prefix_of` MoreExamples.example_broken ++ [OArray [0]] ∧
   ∀ p, document_at (MoreExamples.example_broken ++ [OArray [0]]) p
        = document_at MoreExamples.example_broken p).
Proof.
  assert (Hrun : sortedPosts 1 MoreExamples.example_broken
                 = (Throw TypeError, MoreExamples.example_broken ++ [OArray [0]]))
    by reflexivity.
  split; [exact Hrun|].
  exact (sortedPosts_frame _ _ _ _ Hrun).
Defined.

Lemma isPublished_throws h p :
  document_at h p = None → isPublished p h = (Throw TypeError, h).
Proof.
  unfold document_at, isPublished. intros Hp.
  apply JS_bind_Throw. unfold frontmatter_of.
  by destruct (h !! p) as [[]|].
Qed.

Lemma filter_loop_throws h A acc elems :
  h !! A = Some (OArray acc) →
  ¬ Forall (λ p, is_Some (document_at h p)) elems →
  ∃ h', filter_loop isPublished A elems h = (Throw TypeError, h').
Proof.
  revert h acc. induction elems as [|p elems IH]; intros h acc HA Hnot.
  - destruct Hnot. constructor.
  - cbn [filter_loop]. destruct (document_at h p) as [d|] eqn:Hd.
    + rewrite (JS_bind_Normal _ _ _ _ _ (isPublished_run _ _ (mk_is_Some _ _ Hd))).
      assert (Hrest : ¬ Forall (λ p, is_Some (document_at h p)) elems).
      { intros Hall. apply Hnot. constructor; [by eexists | done]. }
      destruct (published h p).
      * erewrite JS_bind_Normal; [|unfold array_push; by rewrite HA].
        apply (IH _ (acc ++ [p])).
        -- apply list_lookup_insert_eq. by eapply lookup_lt_Some.
        -- intros Hall. apply Hrest. eapply Forall_impl; [exact Hall|].
           intros q Hq. simpl in Hq.
           by erewrite document_at_write_array in Hq.
      * erewrite JS_bind_Normal; [|reflexivity]. by eapply IH.
    + exists h. apply JS_bind_Throw. by apply isPublished_throws.
Qed.

(** X2: the run completes normally exactly when [posts] is an array whose
    elements are all Documents; in every other store it throws a TypeError,
    also when the element that is not a Document would have been a draft. *)
Theorem sortedPosts_completes_or_TypeError h posts :
  ((∃ refs, is_posts h posts refs)
   ∧ ∃ r h', sortedPosts posts h = (Normal r, h'))
  ∨ ((¬ ∃ refs, is_posts h posts refs)
     ∧ ∃ h', sortedPosts posts h = (Throw TypeError, h')).
Proof.
  destruct (h !! posts) as [[d|refs]|] eqn:HO.
  - right. split; [intros (refs & HO' & _); congruence|].
    exists h. unfold sortedPosts, Array_filter.
    do 2 apply JS_bind_Throw. unfold array_elements. by rewrite HO.
  - destruct (decide (Forall (λ p, is_Some (document_at h p)) refs))
      as [Hdocs|Hnot].
    + left. split; [by exists refs|].
      eexists _, _. by apply (sortedPosts_run h posts refs).
    + right. split; [intros (refs' & HO' & Hdocs); congruence|].
      destruct (filter_loop_throws (h ++ [OArray []]) (length h) [] refs)
        as [h' Hloop].
      * by apply list_lookup_middle.
      * intros Hall. apply Hnot. eapply Forall_impl; [exact Hall|].
        intros q Hq. simpl in Hq. by rewrite document_at_alloc_array in Hq.
      * exists h'. unfold sortedPosts, Array_filter.
        apply JS_bind_Throw.
        rewrite (JS_bind_Normal _ _ _ _ _ (array_elements_run _ _ _ HO)).
        erewrite JS_bind_Normal; [|reflexivity].
        by apply JS_bind_Throw.
  - right. split; [intros (refs & HO' & _); congruence|].
    exists h. unfold sortedPosts, Array_filter.
    do 2 apply JS_bind_Throw. unfold array_elements. by rewrite HO.
Qed.

Lemma sortedPosts_result_unique_witness :
  is_posts Examples.example1 3 [0; 1; 2] ∧
  (∀ p, p ∈ [0; 1; 2] → not_draft Examples.example1 p →
        valid_time (date_of Examples.example1 p)) ∧
  [1; 0] ≡ₚ filter (not_draft Examples.example1) [0; 1; 2] ∧
  (∀ i j a b, i < j → [1; 0] !! i = Some a → [1; 0] !! j = Some b →
     ∃ ta tb, date_of Examples.example1 a = Int ta
              ∧ date_of Examples.example1 b = Int tb ∧ (tb ≤ ta)%Z) ∧
  (∀ t, filter (λ p, timestamp Examples.example1 p = Int t) [1; 0]
        = filter (λ p, timestamp Examples.example1 p = Int t)
            (filter (not_draft Examples.example1) [0; 1; 2])) ∧
  ∃ h', returns_posts Examples.example1 3 [1; 0] h'.
Proof.
  assert (Hposts : is_posts Examples.example1 3 [0; 1; 2])
    by (split; [reflexivity | repeat constructor; by eexists]).
  assert (Hvalid : ∀ p, p ∈ [0; 1; 2] → not_draft Examples.example1 p →
                        valid_time (date_of Examples.example1 p)).
  { intros p Hp _.
    repeat (apply elem_of_cons in Hp as [->|Hp];
            [eexists; split; [reflexivity | simpl; lia]|]).
    by apply elem_of_nil in Hp. }
  assert (Hperm : [1; 0] ≡ₚ filter (not_draft Examples.example1) [0; 1; 2])
    by apply Permutation_swap.
  assert (Hdesc : ∀ i j a b, i < j → [1; 0] !! i = Some a → [1; 0] !! j = Some b →
     ∃ ta tb, date_of Examples.example1 a = Int ta
              ∧ date_of Examples.example1 b = Int tb ∧ (tb ≤ ta)%Z).
  { intros [|[|i]] [|[|j]] a b Hij Ha Hb; try lia; try done.
    injection Ha as <-. injection Hb as <-.
    eexists _, _. split; [reflexivity|]. split; [reflexivity|]. simpl. lia. }
  assert (Hclass : ∀ t,
    filter (λ p, timestamp Examples.example1 p = Int t) [1; 0]
    = filter (λ p, timestamp Examples.example1 p = Int t)
        (filter (not_draft Examples.example1) [0; 1; 2])).
  { intros t. change (filter (not_draft Examples.example1) [0; 1; 2]) with [0; 1].
    rewrite !filter_cons, !filter_nil.
    change (timestamp Examples.example1 1) with (Int 1750032000000).
    change (timestamp Examples.example1 0) with (Int 1686009600000).
    repeat case_decide; congruence. }
  do 5 (split; [done|]).
  exact (sortedPosts_result_unique _ _ _ _ Hposts Hvalid Hperm Hdesc Hclass).
Defined.

Lemma sortedPosts_sorted_input_witness :
  is_posts MoreExamples.example_sorted 2 [1; 0] ∧
  Forall (not_draft MoreExamples.example_sorted) [1; 0] ∧
  Forall (λ p, valid_time (date_of MoreExamples.example_sorted p)) [1; 0] ∧
  Sorted (λ a b, ∃ ta tb, date_of MoreExamples.example_sorted a = Int ta
                          ∧ date_of MoreExamples.example_sorted b = Int tb
                          ∧ (tb ≤ ta)%Z) [1; 0] ∧
  returns_posts MoreExamples.example_sorted 2 [1; 0]
    (MoreExamples.example_sorted ++ [OArray [1; 0]]).
Proof.
  assert (Hposts : is_posts MoreExamples.example_sorted 2 [1; 0])
    by (split; [reflexivity | repeat constructor; by eexists]).
  assert (Hnd : Forall (not_draft MoreExamples.example_sorted) [1; 0])
    by (repeat constructor; done).
  assert (Hvalid : Forall (λ p, valid_time (date_of MoreExamples.example_sorted p))
                     [1; 0])
    by (repeat constructor; eexists; (split; [reflexivity | simpl; lia])).
  assert (Hsorted : Sorted (λ a b, ∃ ta tb,
                      date_of MoreExamples.example_sorted a = Int ta
                      ∧ date_of MoreExamples.example_sorted b = Int tb
                      ∧ (tb ≤ ta)%Z) [1; 0]).
  { repeat constructor. eexists _, _.
    split; [reflexivity|]. split; [reflexivity|]. simpl. lia. }
  do 4 (split; [done|]).
  exact (sortedPosts_sorted_input _ _ _ Hposts Hnd Hvalid Hsorted).
Defined.

Lemma round_double_exact z : (Z.abs z ≤ 2 ^ 53)%Z → round_double z = z.
Proof.
  intros Hz. destruct (Z.eq_dec (Z.abs z) (2 ^ 53)%Z) as [E|].
  - assert (Hcases : z = (2 ^ 53)%Z ∨ z = (- 2 ^ 53)%Z) by lia.
    by destruct Hcases as [-> | ->].
  - unfold round_double.
    destruct (Z.leb_spec (Z.log2 (Z.abs z) - 52) 0%Z) as [|He]; [done|].
    exfalso. destruct (Z.eq_dec (Z.abs z) 0%Z) as [E0|].
    + rewrite E0 in He. simpl in He. lia.
    + assert (Z.log2 (Z.abs z) < 53)%Z; [|lia].
      apply Z.log2_lt_pow2; lia.
Qed.

(** X5: on two Documents with valid dates the comparator returns an integer
    with the sign of the exact difference of the time values, the second
    minus the first, although the subtraction rounds; up to 2^53 in
    magnitude the difference itself. *)
Theorem byDateDescending_sign h a b ta tb :
  is_Some (document_at h a) → is_Some (document_at h b) →
  date_of h a = Int ta → (Z.abs ta ≤ 8640000000000000)%Z →
  date_of h b = Int tb → (Z.abs tb ≤ 8640000000000000)%Z →
  ∃ v, byDateDescending a b h = (Normal (Int v), h) ∧
       Z.sgn v = Z.sgn (tb - ta) ∧
       ((Z.abs (tb - ta) ≤ 2 ^ 53)%Z → v = (tb - ta)%Z).
Proof.
  intros Ha Hb Ea Hta Eb Htb.
  rewrite byDateDescending_run by done.
  rewrite (proj2 (timestamp_Int h a ta)), (proj2 (timestamp_Int h b tb)) by done.
  eexists. split; [reflexivity|]. split.
  - apply round_double_sgn.
  - apply round_double_exact.
Qed.

Lemma byDateDescending_sign_witness :
  is_Some (document_at Examples.example1 0) ∧
  is_Some (document_at Examples.example1 1) ∧
  date_of Examples.example1 0 = Int 1686009600000 ∧
  (Z.abs 1686009600000 ≤ 8640000000000000)%Z ∧
  date_of Examples.example1 1 = Int 1750032000000 ∧
  (Z.abs 1750032000000 ≤ 8640000000000000)%Z ∧
  ∃ v, byDateDescending 0 1 Examples.example1 = (Normal (Int v), Examples.example1) ∧
       Z.sgn v = Z.sgn (1750032000000 - 1686009600000) ∧
       ((Z.abs (1750032000000 - 1686009600000) ≤ 2 ^ 53)%Z →
        v = (1750032000000 - 1686009600000)%Z).
Proof.
  assert (Ha : is_Some (document_at Examples.example1 0)) by (by eexists).
  assert (Hb : is_Some (document_at Examples.example1 1)) by (by eexists).
  assert (Hta : (Z.abs 1686009600000 ≤ 8640000000000000)%Z) by (simpl; lia).
  assert (Htb : (Z.abs 1750032000000 ≤ 8640000000000000)%Z) by (simpl; lia).
  split; [exact Ha|]. split; [exact Hb|]. split; [reflexivity|].
  split; [exact Hta|]. split; [reflexivity|]. split; [exact Htb|].
  exact (byDateDescending_sign Examples.example1 0 1 _ _ Ha Hb eq_refl Hta eq_refl Htb).
Defined.

(** X6: a Document without a valid date makes the comparator inconsistent.
    SortCompare ties it with every Document, while two Documents with
    different valid dates, both tied with it, are not tied with each
    other. *)
Theorem SortCompare_inconsistent h a n b ta tb :
  is_Some (document_at h a) → is_Some (document_at h n) →
  is_Some (document_at h b) →
  timestamp h n = NaN → timestamp h a = Int ta → timestamp h b = Int tb →
  ta ≠ tb →
  SortCompare byDateDescending a n h = (Normal (Int 0), h) ∧
  SortCompare byDateDescending n b h = (Normal (Int 0), h) ∧
  ∃ v, SortCompare byDateDescending a b h = (Normal (Int v), h) ∧ v ≠ 0%Z.
Proof.
  intros Ha Hn Hb En Ea Eb Hne.
  rewrite !SortCompare_run by done. rewrite En, Ea, Eb. simpl.
  split; [done|]. split; [done|]. eexists. split; [reflexivity|].
  intros Hz. pose proof (round_double_sgn (tb - ta)) as Hs.
  rewrite Hz in Hs. simpl in Hs. symmetry in Hs.
  apply Z.sgn_null_iff in Hs. lia.
Qed.

Lemma SortCompare_inconsistent_witness :
  is_Some (document_at Examples.example2 1) ∧
  is_Some (document_at Examples.example2 4) ∧
  is_Some (document_at Examples.example2 0) ∧
  timestamp Examples.example2 4 = NaN ∧
  timestamp Examples.example2 1 = Int 1750032000000 ∧
  timestamp Examples.example2 0 = Int 1690502400000 ∧
  1750032000000%Z ≠ 1690502400000%Z ∧
  SortCompare byDateDescending 1 4 Examples.example2
  = (Normal (Int 0), Examples.example2) ∧
  SortCompare byDateDescending 4 0 Examples.example2
  = (Normal (Int 0), Examples.example2) ∧
  ∃ v, SortCompare byDateDescending 1 0 Examples.example2
       = (Normal (Int v), Examples.example2) ∧ v ≠ 0%Z.
Proof.
  assert (H1 : is_Some (document_at Examples.example2 1)) by (by eexists).
  assert (H4 : is_Some (document_at Examples.example2 4)) by (by eexists).
  assert (H0 : is_Some (document_at Examples.example2 0)) by (by eexists).
  assert (Hne : 1750032000000%Z ≠ 1690502400000%Z) by lia.
  split; [exact H1|]. split; [exact H4|]. split; [exact H0|].
  do 3 (split; [reflexivity|]). split; [exact Hne|].
  exact (SortCompare_inconsistent Examples.example2 1 4 0 _ _
           H1 H4 H0 eq_refl eq_refl eq_refl Hne).
Defined.

(** ** The page *)

Lemma renderPost_run machine h p d :
  document_at h p = Some d →
  renderPost machine p h
  = match DateValue (date (frontmatter d)) with
    | Int t => (Normal (item_for machine d t), h)
    | NaN => (Throw RangeError, h)
    end.
Proof.
  intros Hd. apply document_at_Some in Hd. unfold renderPost.
  erewrite JS_bind_Normal; [|unfold frontmatter_of; by rewrite Hd].
  unfold item_for, Date_toISOString.
  destruct (external (frontmatter d)).
  - erewrite JS_bind_Normal; [|reflexivity].
    by destruct (DateValue (date (frontmatter d))).
  - erewrite JS_bind_Normal;
      [|erewrite JS_bind_Normal; [reflexivity|unfold slug_of; by rewrite Hd]].
    by destruct (DateValue (date (frontmatter d))).
Qed.

Lemma map_loop_renderPost machine h elems :
  Forall (λ p, is_Some (document_at h p)) elems →
  (Forall (λ p, date_of h p ≠ NaN) elems →
   ∃ items, map_loop (renderPost machine) elems h = (Normal items, h)
            ∧ Forall2 (shows machine h) elems items) ∧
  (Exists (λ p, date_of h p = NaN) elems →
   map_loop (renderPost machine) elems h = (Throw RangeError, h)).
Proof.
  induction 1 as [|p elems [d Hd] Hdocs [IHok IHbad]].
  - split; [by exists [] | by intros ?%Exists_nil].
  - cbn [map_loop]. pose proof (renderPost_run machine h p d Hd) as Hp.
    assert (Edate : date_of h p = DateValue (date (frontmatter d)))
      by (unfold date_of; by rewrite Hd).
    destruct (DateValue (date (frontmatter d))) as [|t] eqn:Et.
    + split; [intros [? _]%Forall_cons; done|]. intros _.
      by apply JS_bind_Throw.
    + rewrite (JS_bind_Normal _ _ _ _ _ Hp). split.
      * intros [_ Hall]%Forall_cons.
        destruct (IHok Hall) as (items & Hrun & Hitems).
        rewrite (JS_bind_Normal _ _ _ _ _ Hrun).
        eexists. split; [reflexivity|]. constructor; [|done].
        by exists d, t.
      * intros [Hbad|Hbad]%Exists_cons; [congruence|].
        by apply JS_bind_Throw, IHbad.
Qed.

Lemma page_script_run after_scheme env u h posts refs :
  URL.basic_URL_parser after_scheme (Config.ToString (Config.SITE env))
  = Some u →
  is_posts h posts refs →
  page_script after_scheme env posts h
  = (Normal ("Cloud & Code with Damian Esteban "%string, length h),
     h ++ [OArray (insertion_sort (keeps_before h)
                     (filter (not_draft h) refs))]).
Proof.
  intros Hu Hposts. unfold page_script.
  erewrite JS_bind_Normal;
    [|unfold lift; by rewrite (load_parsed after_scheme env u Hu)].
  rewrite (JS_bind_Normal _ _ _ _ _ (sortedPosts_run _ _ _ Hposts)).
  destruct Hposts as [_ Hdocs]. by rewrite filter_published.
Qed.

(** The page on a parsed site URL and an array of Documents: it either
    renders the sorted posts or throws a RangeError, after the script. *)
Lemma page_run after_scheme machine env u h posts refs :
  URL.basic_URL_parser after_scheme (Config.ToString (Config.SITE env))
  = Some u →
  is_posts h posts refs →
  let out := insertion_sort (keeps_before h) (filter (not_draft h) refs) in
  let h' := h ++ [OArray out] in
  ((∀ p, p ∈ refs → not_draft h p → date_of h p ≠ NaN) →
   ∃ items,
     page after_scheme machine env posts h
     = (Normal {| meta_title := "Cloud & Code with Damian Esteban ";
                  list_items := items |}, h')
     ∧ Forall2 (shows machine h) out items) ∧
  ((∃ p, p ∈ refs ∧ not_draft h p ∧ date_of h p = NaN) →
   page after_scheme machine env posts h = (Throw RangeError, h')).
Proof.
  intros Hu Hposts out h'. unfold page.
  rewrite (JS_bind_Normal _ _ _ _ _ (page_script_run _ _ _ _ _ _ Hu Hposts)).
  fold out. fold h'. cbv beta iota.
  assert (Hout : h' !! length h = Some (OArray out))
    by (by apply list_lookup_middle).
  assert (Hdate : ∀ p, date_of h' p = date_of h p).
  { intros p. unfold date_of, h'. by rewrite document_at_alloc_array. }
  assert (Hdocs' : Forall (λ p, is_Some (document_at h' p)) out).
  { destruct Hposts as [_ Hdocs]. unfold out. rewrite insertion_sort_perm.
    apply Forall_forall. intros p [_ Hp]%list_elem_of_filter.
    unfold h'. rewrite document_at_alloc_array.
    rewrite Forall_forall in Hdocs. by apply Hdocs. }
  destruct (map_loop_renderPost machine h' out Hdocs') as [Hok Hbad].
  unfold Array_map.
  split.
  - intros Hvalid. destruct Hok as (items & Hrun & Hitems).
    { unfold out. rewrite insertion_sort_perm. apply Forall_forall.
      intros p [Hnd Hp]%list_elem_of_filter. rewrite Hdate. by apply Hvalid. }
    exists items. split.
    + erewrite JS_bind_Normal;
        [|by rewrite (JS_bind_Normal _ _ _ _ _ (array_elements_run _ _ _ Hout))].
      done.
    + eapply Forall2_impl; [exact Hitems|].
      intros p item (d & t & Hd & Ht & ->). exists d, t.
      unfold h' in Hd. rewrite document_at_alloc_array in Hd.
      by rewrite Hdate in Ht.
  - intros (p & Hp & Hnd & Hnan).
    apply JS_bind_Throw.
    rewrite (JS_bind_Normal _ _ _ _ _ (array_elements_run _ _ _ Hout)).
    apply Hbad. apply Exists_exists. exists p. split; [|by rewrite Hdate].
    unfold out. rewrite insertion_sort_perm. by apply list_elem_of_filter.
Qed.

(** X7: with a site URL that parses and an array of Documents, the page
    renders when every published post has a date, and throws a RangeError
    as soon as one published post has an invalid date.  The date of a draft
    does not matter. *)
Theorem page_renders_or_RangeError after_scheme machine env u h posts refs :
  URL.basic_URL_parser after_scheme (Config.ToString (Config.SITE env))
  = Some u →
  is_posts h posts refs →
  ((∀ p, p ∈ refs → not_draft h p → date_of h p ≠ NaN) →
   ∃ pg h', page after_scheme machine env posts h = (Normal pg, h')) ∧
  ((∃ p, p ∈ refs ∧ not_draft h p ∧ date_of h p = NaN) →
   ∃ h', page after_scheme machine env posts h = (Throw RangeError, h')).
Proof.
  intros Hu Hposts.
  destruct (page_run after_scheme machine env u h posts refs Hu Hposts)
    as [Hok Hbad].
  split.
  - intros Hvalid. destruct (Hok Hvalid) as (items & Hrun & _). eauto.
  - intros Hnan. eexists. by apply Hbad.
Qed.

Lemma page_Normal_inv after_scheme machine env u h posts refs pg h' :
  URL.basic_URL_parser after_scheme (Config.ToString (Config.SITE env))
  = Some u →
  is_posts h posts refs →
  page after_scheme machine env posts h = (Normal pg, h') →
  let out := insertion_sort (keeps_before h) (filter (not_draft h) refs) in
  meta_title pg = "Cloud & Code with Damian Esteban "%string ∧
  h' = h ++ [OArray out] ∧
  Forall2 (shows machine h) out (list_items pg).
Proof.
  intros Hu Hposts Hrun out.
  destruct (page_run after_scheme machine env u h posts refs Hu Hposts)
    as [Hok Hbad].
  destruct (decide (Exists (λ p, not_draft h p ∧ date_of h p = NaN) refs))
    as [Hex|Hall].
  - apply Exists_exists in Hex as (p & Hp & Hnd & Hnan).
    rewrite Hbad in Hrun by eauto. done.
  - destruct Hok as (items & Hrun' & Hitems).
    { intros p Hp Hnd Hnan. apply Hall, Exists_exists. eauto. }
    rewrite Hrun' in Hrun. by injection Hrun as <- <-.
Qed.

(** X8: when the page renders, its title is the site title and its list
    shows the array that [sortedPosts] returns, element by element and in the
    same order: one item for each published post, with the link of the post
    and the text of [toISOString] for its date. *)
Theorem page_lists_sorted_posts after_scheme machine env u h posts refs pg h' :
  URL.basic_URL_parser after_scheme (Config.ToString (Config.SITE env))
  = Some u →
  is_posts h posts refs →
  page after_scheme machine env posts h = (Normal pg, h') →
  meta_title pg = "Cloud & Code with Damian Esteban "%string ∧
  length (list_items pg) = length (filter (not_draft h) refs) ∧
  ∃ out, returns_posts h posts out h' ∧
         Forall2 (shows machine h) out (list_items pg).
Proof.
  intros Hu Hposts Hrun.
  destruct (page_Normal_inv _ _ _ _ _ _ _ _ _ Hu Hposts Hrun)
    as (Htitle & -> & Hitems).
  split; [done|]. split.
  - rewrite <- (Forall2_length _ _ _ Hitems). by rewrite insertion_sort_perm.
  - eexists. split; [by apply sortedPosts_returns | done].
Qed.

Lemma page_renders_or_RangeError_witness :
  URL.basic_URL_parser Examples.site_after_scheme
    (Config.ToString (Config.SITE Examples.site_env))
  = Some MoreExamples.site_url ∧
  is_posts MoreExamples.example_undated 3 [0; 1; 2] ∧
  ((∀ p, p ∈ [0; 1; 2] → not_draft MoreExamples.example_undated p →
         date_of MoreExamples.example_undated p ≠ NaN) →
   ∃ pg h', page Examples.site_after_scheme MoreExamples.utc_machine
              Examples.site_env 3 MoreExamples.example_undated
            = (Normal pg, h')) ∧
  ((∃ p, p ∈ [0; 1; 2] ∧ not_draft MoreExamples.example_undated p
         ∧ date_of MoreExamples.example_undated p = NaN) →
   ∃ h', page Examples.site_after_scheme MoreExamples.utc_machine
           Examples.site_env 3 MoreExamples.example_undated
         = (Throw RangeError, h')).
Proof.
  assert (Hposts : is_posts MoreExamples.example_undated 3 [0; 1; 2])
    by (split; [reflexivity | repeat constructor; by eexists]).
  split; [reflexivity|]. split; [exact Hposts|].
  exact (page_renders_or_RangeError Examples.site_after_scheme
           MoreExamples.utc_machine Examples.site_env MoreExamples.site_url
           _ _ _ eq_refl Hposts).
Defined.

(** A published post without a date stops the page; a draft without a date
    does not. *)
Example page_undated_post :
  fst (page Examples.site_after_scheme MoreExamples.utc_machine
         Examples.site_env 3 MoreExamples.example_undated)
  = Throw RangeError.
Proof. reflexivity. Qed.

Example page_undated_draft :
  fst (page Examples.site_after_scheme MoreExamples.utc_machine
         Examples.site_env 4 MoreExamples.example_undated)
  = Normal {|
      meta_title := "Cloud & Code with Damian Esteban ";
      list_items :=
        [ {| link := InternalLink None "/blog/dated" "dated";
             datetime := "2023-06-06T00:00:00.000Z";
             formattedDate := "Jun 6, 2023" |} ] |}.
Proof. reflexivity. Qed.

Lemma page_lists_sorted_posts_witness :
  URL.basic_URL_parser Examples.site_after_scheme
    (Config.ToString (Config.SITE Examples.site_env))
  = Some MoreExamples.site_url ∧
  is_posts MoreExamples.example_external 2 [0; 1] ∧
  page Examples.site_after_scheme MoreExamples.utc_machine
    Examples.site_env 2 MoreExamples.example_external
  = (Normal MoreExamples.example_external_page,
     MoreExamples.example_external ++ [OArray [1; 0]]) ∧
  meta_title MoreExamples.example_external_page
  = "Cloud & Code with Damian Esteban "%string ∧
  length (list_items MoreExamples.example_external_page)
  = length (filter (not_draft MoreExamples.example_external) [0; 1]) ∧
  ∃ out, returns_posts MoreExamples.example_external 2 out
           (MoreExamples.example_external ++ [OArray [1; 0]]) ∧
         Forall2 (shows MoreExamples.utc_machine MoreExamples.example_external)
           out (list_items MoreExamples.example_external_page).
Proof.
  assert (Hposts : is_posts MoreExamples.example_external 2 [0; 1])
    by (split; [reflexivity | repeat constructor; by eexists]).
  assert (Hrun : page Examples.site_after_scheme MoreExamples.utc_machine
                   Examples.site_env 2 MoreExamples.example_external
                 = (Normal MoreExamples.example_external_page,
                    MoreExamples.example_external ++ [OArray [1; 0]]))
    by reflexivity.
  split; [reflexivity|]. split; [exact Hposts|]. split; [exact Hrun|].
  exact (page_lists_sorted_posts Examples.site_after_scheme
           MoreExamples.utc_machine Examples.site_env MoreExamples.site_url
           _ _ _ _ _ eq_refl Hposts Hrun).
Defined.

Lemma NoDup_omap_inj {A B} (f : A → option B) (l : list A) :
  NoDup l →
  (∀ x y z, x ∈ l → y ∈ l → f x = Some z → f y = Some z → x = y) →
  NoDup (omap f l).
Proof.
  induction 1 as [|x l Hx Hl IH]; intros Hinj; [constructor|].
  simpl. destruct (f x) as [z|] eqn:Hz.
  - constructor.
    + intros (y & Hy & Hfy)%list_elem_of_omap.
      apply Hx. by rewrite (Hinj x y z) by (done || by left || by right).
    + apply IH. intros ? ? ? ? ?. apply Hinj; by right.
  - apply IH. intros ? ? ? ? ?. apply Hinj; by right.
Qed.

(** X13: when the references of the input are distinct and no two of its
    Documents share a slug, the items that link to a post's own page, those
    of the posts that are not external, have targets that differ from one
    another.  The item of an external post links to its [url], whatever that
    is, and is not among them. *)
Theorem page_internal_links_distinct
    after_scheme machine env u h posts refs pg h' :
  URL.basic_URL_parser after_scheme (Config.ToString (Config.SITE env))
  = Some u →
  is_posts h posts refs →
  NoDup refs →
  (∀ p q d d', p ∈ refs → q ∈ refs →
     document_at h p = Some d → document_at h q = Some d' →
     slug d = slug d' → p = q) →
  page after_scheme machine env posts h = (Normal pg, h') →
  NoDup (internal_hrefs (list_items pg)).
Proof.
  intros Hu Hposts Hnodup Hslug Hrun.
  destruct (page_Normal_inv _ _ _ _ _ _ _ _ _ Hu Hposts Hrun)
    as (_ & _ & Hitems).
  set (out := insertion_sort (keeps_before h) (filter (not_draft h) refs)) in *.
  set (target := λ p, d ← document_at h p;
                      if external (frontmatter d) then None
                      else Some ("/blog/" ++ slug d)%string).
  assert (Hhrefs : internal_hrefs (list_items pg) = omap target out).
  { unfold internal_hrefs.
    induction Hitems as [|p item out' items (d & t & Hd & _ & ->) _ IH];
      [done|].
    change (omap target (p :: out'))
      with (match target p with
            | Some y => y :: omap target out'
            | None => omap target out'
            end).
    unfold target at 1. rewrite Hd. unfold item_for. simpl.
    destruct (external (frontmatter d)); simpl; [exact IH|].
    f_equal. exact IH. }
  rewrite Hhrefs. apply NoDup_omap_inj.
  - unfold out. rewrite insertion_sort_perm. by apply NoDup_filter.
  - assert (Hin : ∀ p, p ∈ out → p ∈ refs).
    { intros p. unfold out. rewrite insertion_sort_perm.
      by intros [_ ?]%list_elem_of_filter. }
    intros p q z Hp%Hin Hq%Hin. unfold target.
    destruct (document_at h p) as [d|] eqn:Hd; [|done].
    destruct (document_at h q) as [d'|] eqn:Hd'; [|done]. simpl.
    destruct (external (frontmatter d)); [done|].
    destruct (external (frontmatter d')); [done|].
    intros [= <-] [= Heq]. by apply (Hslug p q d d').
Qed.

Lemma page_internal_links_distinct_witness :
  URL.basic_URL_parser Examples.site_after_scheme
    (Config.ToString (Config.SITE Examples.site_env))
  = Some MoreExamples.site_url ∧
  is_posts MoreExamples.example_external 2 [0; 1] ∧
  NoDup [0; 1] ∧
  (∀ p q d d', p ∈ [0; 1] → q ∈ [0; 1] →
     document_at MoreExamples.example_external p = Some d →
     document_at MoreExamples.example_external q = Some d' →
     slug d = slug d' → p = q) ∧
  page Examples.site_after_scheme MoreExamples.utc_machine
    Examples.site_env 2 MoreExamples.example_external
  = (Normal MoreExamples.example_external_page,
     MoreExamples.example_external ++ [OArray [1; 0]]) ∧
  NoDup (internal_hrefs (list_items MoreExamples.example_external_page)).
Proof.
  assert (Hposts : is_posts MoreExamples.example_external 2 [0; 1])
    by (split; [reflexivity | repeat constructor; by eexists]).
  assert (Hnodup : NoDup [0; 1])
    by (apply NoDup_cons; split;
        [by intros ?%list_elem_of_singleton | apply NoDup_singleton]).
  assert (Hslug : ∀ p q d d', p ∈ [0; 1] → q ∈ [0; 1] →
     document_at MoreExamples.example_external p = Some d →
     document_at MoreExamples.example_external q = Some d' →
     slug d = slug d' → p = q).
  { intros p q d d' Hp Hq Hd Hd' Hs.
    apply elem_of_cons in Hp as [->|Hp];
      [|apply elem_of_cons in Hp as [->|Hp]; [|by apply elem_of_nil in Hp]];
      (apply elem_of_cons in Hq as [->|Hq];
       [|apply elem_of_cons in Hq as [->|Hq]; [|by apply elem_of_nil in Hq]]);
      try done; injection Hd as <-; injection Hd' as <-; discriminate Hs. }
  assert (Hrun : page Examples.site_after_scheme MoreExamples.utc_machine
                   Examples.site_env 2 MoreExamples.example_external
                 = (Normal MoreExamples.example_external_page,
                    MoreExamples.example_external ++ [OArray [1; 0]]))
    by reflexivity.
  split; [reflexivity|]. split; [exact Hposts|]. split; [exact Hnodup|].
  split; [exact Hslug|]. split; [exact Hrun|].
  exact (page_internal_links_distinct Examples.site_after_scheme
           MoreExamples.utc_machine Examples.site_env MoreExamples.site_url
           _ _ _ _ _ eq_refl Hposts Hnodup Hslug Hrun).
Defined.

(** ** The two texts of a date *)

(** X9: [toISOString] on a valid date completes with a text that reads back
    as the time value of the date, so only dates of the same instant get the
    same [datetime] attribute. *)
Theorem Date_toISOString_round_trip d :
  valid_time (DateValue d) →
  ∃ t s, DateValue d = Int t ∧ Date_toISOString d = Normal s ∧
         parse_ISO_string s = Some t ∧
         ∀ d', valid_time (DateValue d') → Date_toISOString d' = Normal s →
               DateValue d' = DateValue d.
Proof.
  intros (t & Et & Ht). exists t, (ISO_string t).
  unfold Date_toISOString. rewrite Et. split; [done|]. split; [done|].
  split; [by apply parse_ISO_string_ISO_string|].
  intros d' (t' & Et' & Ht'). rewrite Et'. intros [= Hs]. f_equal.
  pose proof (parse_ISO_string_ISO_string t' Ht') as Hparse.
  rewrite Hs, (parse_ISO_string_ISO_string t Ht) in Hparse. congruence.
Qed.

Lemma Date_toISOString_round_trip_witness :
  valid_time (DateValue {| DateValue := Int 1692489600000 |}) ∧
  ∃ t s, DateValue {| DateValue := Int 1692489600000 |} = Int t ∧
         Date_toISOString {| DateValue := Int 1692489600000 |} = Normal s ∧
         parse_ISO_string s = Some t ∧
         ∀ d', valid_time (DateValue d') → Date_toISOString d' = Normal s →
               DateValue d' = DateValue {| DateValue := Int 1692489600000 |}.
Proof.
  assert (Hvalid : valid_time (DateValue {| DateValue := Int 1692489600000 |}))
    by (eexists; split; [reflexivity | simpl; lia]).
  split; [exact Hvalid|].
  exact (Date_toISOString_round_trip _ Hvalid).
Defined.

Lemma fields_Day t t' :
  Day t = Day t' →
  YearFromTime t = YearFromTime t' ∧ MonthFromTime t = MonthFromTime t'
  ∧ DateFromTime t = DateFromTime t'.
Proof.
  intros E. pose proof (YearFromTime_Day _ _ E) as Ey.
  assert (Ed : DayWithinYear t = DayWithinYear t')
    by (unfold DayWithinYear; by rewrite E, Ey).
  assert (El : InLeapYear t = InLeapYear t')
    by (unfold InLeapYear; by rewrite Ey).
  assert (Em : MonthFromTime t = MonthFromTime t')
    by (unfold MonthFromTime; by rewrite Ed, El).
  split; [done|]. split; [done|].
  unfold DateFromTime. by rewrite Em, Ed, El.
Qed.

(** X10: the date the page displays is the calendar day of the local time
    of the machine that builds the site.  For a date at midnight UTC, which
    a date without a time is, the [datetime] attribute has the day of the
    date; a machine at or east of UTC displays that day and a machine west
    of UTC the day before. *)
Theorem formattedDate_follows_time_zone machine h p d t :
  document_at h p = Some d →
  DateValue (date (frontmatter d)) = Int t →
  (Z.abs t ≤ 8640000000000000)%Z →
  TimeWithinDay t = 0%Z →
  ∃ item,
    renderPost machine p h = (Normal item, h) ∧
    datetime item = ISO_string t ∧
    ((0 ≤ LocalTZA machine t < msPerDay)%Z →
     formattedDate item
     = en_us_date machine (YearFromTime t) (MonthFromTime t) (DateFromTime t)) ∧
    ((- msPerDay ≤ LocalTZA machine t < 0)%Z →
     formattedDate item
     = en_us_date machine (YearFromTime (t - msPerDay))
         (MonthFromTime (t - msPerDay)) (DateFromTime (t - msPerDay))).
Proof.
  intros Hd Et Ht Hmid. exists (item_for machine d t).
  split; [by rewrite (renderPost_run machine h p d Hd), Et|].
  split; [done|].
  unfold item_for, formattedDate, Date_toLocaleDateString, Date_new. simpl.
  rewrite Et. simpl.
  destruct (Z.ltb_spec 8640000000000000%Z (Z.abs t)); [lia|].
  unfold TimeWithinDay, msPerDay in *. split; intros Hoff.
  - destruct (fields_Day (t + LocalTZA machine t) t) as (-> & -> & ->); [|done].
    unfold Day, msPerDay. generalize dependent (LocalTZA machine t).
    intros off Hoff. Z.div_mod_to_equations. lia.
  - destruct (fields_Day (t + LocalTZA machine t) (t - 86400000))
      as (-> & -> & ->); [|done].
    unfold Day, msPerDay. generalize dependent (LocalTZA machine t).
    intros off Hoff. Z.div_mod_to_equations. lia.
Qed.

Lemma formattedDate_follows_time_zone_witness :
  document_at MoreExamples.example_external 0
  = Some {| slug := "elsewhere";
            frontmatter := {|
              title := "A talk"; description := "";
              date := {| DateValue := Int 1692489600000 |};
              external := true; draft := Undefined; ogImagePath := None;
              url := Some "https://example.org/talk" |};
            body := "" |} ∧
  (Z.abs 1692489600000 ≤ 8640000000000000)%Z ∧
  TimeWithinDay 1692489600000 = 0%Z ∧
  ∃ item,
    renderPost MoreExamples.western_machine 0 MoreExamples.example_external
    = (Normal item, MoreExamples.example_external) ∧
    datetime item = ISO_string 1692489600000 ∧
    ((0 ≤ LocalTZA MoreExamples.western_machine 1692489600000 < msPerDay)%Z →
     formattedDate item
     = en_us_date MoreExamples.western_machine (YearFromTime 1692489600000)
         (MonthFromTime 1692489600000) (DateFromTime 1692489600000)) ∧
    ((- msPerDay ≤ LocalTZA MoreExamples.western_machine 1692489600000 < 0)%Z →
     formattedDate item
     = en_us_date MoreExamples.western_machine
         (YearFromTime (1692489600000 - msPerDay))
         (MonthFromTime (1692489600000 - msPerDay))
         (DateFromTime (1692489600000 - msPerDay))).
Proof.
  assert (Ht : (Z.abs 1692489600000 ≤ 8640000000000000)%Z) by (simpl; lia).
  split; [reflexivity|]. split; [exact Ht|]. split; [reflexivity|].
  exact (formattedDate_follows_time_zone MoreExamples.western_machine
           MoreExamples.example_external 0 _ 1692489600000
           eq_refl eq_refl Ht eq_refl).
Defined.

(** The post of 2023-08-20 on a machine five hours west of UTC. *)
Example formattedDate_western :
  let item := item_for MoreExamples.western_machine
                {| slug := "a-simple-crud-api-in-rust";
                   frontmatter := {|
                     title := "A Simple CRUD API in Rust"; description := "";
                     date := {| DateValue := Int 1692489600000 |};
                     external := false; draft := Undefined;
                     ogImagePath := None; url := None |};
                   body := "" |} 1692489600000 in
  datetime item = "2023-08-20T00:00:00.000Z"%string
  ∧ formattedDate item = "Aug 19, 2023"%string.
Proof. split; reflexivity. Qed.

(** ** The order of the list *)

Lemma insertion_sort_newest_first h l :
  Forall (λ p, valid_time (date_of h p)) l →
  ∀ i j a b, i < j →
    insertion_sort (keeps_before h) l !! i = Some a →
    insertion_sort (keeps_before h) l !! j = Some b →
    ∃ ta tb, date_of h a = Int ta ∧ (Z.abs ta ≤ 8640000000000000)%Z ∧
             date_of h b = Int tb ∧ (Z.abs tb ≤ 8640000000000000)%Z ∧
             (tb ≤ ta)%Z.
Proof.
  intros Hvalid i j a b Hij Ha Hb.
  set (key := λ p, match date_of h p with Int t => t | NaN => 0%Z end).
  assert (Hsorted : StronglySorted (λ a b, (key b ≤ key a)%Z)
                      (insertion_sort (keeps_before h) l)).
  { apply (insertion_sort_descending _ (λ p, valid_time (date_of h p)));
      [|done].
    intros x y Hx Hy.
    pose proof (timestamp_valid _ _ Hx) as Hx'.
    pose proof (timestamp_valid _ _ Hy) as Hy'.
    destruct Hx as (tx & Ex & _), Hy as (ty & Ey & _).
    rewrite Ex in Hx'. rewrite Ey in Hy'.
    rewrite (keeps_before_Int _ _ _ _ _ Hx' Hy'). unfold key.
    by rewrite Ex, Ey. }
  pose proof (StronglySorted_lookup _ _ _ _ _ _ Hsorted Hij Ha Hb) as Hab.
  assert (Hin : ∀ k c, insertion_sort (keeps_before h) l !! k = Some c →
                       valid_time (date_of h c)).
  { intros k c Hc. apply list_elem_of_lookup_2 in Hc.
    rewrite insertion_sort_perm in Hc.
    rewrite Forall_forall in Hvalid. by apply Hvalid. }
  destruct (Hin _ _ Ha) as (ta & Ea & Hta), (Hin _ _ Hb) as (tb & Eb & Htb).
  exists ta, tb. unfold key in Hab. by rewrite Ea, Eb in Hab.
Qed.

(** X14: when the published posts have valid dates, the [datetime]
    attributes of the list, read from the top, stand for instants that never
    increase: the page shows the newest post first. *)
Theorem page_list_newest_first
    after_scheme machine env u h posts refs pg h' :
  URL.basic_URL_parser after_scheme (Config.ToString (Config.SITE env))
  = Some u →
  is_posts h posts refs →
  (∀ p, p ∈ refs → not_draft h p → valid_time (date_of h p)) →
  page after_scheme machine env posts h = (Normal pg, h') →
  ∀ i j a b, i < j →
    list_items pg !! i = Some a → list_items pg !! j = Some b →
    ∃ ta tb, parse_ISO_string (datetime a) = Some ta ∧
             parse_ISO_string (datetime b) = Some tb ∧ (tb ≤ ta)%Z.
Proof.
  intros Hu Hposts Hvalid Hrun i j a b Hij Ha Hb.
  destruct (page_Normal_inv _ _ _ _ _ _ _ _ _ Hu Hposts Hrun)
    as (_ & _ & Hitems).
  destruct (Forall2_lookup_r _ _ _ _ _ Hitems Ha)
    as (p & Hp & d & t & Hd & Ht & ->).
  destruct (Forall2_lookup_r _ _ _ _ _ Hitems Hb)
    as (q & Hq & d' & t' & Hd' & Ht' & ->).
  destruct (insertion_sort_newest_first h (filter (not_draft h) refs))
    with (i := i) (j := j) (a := p) (b := q)
    as (ta & tb & Ea & Hta & Eb & Htb & Hle); try done.
  { apply Forall_forall. intros r [Hnd Hr]%list_elem_of_filter.
    by apply Hvalid. }
  exists ta, tb. simpl.
  assert (t = ta) as -> by congruence. assert (t' = tb) as -> by congruence.
  by rewrite !parse_ISO_string_ISO_string.
Qed.

Lemma page_list_newest_first_witness :
  URL.basic_URL_parser Examples.site_after_scheme
    (Config.ToString (Config.SITE Examples.site_env))
  = Some MoreExamples.site_url ∧
  is_posts MoreExamples.example_external 2 [0; 1] ∧
  (∀ p, p ∈ [0; 1] → not_draft MoreExamples.example_external p →
        valid_time (date_of MoreExamples.example_external p)) ∧
  page Examples.site_after_scheme MoreExamples.utc_machine
    Examples.site_env 2 MoreExamples.example_external
  = (Normal MoreExamples.example_external_page,
     MoreExamples.example_external ++ [OArray [1; 0]]) ∧
  ∀ i j a b, i < j →
    list_items MoreExamples.example_external_page !! i = Some a →
    list_items MoreExamples.example_external_page !! j = Some b →
    ∃ ta tb, parse_ISO_string (datetime a) = Some ta ∧
             parse_ISO_string (datetime b) = Some tb ∧ (tb ≤ ta)%Z.
Proof.
  assert (Hposts : is_posts MoreExamples.example_external 2 [0; 1])
    by (split; [reflexivity | repeat constructor; by eexists]).
  assert (Hvalid : ∀ p, p ∈ [0; 1] → not_draft MoreExamples.example_external p →
                        valid_time (date_of MoreExamples.example_external p)).
  { intros p Hp _.
    repeat (apply elem_of_cons in Hp as [->|Hp];
            [eexists; split; [reflexivity | simpl; lia]|]).
    by apply elem_of_nil in Hp. }
  assert (Hrun : page Examples.site_after_scheme MoreExamples.utc_machine
                   Examples.site_env 2 MoreExamples.example_external
                 = (Normal MoreExamples.example_external_page,
                    MoreExamples.example_external ++ [OArray [1; 0]]))
    by reflexivity.
  split; [reflexivity|]. split; [exact Hposts|]. split; [exact Hvalid|].
  split; [exact Hrun|].
  exact (page_list_newest_first Examples.site_after_scheme
           MoreExamples.utc_machine Examples.site_env MoreExamples.site_url
           _ _ _ _ _ eq_refl Hposts Hvalid Hrun).
Defined.

(** ** The site URL *)

Lemma colon_code c : c ≠ ":"%char → (URL.code c =? 58)%nat = false.
Proof.
  intros Hc. apply Nat.eqb_neq. intros Hcode. apply Hc.
  rewrite <- (ascii_nat_embedding c). unfold URL.code in Hcode.
  by rewrite Hcode.
Qed.

Lemma scheme_state_colonless buffer s :
  colonless s → URL.scheme_state buffer s = None.
Proof.
  unfold colonless. revert buffer.
  induction s as [|c s IH]; intros buffer Hs; [done|].
  simpl in Hs. apply Forall_cons in Hs as [Hc Hs]. simpl.
  rewrite (colon_code c Hc). destruct (_ || _); [by apply IH | done].
Qed.

Lemma strip_leading_colonless s : colonless s → colonless (URL.strip_leading s).
Proof.
  unfold colonless. induction s as [|c s IH]; intros Hs; [done|].
  simpl. destruct (URL.is_C0_control_or_space c); [|done].
  simpl in Hs. apply Forall_cons in Hs as [_ Hs]. by apply IH.
Qed.

Lemma strip_trailing_colonless s : colonless s → colonless (URL.strip_trailing s).
Proof.
  unfold colonless. induction s as [|c s IH]; intros Hs; [done|].
  simpl in Hs. apply Forall_cons in Hs as [Hc Hs]. specialize (IH Hs).
  simpl. destruct (URL.strip_trailing s) as [|c' s'].
  - destruct (URL.is_C0_control_or_space c); [constructor|].
    simpl. by repeat constructor.
  - simpl. by constructor.
Qed.

Lemma remove_tab_or_newline_colonless s :
  colonless s → colonless (URL.remove_tab_or_newline s).
Proof.
  unfold colonless. induction s as [|c s IH]; intros Hs; [done|].
  simpl in Hs. apply Forall_cons in Hs as [Hc Hs]. simpl.
  destruct (URL.is_ASCII_tab_or_newline c); [by apply IH|].
  simpl. constructor; [done | by apply IH].
Qed.

(** X11: a site URL without a colon has no scheme, and loading the
    configuration throws a TypeError whatever else the string holds: a bare
    host name, a path, the empty string. *)
Theorem config_rejects_colonless after_scheme s :
  colonless s →
  Config.load after_scheme {| Config.SITE := Some s |} = Throw TypeError.
Proof.
  intros Hs. unfold Config.load, Config.URL_new, URL.basic_URL_parser. simpl.
  apply strip_leading_colonless, strip_trailing_colonless,
    remove_tab_or_newline_colonless in Hs.
  destruct (URL.remove_tab_or_newline _) as [|c rest]; [done|].
  unfold URL.scheme_start_state.
  destruct (URL.is_ASCII_alpha c); [|done].
  unfold colonless in Hs. simpl in Hs. apply Forall_cons in Hs as [_ Hs].
  by rewrite scheme_state_colonless.
Qed.

Lemma config_rejects_colonless_witness :
  colonless "/blog/" ∧
  Config.load Examples.site_after_scheme {| Config.SITE := Some "/blog/" |}
  = Throw TypeError.
Proof.
  assert (Hs : colonless "/blog/") by (repeat constructor; discriminate).
  split; [exact Hs|].
  exact (config_rejects_colonless Examples.site_after_scheme "/blog/" Hs).
Defined.

Lemma strip_leading_blank l s :
  blank l → URL.strip_leading (l ++ s) = URL.strip_leading s.
Proof.
  unfold blank. induction l as [|c l IH]; intros Hl; [done|].
  simpl in Hl. apply Forall_cons in Hl as [Hc Hl].
  rewrite append_String. simpl. rewrite Hc. by apply IH.
Qed.

Lemma strip_trailing_blank s r :
  blank r → URL.strip_trailing (s ++ r) = URL.strip_trailing s.
Proof.
  unfold blank. intros Hr.
  assert (Hblank : URL.strip_trailing r = EmptyString).
  { induction r as [|c r IH]; [done|].
    simpl in Hr. apply Forall_cons in Hr as [Hc Hr].
    simpl. by rewrite IH, Hc. }
  induction s as [|c s IH]; [done|].
  rewrite append_String. simpl. by rewrite IH.
Qed.

Lemma strip_both_blank s r :
  blank r →
  URL.strip_trailing (URL.strip_leading (s ++ r))
  = URL.strip_trailing (URL.strip_leading s).
Proof.
  intros Hr. induction s as [|c s IH].
  - rewrite append_EmptyString. simpl.
    replace (URL.strip_leading r) with EmptyString; [done|].
    unfold blank in Hr. induction r as [|c r IHr]; [done|].
    simpl in Hr. apply Forall_cons in Hr as [Hc Hr].
    simpl. rewrite Hc. by apply IHr.
  - rewrite append_String. simpl.
    destruct (URL.is_C0_control_or_space c); [done|].
    rewrite <- append_String. by apply strip_trailing_blank.
Qed.

(** X12: C0 controls and spaces around the site URL, such as the newline
    that ends a line of an environment file, make no difference to what the
    configuration exports or throws. *)
Theorem config_ignores_surrounding_blanks after_scheme l s r :
  blank l → blank r →
  Config.load after_scheme {| Config.SITE := Some (l ++ s ++ r)%string |}
  = Config.load after_scheme {| Config.SITE := Some s |}.
Proof.
  intros Hl Hr. unfold Config.load, Config.URL_new, URL.basic_URL_parser.
  simpl. by rewrite strip_leading_blank, strip_both_blank.
Qed.

Lemma config_ignores_surrounding_blanks_witness :
  blank "  " ∧
  blank (String (ascii_of_nat 10) EmptyString) ∧
  Config.load Examples.site_after_scheme
    {| Config.SITE :=
         Some ("  " ++ "https://blog.damianesteban.dev/blog/?page=2#top"
               ++ String (ascii_of_nat 10) EmptyString)%string |}
  = Config.load Examples.site_after_scheme
      {| Config.SITE := Some "https://blog.damianesteban.dev/blog/?page=2#top" |}.
Proof.
  assert (Hl : blank "  ") by (repeat constructor).
  assert (Hr : blank (String (ascii_of_nat 10) EmptyString))
    by (repeat constructor).
  split; [exact Hl|]. split; [exact Hr|].
  exact (config_ignores_surrounding_blanks Examples.site_after_scheme
           _ _ _ Hl Hr).
Defined.

(** ** The sort of the engine *)

Section V8Sort.

Context {A : Type} (lt : A → A → bool).

Lemma V8_make_run_perm l : (V8.make_run lt l).1 ≡ₚ l.
Proof.
  destruct l as [|x [|y l]]; [done..|]. unfold V8.make_run.
  destruct (lt y x); [|done]. cbn [fst].
  rewrite reverse_Permutation. by rewrite take_drop.
Qed.

Lemma V8_binary_insertion_perm sorted rest :
  V8.binary_insertion lt sorted rest ≡ₚ sorted ++ rest.
Proof.
  revert sorted. induction rest as [|pivot rest IH]; intros sorted; simpl.
  - by rewrite app_nil_r.
  - rewrite IH, <- app_assoc. simpl. rewrite <- !Permutation_middle.
    by rewrite app_assoc, take_drop.
Qed.

Lemma V8_sort_perm l : V8.sort lt l ≡ₚ l.
Proof.
  unfold V8.sort. destruct (length l <? 2); [done|].
  pose proof (V8_make_run_perm l) as Hperm.
  destruct (V8.make_run lt l) as [work n]. simpl in Hperm.
  by rewrite V8_binary_insertion_perm, take_drop.
Qed.

End V8Sort.

Lemma filter_none {A} (P : A → Prop) `{!∀ x, Decision (P x)} (l : list A) :
  Forall (λ x, ¬ P x) l → filter P l = [].
Proof.
  induction 1 as [|x l Hx Hl IH]; [done|]. by rewrite filter_cons_False.
Qed.

Section V8Order.

Context {A : Type} (lt : A → A → bool) (V : A → Prop) (key : A → Z).

(** On the elements that satisfy [V] the comparator is consistent: it puts
    [x] before [y] exactly when the key of [x] is greater. *)
Hypothesis lt_key : ∀ x y, V x → V y → lt x y = true ↔ (key y < key x)%Z.

#[local] Instance descending_trans : Transitive (λ a b : A, (key b ≤ key a)%Z).
Proof. intros a b c. lia. Qed.

#[local] Instance ascending_trans : Transitive (λ a b : A, (key a < key b)%Z).
Proof. intros a b c. lia. Qed.

(** The binary search returns the place behind the elements that do not
    have a smaller key than the pivot. *)
Lemma V8_search_spec fuel sorted pivot left right :
  V pivot → Forall V sorted →
  StronglySorted (λ a b, (key b ≤ key a)%Z) sorted →
  left ≤ right → right ≤ length sorted → right - left ≤ fuel →
  (∀ i x, i < left → sorted !! i = Some x → (key pivot ≤ key x)%Z) →
  (∀ i x, right ≤ i → sorted !! i = Some x → (key x < key pivot)%Z) →
  let p := V8.search lt fuel sorted pivot left right in
  p ≤ length sorted ∧
  (∀ i x, i < p → sorted !! i = Some x → (key pivot ≤ key x)%Z) ∧
  (∀ i x, p ≤ i → sorted !! i = Some x → (key x < key pivot)%Z).
Proof.
  intros Hp HV Hs. revert left right.
  induction fuel as [|fuel IH]; intros left right Hlr Hr Hfuel Hleft Hright.
  - simpl. assert (left = right) as -> by lia. auto.
  - cbn [V8.search]. destruct (Nat.ltb_spec left right) as [Hlt|Hge];
      [|assert (left = right) as -> by lia; auto].
    pose proof (Nat.div_mod_eq (right - left) 2) as Hdiv.
    pose proof (Nat.mod_upper_bound (right - left) 2) as Hmod.
    set (mid := left + (right - left) / 2) in *.
    assert (Hmid : left ≤ mid < right) by (unfold mid; lia).
    destruct (lookup_lt_is_Some_2 sorted mid) as [x Hx]; [lia|]. rewrite Hx.
    assert (HVx : V x).
    { rewrite Forall_forall in HV. apply HV. by eapply list_elem_of_lookup_2. }
    destruct (lt pivot x) eqn:Hcmp.
    + apply lt_key in Hcmp; [|done..].
      apply IH; [lia | lia | unfold mid in *; lia | done |].
      intros i y Hi Hy. destruct (decide (i = mid)) as [->|Hne].
      * rewrite Hx in Hy. by injection Hy as <-.
      * pose proof (StronglySorted_lookup _ _ mid i x y Hs) as Hxy.
        simpl in Hxy. specialize (Hxy ltac:(lia) Hx Hy). lia.
    + assert (Hle : (key pivot ≤ key x)%Z).
      { destruct (Z.le_gt_cases (key pivot) (key x)) as [|Hgt]; [done|].
        apply lt_key in Hgt; [congruence | done..]. }
      apply IH; [lia | lia | unfold mid in *; lia | | done].
      intros i y Hi Hy. destruct (decide (i = mid)) as [->|Hne].
      * rewrite Hx in Hy. by injection Hy as <-.
      * pose proof (StronglySorted_lookup _ _ i mid y x Hs) as Hxy.
        simpl in Hxy. specialize (Hxy ltac:(lia) Hy Hx). lia.
Qed.

(** Inserting the pivot at the place found keeps the order, and puts the
    pivot behind the elements of its key. *)
Lemma V8_insert_spec sorted pivot :
  V pivot → Forall V sorted →
  StronglySorted (λ a b, (key b ≤ key a)%Z) sorted →
  let p := V8.search lt (length sorted) sorted pivot 0 (length sorted) in
  StronglySorted (λ a b, (key b ≤ key a)%Z)
    (take p sorted ++ pivot :: drop p sorted) ∧
  ∀ t, filter (λ x, key x = t) (take p sorted ++ pivot :: drop p sorted)
       = filter (λ x, key x = t) (sorted ++ [pivot]).
Proof.
  intros Hp HV Hs.
  destruct (V8_search_spec (length sorted) sorted pivot 0 (length sorted))
    as (Hlen & Hbefore & Hafter); try done; try lia.
  { intros i x Hi Hx. apply lookup_lt_Some in Hx. lia. }
  set (p := V8.search _ _ _ _ _ _) in *. simpl.
  assert (Htake : ∀ x, x ∈ take p sorted → (key pivot ≤ key x)%Z).
  { intros x [i Hi]%list_elem_of_lookup.
    pose proof (lookup_lt_Some _ _ _ Hi) as Hlt. rewrite length_take in Hlt.
    rewrite lookup_take_lt in Hi by lia. apply (Hbefore i); [lia | done]. }
  assert (Hdrop : ∀ x, x ∈ drop p sorted → (key x < key pivot)%Z).
  { intros x [i Hi]%list_elem_of_lookup. rewrite lookup_drop in Hi.
    apply (Hafter (p + i)); [lia | done]. }
  rewrite <- (take_drop p sorted) in Hs.
  apply StronglySorted_app in Hs as (Hboth & Hs1 & Hs2). split.
  - apply StronglySorted_app. split; [|split; [done|]].
    + intros a b Ha [->|Hb]%elem_of_cons; [by apply Htake | by apply Hboth].
    + constructor; [done|]. apply Forall_forall. intros b Hb.
      apply Hdrop in Hb. lia.
  - intros t. rewrite <- (take_drop p sorted) at 3.
    rewrite !filter_app, filter_cons, <- app_assoc. f_equal.
    rewrite (filter_cons _ pivot), filter_nil.
    destruct (decide (key pivot = t)) as [Ht|Ht]; [|by rewrite app_nil_r].
    rewrite (filter_none _ (drop p sorted)); [done|].
    apply Forall_forall. intros x Hx%Hdrop. lia.
Qed.

Lemma V8_binary_insertion_spec sorted rest :
  Forall V sorted → Forall V rest →
  StronglySorted (λ a b, (key b ≤ key a)%Z) sorted →
  StronglySorted (λ a b, (key b ≤ key a)%Z)
    (V8.binary_insertion lt sorted rest) ∧
  ∀ t, filter (λ x, key x = t) (V8.binary_insertion lt sorted rest)
       = filter (λ x, key x = t) (sorted ++ rest).
Proof.
  intros HV Hrest. revert sorted HV.
  induction Hrest as [|pivot rest Hp Hrest IH]; intros sorted HV Hs.
  - simpl. by rewrite app_nil_r.
  - cbn [V8.binary_insertion].
    destruct (V8_insert_spec sorted pivot Hp HV Hs) as [Hs' Hclass].
    simpl in Hs', Hclass.
    edestruct IH as [Hsorted Hfilter]; [|exact Hs'|].
    { apply Forall_app. split; [by apply Forall_take|].
      constructor; [done | by apply Forall_drop]. }
    split; [done|]. intros t. rewrite Hfilter, filter_app, Hclass.
    by rewrite <- filter_app, <- app_assoc.
Qed.

(** A run that is not descending is in order. *)
Lemma V8_run_length_ascending prev rest :
  V prev → Forall V rest →
  Sorted (λ a b, (key b ≤ key a)%Z)
    (prev :: take (V8.run_length lt false prev rest) rest).
Proof.
  intros Hp Hrest. revert prev Hp.
  induction Hrest as [|cur rest Hc Hrest IH]; intros prev Hp; simpl.
  - by repeat constructor.
  - destruct (lt cur prev) eqn:Hcmp; simpl; [by repeat constructor|].
    constructor; [by apply IH|]. constructor.
    destruct (Z.le_gt_cases (key cur) (key prev)) as [|Hgt]; [done|].
    apply lt_key in Hgt; [congruence | done..].
Qed.

(** A descending run has strictly growing keys. *)
Lemma V8_run_length_descending prev rest :
  V prev → Forall V rest →
  Sorted (λ a b, (key a < key b)%Z)
    (prev :: take (V8.run_length lt true prev rest) rest).
Proof.
  intros Hp Hrest. revert prev Hp.
  induction Hrest as [|cur rest Hc Hrest IH]; intros prev Hp; simpl.
  - by repeat constructor.
  - destruct (lt cur prev) eqn:Hcmp; simpl; [|by repeat constructor].
    constructor; [by apply IH|]. constructor. by apply lt_key in Hcmp.
Qed.

Lemma StronglySorted_reverse (R : A → A → Prop) l :
  StronglySorted R l → StronglySorted (flip R) (reverse l).
Proof.
  induction 1 as [|x l Hs IH Hx]; [constructor|].
  rewrite reverse_cons. apply StronglySorted_app. split; [|split; [done|]].
  - intros a b Ha ->%list_elem_of_singleton.
    apply (proj1 (elem_of_reverse _ _)) in Ha.
    rewrite Forall_forall in Hx. unfold flip. by apply Hx.
  - by repeat constructor.
Qed.

Lemma StronglySorted_weaken (R R' : A → A → Prop) l :
  (∀ a b, R a b → R' a b) → StronglySorted R l → StronglySorted R' l.
Proof.
  intros HR. induction 1 as [|x l Hs IH Hx]; constructor; [done|].
  eapply Forall_impl; [exact Hx | auto].
Qed.

Lemma ascending_filter_short l t :
  StronglySorted (λ a b, (key a < key b)%Z) l →
  length (filter (λ x, key x = t) l) ≤ 1.
Proof.
  induction 1 as [|x l Hs IH Hx]; [simpl; lia|].
  rewrite filter_cons. destruct (decide (key x = t)) as [Ht|Ht]; [|done].
  rewrite (filter_none _ l); [simpl; lia|].
  rewrite Forall_forall in Hx. apply Forall_forall. intros y Hy%Hx. lia.
Qed.

Lemma reverse_short (l : list A) : length l ≤ 1 → reverse l = l.
Proof. destruct l as [|x [|y l]]; simpl; [done | done | lia]. Qed.

Lemma V8_run_length_le isDescending prev rest :
  V8.run_length lt isDescending prev rest ≤ length rest.
Proof.
  revert prev. induction rest as [|cur rest IH]; intros prev; simpl; [lia|].
  destruct (if isDescending then _ else _); [lia|].
  specialize (IH cur). lia.
Qed.

(** The first run, reversed when it was descending, is in order and holds
    the elements of every key in the order they had. *)
Lemma V8_make_run_spec l :
  Forall V l →
  StronglySorted (λ a b, (key b ≤ key a)%Z)
    (take (V8.make_run lt l).2 (V8.make_run lt l).1) ∧
  ∀ t, filter (λ x, key x = t)
         (take (V8.make_run lt l).2 (V8.make_run lt l).1 ++
          drop (V8.make_run lt l).2 (V8.make_run lt l).1)
       = filter (λ x, key x = t) l.
Proof.
  intros HV. destruct l as [|x [|y l]].
  - simpl. split; [constructor | done].
  - simpl. split; [by repeat constructor | done].
  - unfold V8.make_run.
    apply Forall_cons in HV as [Hx HV]. apply Forall_cons in HV as [Hy HV].
    pose proof (V8_run_length_le (lt y x) y l) as Hle.
    set (n := 2 + V8.run_length lt (lt y x) y l) in *. cbn [fst snd].
    destruct (lt y x) eqn:Hcmp.
    + pose proof (V8_run_length_descending y l Hy HV) as Hrun.
      assert (Hasc : StronglySorted (λ a b, (key a < key b)%Z)
                       (take n (x :: y :: l))).
      { apply Sorted_StronglySorted; [apply _|]. simpl. constructor; [done|].
        constructor. by apply lt_key in Hcmp. }
      assert (Hlen : n = length (reverse (take n (x :: y :: l)))).
      { rewrite length_reverse, length_take. simpl in *. lia. }
      rewrite !(take_app_length' _ _ n Hlen), !(drop_app_length' _ _ n Hlen).
      split.
      * apply StronglySorted_reverse in Hasc.
        eapply StronglySorted_weaken; [|exact Hasc].
        intros a b. unfold flip. lia.
      * intros t. rewrite filter_app, filter_reverse.
        rewrite reverse_short by (by apply ascending_filter_short).
        by rewrite <- filter_app, take_drop.
    + rewrite take_drop. split; [|done].
      apply Sorted_StronglySorted; [apply _|]. simpl. constructor.
      * by apply V8_run_length_ascending.
      * constructor.
        destruct (Z.le_gt_cases (key y) (key x)) as [|Hgt]; [done|].
        apply lt_key in Hgt; [congruence | done..].
Qed.

(** On elements whose comparator is consistent the sort returns them in
    descending order of their keys, those of one key in the order they
    had. *)
Lemma V8_sort_spec l :
  Forall V l →
  StronglySorted (λ a b, (key b ≤ key a)%Z) (V8.sort lt l) ∧
  ∀ t, filter (λ x, key x = t) (V8.sort lt l) = filter (λ x, key x = t) l.
Proof.
  intros HV. unfold V8.sort.
  destruct (Nat.ltb_spec (length l) 2) as [Hshort|_].
  { split; [|done]. destruct l as [|x [|y l]]; simpl in *;
      [constructor | by repeat constructor | lia]. }
  pose proof (V8_make_run_spec l HV) as [Hs Hclass].
  pose proof (V8_make_run_perm lt l) as Hperm.
  destruct (V8.make_run lt l) as [work n]. simpl in *.
  assert (HVw : Forall V work) by (by rewrite Hperm).
  destruct (V8_binary_insertion_spec (take n work) (drop n work))
    as [Hsorted Hfilter]; [by apply Forall_take | by apply Forall_drop | done |].
  split; [done|]. intros t. by rewrite Hfilter, Hclass.
Qed.

End V8Order.

Section V8Ext.

Context {A : Type} (lt lt' : A → A → bool).

Hypothesis lt_ext : ∀ x y, lt x y = lt' x y.

Lemma V8_run_length_ext isDescending prev rest :
  V8.run_length lt isDescending prev rest
  = V8.run_length lt' isDescending prev rest.
Proof.
  revert prev. induction rest as [|cur rest IH]; intros prev; simpl; [done|].
  by rewrite lt_ext, IH.
Qed.

Lemma V8_make_run_ext l : V8.make_run lt l = V8.make_run lt' l.
Proof.
  destruct l as [|x [|y l]]; [done..|]. unfold V8.make_run.
  by rewrite lt_ext, V8_run_length_ext.
Qed.

Lemma V8_search_ext fuel sorted pivot left right :
  V8.search lt fuel sorted pivot left right
  = V8.search lt' fuel sorted pivot left right.
Proof.
  revert left right. induction fuel as [|fuel IH]; intros left right; [done|].
  cbn [V8.search]. destruct (left <? right); [|done].
  destruct (sorted !! _); [|done]. by rewrite lt_ext, !IH.
Qed.

Lemma V8_binary_insertion_ext sorted rest :
  V8.binary_insertion lt sorted rest = V8.binary_insertion lt' sorted rest.
Proof.
  revert sorted. induction rest as [|pivot rest IH]; intros sorted; [done|].
  cbn [V8.binary_insertion]. by rewrite V8_search_ext, IH.
Qed.

Lemma V8_sort_ext l : V8.sort lt l = V8.sort lt' l.
Proof.
  unfold V8.sort. rewrite V8_make_run_ext.
  destruct (V8.make_run lt' l). by rewrite V8_binary_insertion_ext.
Qed.

End V8Ext.

Lemma comes_before_ext h h' x y :
  document_at h' x = document_at h x → document_at h' y = document_at h y →
  comes_before h' x y = comes_before h x y.
Proof.
  unfold comes_before, timestamp, date_of. by intros -> ->.
Qed.

Lemma V8_extend_run_run h isDescending prev rest :
  is_Some (document_at h prev) →
  Forall (λ p, is_Some (document_at h p)) rest →
  V8.extend_run byDateDescending isDescending prev rest h
  = (Normal (V8.run_length (comes_before h) isDescending prev rest), h).
Proof.
  intros Hp Hrest. revert prev Hp.
  induction Hrest as [|cur rest Hc Hrest IH]; intros prev Hp; [done|].
  cbn [V8.extend_run V8.run_length].
  rewrite (JS_bind_Normal _ _ _ _ _ (SortCompare_run _ _ _ Hc Hp)).
  fold (comes_before h cur prev).
  destruct (if isDescending then _ else _); [done|].
  by rewrite (JS_bind_Normal _ _ _ _ _ (IH _ Hc)).
Qed.

Lemma V8_CountAndMakeRun_run h work :
  Forall (λ p, is_Some (document_at h p)) work →
  V8.CountAndMakeRun byDateDescending work h
  = (Normal (V8.make_run (comes_before h) work), h).
Proof.
  intros Hdocs. destruct work as [|x [|y work]]; [done..|].
  apply Forall_cons in Hdocs as [Hx Hdocs].
  apply Forall_cons in Hdocs as [Hy Hdocs].
  unfold V8.CountAndMakeRun, V8.make_run.
  rewrite (JS_bind_Normal _ _ _ _ _ (SortCompare_run _ _ _ Hy Hx)).
  fold (comes_before h y x).
  by rewrite (JS_bind_Normal _ _ _ _ _ (V8_extend_run_run _ _ _ _ Hy Hdocs)).
Qed.

Lemma V8_binary_search_run h fuel sorted pivot left right :
  is_Some (document_at h pivot) →
  Forall (λ p, is_Some (document_at h p)) sorted →
  V8.binary_search fuel byDateDescending sorted pivot left right h
  = (Normal (V8.search (comes_before h) fuel sorted pivot left right), h).
Proof.
  intros Hp Hdocs. revert left right.
  induction fuel as [|fuel IH]; intros left right; [done|].
  cbn [V8.binary_search V8.search]. destruct (left <? right); [|done].
  destruct (sorted !! _) as [x|] eqn:Hx; [|done].
  assert (Hd : is_Some (document_at h x)).
  { rewrite Forall_forall in Hdocs. apply Hdocs.
    by eapply list_elem_of_lookup_2. }
  rewrite (JS_bind_Normal _ _ _ _ _ (SortCompare_run _ _ _ Hp Hd)).
  fold (comes_before h pivot x). destruct (comes_before h pivot x); apply IH.
Qed.

Lemma V8_BinaryInsertionSort_run h sorted rest :
  Forall (λ p, is_Some (document_at h p)) sorted →
  Forall (λ p, is_Some (document_at h p)) rest →
  V8.BinaryInsertionSort byDateDescending sorted rest h
  = (Normal (V8.binary_insertion (comes_before h) sorted rest), h).
Proof.
  intros Hdocs Hrest. revert sorted Hdocs.
  induction Hrest as [|pivot rest Hp Hrest IH]; intros sorted Hdocs; [done|].
  cbn [V8.BinaryInsertionSort V8.binary_insertion].
  rewrite (JS_bind_Normal _ _ _ _ _
             (V8_binary_search_run _ _ _ _ _ _ Hp Hdocs)).
  apply IH. apply Forall_app. split; [by apply Forall_take|].
  constructor; [done | by apply Forall_drop].
Qed.

Lemma V8_sort_elements_run h elems :
  Forall (λ p, is_Some (document_at h p)) elems →
  V8.sort_elements byDateDescending elems h
  = (Normal (V8.sort (comes_before h) elems), h).
Proof.
  intros Hdocs. unfold V8.sort_elements, V8.sort.
  destruct (length elems <? 2); [done|].
  rewrite (JS_bind_Normal _ _ _ _ _ (V8_CountAndMakeRun_run _ _ Hdocs)).
  pose proof (V8_make_run_perm (comes_before h) elems) as Hperm.
  destruct (V8.make_run (comes_before h) elems) as [work n]. simpl in Hperm.
  rewrite <- Hperm in Hdocs.
  apply V8_BinaryInsertionSort_run; [by apply Forall_take | by apply Forall_drop].
Qed.

Lemma V8_Array_sort_run h O elems :
  is_posts h O elems →
  V8.Array_sort O byDateDescending h
  = (Normal O, <[O := OArray (V8.sort (comes_before h) elems)]> h).
Proof.
  intros [HO Hdocs]. unfold V8.Array_sort.
  rewrite (JS_bind_Normal _ _ _ _ _ (array_elements_run _ _ _ HO)).
  rewrite (JS_bind_Normal _ _ _ _ _ (V8_sort_elements_run _ _ Hdocs)).
  erewrite JS_bind_Normal; [done|]. unfold array_write. by rewrite HO.
Qed.

(** The whole run on this engine: the store gains one array, which holds
    the published posts as the engine's sort leaves them. *)
Lemma V8_sortedPosts_run h posts refs :
  is_posts h posts refs →
  V8.sortedPosts posts h
  = (Normal (length h),
     h ++ [OArray (V8.sort (comes_before h) (List.filter (published h) refs))]).
Proof.
  intros Hposts. unfold V8.sortedPosts.
  rewrite (JS_bind_Normal _ _ _ _ _ (Array_filter_run _ _ _ Hposts)).
  destruct Hposts as [HO Hdocs].
  rewrite (V8_Array_sort_run _ _ (List.filter (published h) refs)).
  - f_equal. rewrite insert_app_r_alt, Nat.sub_diag by lia. simpl.
    do 3 f_equal. apply V8_sort_ext. intros x y.
    apply comes_before_ext; apply document_at_alloc_array.
  - split; [by apply list_lookup_middle|].
    apply Forall_forall. intros p Hp. rewrite document_at_alloc_array.
    apply list_elem_of_In, List.filter_In in Hp as [Hp _].
    rewrite Forall_forall in Hdocs. apply Hdocs. by apply list_elem_of_In.
Qed.

Lemma V8_sortedPosts_returns h posts refs :
  is_posts h posts refs →
  V8_returns_posts h posts
    (V8.sort (comes_before h) (filter (not_draft h) refs))
    (h ++ [OArray (V8.sort (comes_before h) (filter (not_draft h) refs))]).
Proof.
  intros Hposts. exists (length h). rewrite (V8_sortedPosts_run _ _ refs) by done.
  destruct Hposts as [_ Hdocs]. rewrite (filter_published _ _ Hdocs).
  split; [done|]. by apply list_lookup_middle.
Qed.

(** ** The engine and valid dates *)

Lemma round_double_lt_zero z : (round_double z <? 0)%Z = (z <? 0)%Z.
Proof.
  pose proof (round_double_sgn z) as H.
  destruct (Z.ltb_spec z 0%Z), (Z.ltb_spec (round_double z) 0%Z); try done.
  - rewrite (Z.sgn_neg z) in H by lia.
    destruct (Z.eq_dec (round_double z) 0%Z) as [E|];
      [rewrite E in H; done | rewrite Z.sgn_pos in H by lia; done].
  - rewrite (Z.sgn_neg (round_double z)) in H by lia.
    destruct (Z.eq_dec z 0%Z) as [->|]; [done|].
    rewrite Z.sgn_pos in H by lia. done.
Qed.

Lemma comes_before_Int h x y tx ty :
  timestamp h x = Int tx → timestamp h y = Int ty →
  comes_before h x y = true ↔ (ty < tx)%Z.
Proof.
  intros Hx Hy. unfold comes_before. rewrite Hx, Hy. simpl.
  rewrite round_double_lt_zero, Z.ltb_lt. lia.
Qed.

Lemma instant_filter h (l : list loc) t :
  Forall (λ p, valid_time (date_of h p)) l →
  filter (λ p, instant h p = t) l = filter (λ p, timestamp h p = Int t) l.
Proof.
  intros Hvalid. induction Hvalid as [|p l Hp Hl IH]; [done|].
  rewrite !filter_cons, IH. pose proof (timestamp_valid _ _ Hp) as Et.
  destruct Hp as (tp & Ep & _). rewrite Ep in Et. unfold instant.
  rewrite Et. destruct (decide (tp = t)) as [->|Hne].
  - by rewrite decide_True.
  - rewrite decide_False; [done|]. by intros [= ->].
Qed.

(** With valid dates the engine has no choice: its sort returns what the
    sort of [sortedPosts] returns. *)
Lemma V8_sort_valid_dates h (l : list loc) :
  Forall (λ p, valid_time (date_of h p)) l →
  V8.sort (comes_before h) l = insertion_sort (keeps_before h) l.
Proof.
  intros Hvalid.
  assert (Hinstant : ∀ p, valid_time (date_of h p) →
            timestamp h p = Int (instant h p)).
  { intros p Hp. pose proof (timestamp_valid _ _ Hp) as Et.
    destruct Hp as (tp & Ep & _). rewrite Ep in Et. unfold instant.
    by rewrite Et. }
  destruct (V8_sort_spec (comes_before h)
              (λ p, valid_time (date_of h p)) (instant h)) with (l := l)
    as [Hsorted Hclass]; [|done|].
  { intros x y Hx Hy.
    apply comes_before_Int; by apply Hinstant. }
  apply (descending_stable_unique (instant h)); [done| |].
  - apply (insertion_sort_descending _ (λ p, valid_time (date_of h p)));
      [|done].
    intros x y Hx Hy. apply keeps_before_Int; by apply Hinstant.
  - intros t. rewrite Hclass, !instant_filter.
    + symmetry. apply sortedPosts_stable_classes.
    + by rewrite insertion_sort_perm.
    + done.
Qed.

Lemma filter_not_draft_valid h refs :
  (∀ p, p ∈ refs → not_draft h p → valid_time (date_of h p)) →
  Forall (λ p, valid_time (date_of h p)) (filter (not_draft h) refs).
Proof.
  intros Hvalid. apply Forall_forall.
  intros p [Hp Hin]%list_elem_of_filter. by apply Hvalid.
Qed.

(** C8, as stated, does not hold: of two published posts of one instant the
    later one of the input comes first in the result, on an input that also
    holds posts with invalid dates.  The comparator is then not consistent
    (it ties a post of instant 1000 with a post without a date, and that one
    with the posts of instant 2000) and the binary search of the engine
    places the last post before the one it followed. *)
Lemma sortedPosts_stable_counterexample :
  let h := EngineExamples.example_invalid_dates in
  is_posts h 7 [0; 1; 2; 3; 4; 5; 6] ∧
  not_draft h 5 ∧ not_draft h 6 ∧
  timestamp h 5 = Int 2000 ∧ timestamp h 6 = Int 2000 ∧
  byDateDescending 5 6 h = (Normal (Int 0), h) ∧
  occurs_before 5 6 [0; 1; 2; 3; 4; 5; 6] ∧
  (∃ h', V8_returns_posts h 7 [0; 1; 3; 6; 2; 4; 5] h') ∧
  occurs_before 6 5 [0; 1; 3; 6; 2; 4; 5] ∧
  ¬ occurs_before 5 6 [0; 1; 3; 6; 2; 4; 5].
Proof.
  unfold occurs_before. cbv zeta.
  split; [split; [reflexivity | repeat constructor; by eexists]|].
  do 2 (split; [done|]). do 3 (split; [reflexivity|]).
  split; [repeat (apply sublist_skip || apply sublist_cons); constructor|].
  split; [eexists _, _; split; reflexivity|].
  split; [repeat (apply sublist_skip || apply sublist_cons); constructor|].
  intros H.
  repeat match goal with
         | H : _ `sublist_of` _ |- _ => inversion H; clear H; subst
         end.
Qed.

(** C8: when the published Documents have valid dates, those whose dates
    are the same instant keep the order they have in the input: the
    comparator returns 0 on them, and the result, restricted to the
    Documents of one instant, is the input restricted in the same way.  The
    sort of the engine returns the same array when there are fewer than 64
    published posts, the arrays on which [V8.sort_elements] is its
    algorithm. *)
Theorem sortedPosts_stable_valid_dates h posts refs :
  is_posts h posts refs →
  (∀ p, p ∈ refs → not_draft h p → valid_time (date_of h p)) →
  ∃ out h', returns_posts h posts out h' ∧
    (length out < 64 → V8_returns_posts h posts out h') ∧
    (∀ x y t, x ∈ refs → y ∈ refs →
       timestamp h x = Int t → timestamp h y = Int t →
       byDateDescending x y h = (Normal (Int 0), h)) ∧
    (∀ t, filter (λ p, timestamp h p = Int t) out
          = filter (λ p, timestamp h p = Int t) (filter (not_draft h) refs)) ∧
    (∀ x y t, not_draft h x → not_draft h y →
       timestamp h x = Int t → timestamp h y = Int t →
       occurs_before x y refs → occurs_before x y out).
Proof.
  intros Hposts Hvalid. eexists _, _.
  split; [by apply sortedPosts_returns|].
  split.
  { intros _.
    rewrite <- (V8_sort_valid_dates h) by (by apply filter_not_draft_valid).
    by apply V8_sortedPosts_returns. }
  split; [|split; [intros t; apply sortedPosts_stable_classes|]].
  - intros x y t Hx Hy Ex Ey. destruct Hposts as [_ Hdocs].
    rewrite Forall_forall in Hdocs.
    rewrite byDateDescending_run by auto. rewrite Ex, Ey. simpl.
    by rewrite Z.sub_diag.
  - intros x y t Hx Hy Ex Ey Hxy. unfold occurs_before in *.
    etrans; [|apply (sublist_filter (λ p, timestamp h p = Int t))].
    rewrite sortedPosts_stable_classes.
    apply (filter_sublist_mono (not_draft h)) in Hxy.
    rewrite !filter_cons, filter_nil, !decide_True in Hxy by done.
    apply (filter_sublist_mono (λ p, timestamp h p = Int t)) in Hxy.
    by rewrite !filter_cons, filter_nil, !decide_True in Hxy by done.
Qed.

Lemma sortedPosts_stable_valid_dates_witness :
  let h := EngineExamples.example_same_day in
  is_posts h 5 [0; 1; 2; 3; 4] ∧
  (∀ p, p ∈ [0; 1; 2; 3; 4] → not_draft h p → valid_time (date_of h p)) ∧
  ∃ out h', returns_posts h 5 out h' ∧
    (length out < 64 → V8_returns_posts h 5 out h') ∧
    (∀ x y t, x ∈ [0; 1; 2; 3; 4] → y ∈ [0; 1; 2; 3; 4] →
       timestamp h x = Int t → timestamp h y = Int t →
       byDateDescending x y h = (Normal (Int 0), h)) ∧
    (∀ t, filter (λ p, timestamp h p = Int t) out
          = filter (λ p, timestamp h p = Int t)
              (filter (not_draft h) [0; 1; 2; 3; 4])) ∧
    (∀ x y t, not_draft h x → not_draft h y →
       timestamp h x = Int t → timestamp h y = Int t →
       occurs_before x y [0; 1; 2; 3; 4] → occurs_before x y out).
Proof.
  intros h.
  assert (Hposts : is_posts h 5 [0; 1; 2; 3; 4])
    by (split; [reflexivity | repeat constructor; by eexists]).
  assert (Hvalid : ∀ p, p ∈ [0; 1; 2; 3; 4] → not_draft h p →
                        valid_time (date_of h p)).
  { intros p Hp _.
    repeat (apply elem_of_cons in Hp as [->|Hp];
            [eexists; split; [reflexivity | simpl; lia]|]).
    by apply elem_of_nil in Hp. }
  split; [exact Hposts|]. split; [exact Hvalid|].
  exact (sortedPosts_stable_valid_dates _ _ _ Hposts Hvalid).
Defined.

(** The posts of one day of [EngineExamples.example_same_day] come out in
    the order of the input, behind the newer post. *)
Example sortedPosts_example_same_day :
  ∃ h', returns_posts EngineExamples.example_same_day 5 [1; 0; 2; 4] h'
        ∧ V8_returns_posts EngineExamples.example_same_day 5 [1; 0; 2; 4] h'.
Proof. eexists. split; eexists; split; reflexivity. Qed.

(** X15: on the sort of the engine too, the run completes normally on every
    array of Documents, whatever their dates, and returns the published
    posts, each as often as the input has it, in a new array. *)
Theorem V8_sortedPosts_total h posts refs :
  is_posts h posts refs →
  length (filter (not_draft h) refs) < 64 →
  ∃ out h', V8_returns_posts h posts out h' ∧
            out ≡ₚ filter (not_draft h) refs ∧
            h' = h ++ [OArray out].
Proof.
  intros Hposts _. eexists _, _.
  split; [by apply V8_sortedPosts_returns|]. split; [|done].
  apply V8_sort_perm.
Qed.

Lemma V8_sortedPosts_total_witness :
  let h := EngineExamples.example_invalid_dates in
  is_posts h 7 [0; 1; 2; 3; 4; 5; 6] ∧
  length (filter (not_draft h) [0; 1; 2; 3; 4; 5; 6]) < 64 ∧
  ∃ out h', V8_returns_posts h 7 out h' ∧
            out ≡ₚ filter (not_draft h) [0; 1; 2; 3; 4; 5; 6] ∧
            h' = h ++ [OArray out].
Proof.
  intros h.
  assert (Hposts : is_posts h 7 [0; 1; 2; 3; 4; 5; 6])
    by (split; [reflexivity | repeat constructor; by eexists]).
  assert (Hfew : length (filter (not_draft h) [0; 1; 2; 3; 4; 5; 6]) < 64)
    by (vm_compute; lia).
  split; [exact Hposts|]. split; [exact Hfew|].
  exact (V8_sortedPosts_total _ _ _ Hposts Hfew).
Defined.

(** X16: when the published posts have valid dates, the run on the sort of
    the engine is the run of [sortedPosts]: the same result in the same
    store. *)
Theorem V8_sortedPosts_agrees h posts refs :
  is_posts h posts refs →
  (∀ p, p ∈ refs → not_draft h p → valid_time (date_of h p)) →
  length (filter (not_draft h) refs) < 64 →
  V8.sortedPosts posts h = sortedPosts posts h.
Proof.
  intros Hposts Hvalid _.
  rewrite (V8_sortedPosts_run _ _ refs), (sortedPosts_run _ _ refs) by done.
  destruct Hposts as [_ Hdocs]. rewrite (filter_published _ _ Hdocs).
  by rewrite V8_sort_valid_dates by (by apply filter_not_draft_valid).
Qed.

Lemma V8_sortedPosts_agrees_witness :
  let h := EngineExamples.example_same_day in
  is_posts h 5 [0; 1; 2; 3; 4] ∧
  (∀ p, p ∈ [0; 1; 2; 3; 4] → not_draft h p → valid_time (date_of h p)) ∧
  length (filter (not_draft h) [0; 1; 2; 3; 4]) < 64 ∧
  V8.sortedPosts 5 h = sortedPosts 5 h.
Proof.
  intros h.
  assert (Hposts : is_posts h 5 [0; 1; 2; 3; 4])
    by (split; [reflexivity | repeat constructor; by eexists]).
  assert (Hvalid : ∀ p, p ∈ [0; 1; 2; 3; 4] → not_draft h p →
                        valid_time (date_of h p)).
  { intros p Hp _.
    repeat (apply elem_of_cons in Hp as [->|Hp];
            [eexists; split; [reflexivity | simpl; lia]|]).
    by apply elem_of_nil in Hp. }
  assert (Hfew : length (filter (not_draft h) [0; 1; 2; 3; 4]) < 64)
    by (vm_compute; lia).
  split; [exact Hposts|]. split; [exact Hvalid|]. split; [exact Hfew|].
  exact (V8_sortedPosts_agrees _ _ _ Hposts Hvalid Hfew).
Defined.

(** ** The result of the engine's sort, sorted again *)

Section V8Fixed.

Context {A : Type} (lt : A → A → bool).

(** SortCompare is negative on [x] and [y] only when it is not on [y] and
    [x]. *)
Hypothesis lt_asym : ∀ x y, lt x y = true → lt y x = false.

Lemma Sorted_weaken (R R' : A → A → Prop) l :
  (∀ a b, R a b → R' a b) → Sorted R l → Sorted R' l.
Proof.
  intros HR. induction 1 as [|x l Hs IH Hx]; constructor; [done|].
  destruct Hx; constructor; auto.
Qed.

Lemma Sorted_middle (R : A → A → Prop) l1 x l2 :
  Sorted R (l1 ++ l2) →
  (∀ y, last l1 = Some y → R y x) →
  (∀ z, head l2 = Some z → R x z) →
  Sorted R (l1 ++ x :: l2).
Proof.
  induction l1 as [|a l1 IH]; simpl; intros Hs Hlast Hhead.
  - constructor; [done|]. destruct l2; constructor. by apply Hhead.
  - apply Sorted_inv in Hs as [Hs Ha]. constructor.
    + apply IH; [done| |done]. intros y Hy. apply Hlast.
      destruct l1; [done|]. by rewrite last_cons_cons.
    + destruct l1 as [|b l1]; simpl in *.
      * constructor. by apply Hlast.
      * constructor. by inversion Ha.
Qed.

Lemma Sorted_reverse (R : A → A → Prop) l :
  Sorted R l → Sorted (flip R) (reverse l).
Proof.
  induction 1 as [|x l Hs IH Hx]; [constructor|].
  rewrite reverse_cons. rewrite <- (app_nil_r (reverse l)) in IH.
  apply Sorted_middle; [done| |done].
  intros y Hy. rewrite last_reverse in Hy. unfold flip.
  destruct Hx as [|z l Hxz]; [done|]. by injection Hy as <-.
Qed.

(** A run that is not descending, as the engine tells it. *)
Lemma V8_run_length_run prev rest :
  Sorted (λ a b, lt b a = false)
    (prev :: take (V8.run_length lt false prev rest) rest).
Proof.
  revert prev. induction rest as [|cur rest IH]; intros prev; simpl.
  - by repeat constructor.
  - destruct (lt cur prev) eqn:Hcmp; simpl; [by repeat constructor|].
    constructor; [by apply IH|]. by constructor.
Qed.

Lemma V8_run_length_strict prev rest :
  Sorted (λ a b, lt b a = true)
    (prev :: take (V8.run_length lt true prev rest) rest).
Proof.
  revert prev. induction rest as [|cur rest IH]; intros prev; simpl.
  - by repeat constructor.
  - destruct (lt cur prev) eqn:Hcmp; simpl; [|by repeat constructor].
    constructor; [by apply IH|]. by constructor.
Qed.

Lemma V8_run_length_whole prev rest :
  Sorted (λ a b, lt b a = false) (prev :: rest) →
  V8.run_length lt false prev rest = length rest.
Proof.
  revert prev. induction rest as [|cur rest IH]; intros prev Hs; [done|].
  apply Sorted_inv in Hs as [Hs Hhd]. apply HdRel_inv in Hhd.
  simpl. rewrite Hhd. by rewrite IH.
Qed.

(** The sort returns a list that is one run already as it is. *)
Lemma V8_sort_fixed l :
  Sorted (λ a b, lt b a = false) l → V8.sort lt l = l.
Proof.
  intros Hs. unfold V8.sort. destruct (length l <? 2); [done|].
  destruct l as [|x [|y l]]; [done..|]. unfold V8.make_run.
  pose proof Hs as Hs'.
  apply Sorted_inv in Hs' as [Hs' Hhd]. apply HdRel_inv in Hhd.
  rewrite Hhd, (V8_run_length_whole _ _ Hs').
  rewrite take_ge, drop_ge by (simpl; lia). done.
Qed.

(** The place the binary search finds: the element before it does not
    have to follow the pivot, the element at it does. *)
Lemma V8_search_place fuel sorted pivot left right :
  left ≤ right → right ≤ length sorted → right - left ≤ fuel →
  (left = 0 ∨ ∃ x, sorted !! (left - 1) = Some x ∧ lt pivot x = false) →
  (right = length sorted ∨ ∃ x, sorted !! right = Some x ∧ lt pivot x = true) →
  let p := V8.search lt fuel sorted pivot left right in
  p ≤ length sorted ∧
  (p = 0 ∨ ∃ x, sorted !! (p - 1) = Some x ∧ lt pivot x = false) ∧
  (p = length sorted ∨ ∃ x, sorted !! p = Some x ∧ lt pivot x = true).
Proof.
  revert left right.
  induction fuel as [|fuel IH]; intros left right Hlr Hr Hfuel Hleft Hright.
  - simpl. assert (left = right) as -> by lia. auto.
  - cbn [V8.search]. destruct (Nat.ltb_spec left right) as [Hlt|Hge];
      [|assert (left = right) as -> by lia; auto].
    pose proof (Nat.div_mod_eq (right - left) 2) as Hdiv.
    pose proof (Nat.mod_upper_bound (right - left) 2) as Hmod.
    set (mid := left + (right - left) / 2) in *.
    assert (Hmid : left ≤ mid < right) by (unfold mid; lia).
    destruct (lookup_lt_is_Some_2 sorted mid) as [x Hx]; [lia|]. rewrite Hx.
    destruct (lt pivot x) eqn:Hcmp.
    + apply IH; [lia | lia | unfold mid in *; lia | done |].
      right. by exists x.
    + apply IH; [lia | lia | unfold mid in *; lia | | done].
      right. exists x. by replace (mid + 1 - 1) with mid by lia.
Qed.

Lemma V8_binary_insertion_run sorted rest :
  Sorted (λ a b, lt b a = false) sorted →
  Sorted (λ a b, lt b a = false) (V8.binary_insertion lt sorted rest).
Proof.
  revert sorted. induction rest as [|pivot rest IH]; intros sorted Hs; [done|].
  cbn [V8.binary_insertion]. apply IH.
  destruct (V8_search_place (length sorted) sorted pivot 0 (length sorted))
    as (Hlen & Hbefore & Hafter); [lia | lia | lia | by left | by left |].
  set (p := V8.search _ _ _ _ _ _) in *.
  apply Sorted_middle; [by rewrite take_drop| |].
  - intros y Hy. destruct (decide (p = 0)) as [Hp|Hp]; [by rewrite Hp in Hy|].
    destruct Hbefore as [|(x & Hx & Hcmp)]; [done|].
    rewrite last_lookup, length_take in Hy.
    replace (pred (p `min` length sorted)) with (p - 1) in Hy by lia.
    rewrite lookup_take_lt, Hx in Hy by lia. by injection Hy as <-.
  - intros z Hz. rewrite head_lookup, lookup_drop, Nat.add_0_r in Hz.
    destruct Hafter as [->|(x & Hx & Hcmp)].
    + by rewrite lookup_ge_None_2 in Hz.
    + rewrite Hx in Hz. injection Hz as <-. by apply lt_asym.
Qed.

(** What the sort returns is one run. *)
Lemma V8_sort_run l : Sorted (λ a b, lt b a = false) (V8.sort lt l).
Proof.
  unfold V8.sort. destruct (Nat.ltb_spec (length l) 2) as [Hshort|_].
  { destruct l as [|x [|y l]]; simpl in *;
      [constructor | by repeat constructor | lia]. }
  destruct l as [|x [|y l]]; [simpl; by repeat constructor..|].
  unfold V8.make_run.
  pose proof (V8_run_length_le lt (lt y x) y l) as Hle.
  set (n := 2 + V8.run_length lt (lt y x) y l) in *.
  apply V8_binary_insertion_run.
  destruct (lt y x) eqn:Hcmp.
  - assert (Hlen : n = length (reverse (take n (x :: y :: l)))).
    { rewrite length_reverse, length_take. simpl in *. lia. }
    rewrite (take_app_length' _ _ n Hlen).
    eapply Sorted_weaken; [|apply Sorted_reverse].
    + intros a b Hab. unfold flip in Hab. apply lt_asym. exact Hab.
    + simpl. constructor; [apply V8_run_length_strict|]. by constructor.
  - simpl. constructor; [apply V8_run_length_run|]. by constructor.
Qed.

Lemma V8_sort_idempotent l : V8.sort lt (V8.sort lt l) = V8.sort lt l.
Proof. apply V8_sort_fixed, V8_sort_run. Qed.

End V8Fixed.

Lemma comes_before_asym h x y :
  comes_before h x y = true → comes_before h y x = false.
Proof.
  unfold comes_before.
  destruct (timestamp h x) as [|tx], (timestamp h y) as [|ty]; try done.
  simpl. rewrite !round_double_lt_zero.
  intros Hlt%Z.ltb_lt. apply Z.ltb_ge. lia.
Qed.

Lemma filter_all {A} (P : A → Prop) `{!∀ x, Decision (P x)} (l : list A) :
  Forall P l → filter P l = l.
Proof.
  induction 1 as [|x l Hx Hl IH]; [done|]. by rewrite filter_cons_True, IH.
Qed.

(** X18: on the engine too the run is idempotent, whatever the dates: run on
    the array it returned, it returns the same posts in the same order. *)
Theorem V8_sortedPosts_idempotent h posts refs :
  is_posts h posts refs →
  length (filter (not_draft h) refs) < 64 →
  ∃ out r h1,
    V8.sortedPosts posts h = (Normal r, h1) ∧ h1 !! r = Some (OArray out) ∧
    ∃ h2, V8_returns_posts h1 r out h2.
Proof.
  intros Hposts _.
  set (out := V8.sort (comes_before h) (filter (not_draft h) refs)).
  destruct (V8_sortedPosts_returns _ _ _ Hposts) as (r & Hrun & Hr).
  fold out in Hrun, Hr. exists out, r, (h ++ [OArray out]).
  split; [done|]. split; [done|].
  assert (Hperm : out ≡ₚ filter (not_draft h) refs) by apply V8_sort_perm.
  assert (Hr' : r = length h).
  { rewrite (V8_sortedPosts_run _ _ refs) in Hrun by done.
    by injection Hrun as <- _. }
  subst r.
  assert (Hdoc : ∀ p, document_at (h ++ [OArray out]) p = document_at h p)
    by (intros p; apply document_at_alloc_array).
  assert (Hout : is_posts (h ++ [OArray out]) (length h) out).
  { split; [done|]. apply Forall_forall. intros p Hp. rewrite Hperm in Hp.
    apply list_elem_of_filter in Hp as [_ Hp]. rewrite Hdoc.
    destruct Hposts as [_ Hdocs]. rewrite Forall_forall in Hdocs. auto. }
  assert (Hkept : filter (not_draft (h ++ [OArray out])) out = out).
  { apply filter_all. apply Forall_forall. intros p Hp. rewrite Hperm in Hp.
    apply list_elem_of_filter in Hp as [Hp _].
    unfold not_draft, draft_of in *. by rewrite Hdoc. }
  assert (Hsame : V8.sort (comes_before (h ++ [OArray out])) out = out).
  { rewrite (V8_sort_ext _ (comes_before h))
      by (intros x y; by apply comes_before_ext).
    apply V8_sort_idempotent, comes_before_asym. }
  pose proof (V8_sortedPosts_returns _ _ _ Hout) as Hagain.
  rewrite Hkept, Hsame in Hagain. eexists. exact Hagain.
Qed.

Lemma V8_sortedPosts_idempotent_witness :
  let h := EngineExamples.example_invalid_dates in
  is_posts h 7 [0; 1; 2; 3; 4; 5; 6] ∧
  length (filter (not_draft h) [0; 1; 2; 3; 4; 5; 6]) < 64 ∧
  ∃ out r h1,
    V8.sortedPosts 7 h = (Normal r, h1) ∧ h1 !! r = Some (OArray out) ∧
    ∃ h2, V8_returns_posts h1 r out h2.
Proof.
  intros h.
  assert (Hposts : is_posts h 7 [0; 1; 2; 3; 4; 5; 6])
    by (split; [reflexivity | repeat constructor; by eexists]).
  assert (Hfew : length (filter (not_draft h) [0; 1; 2; 3; 4; 5; 6]) < 64)
    by (vm_compute; lia).
  split; [exact Hposts|]. split; [exact Hfew|].
  exact (V8_sortedPosts_idempotent _ _ _ Hposts Hfew).
Defined.

(** The posts of [EngineExamples.example_invalid_dates] as the engine sorts
    them, and the same once more. *)
Example V8_sortedPosts_example_invalid_dates :
  ∃ h1 h2,
    V8_returns_posts EngineExamples.example_invalid_dates 7
      [0; 1; 3; 6; 2; 4; 5] h1 ∧
    V8_returns_posts h1 8 [0; 1; 3; 6; 2; 4; 5] h2.
Proof. eexists _, _. split; eexists; split; reflexivity. Qed.

(** With an invalid date among the published posts the sort of
    [sortedPosts] and the sort of the engine need not agree: on
    [EngineExamples.example_one_invalid] they return the same posts in two
    orders. *)
Example sortedPosts_example_one_invalid :
  ∃ h1 h2,
    returns_posts EngineExamples.example_one_invalid 4 [1; 0; 2; 3] h1 ∧
    V8_returns_posts EngineExamples.example_one_invalid 4 [1; 3; 0; 2] h2.
Proof. eexists _, _. split; eexists; split; reflexivity. Qed.

(** ** The origin of the site URL *)

Lemma append_assoc (s1 s2 s3 : string) :
  ((s1 ++ s2) ++ s3)%string = (s1 ++ (s2 ++ s3))%string.
Proof.
  induction s1 as [|c s1 IH]; [done|]. by rewrite !append_String, IH.
Qed.

Lemma append_nil_r (s : string) : (s ++ "")%string = s.
Proof. induction s as [|c s IH]; [done|]. by rewrite append_String, IH. Qed.

Lemma all_chars_app P s1 s2 :
  SpecialURL.all_chars P (s1 ++ s2)
  = SpecialURL.all_chars P s1 && SpecialURL.all_chars P s2.
Proof.
  induction s1 as [|c s1 IH]; [done|].
  rewrite append_String. simpl. by rewrite IH, andb_assoc.
Qed.

Lemma all_chars_impl (P Q : ascii → bool) s :
  (∀ c, P c = true → Q c = true) →
  SpecialURL.all_chars P s = true → SpecialURL.all_chars Q s = true.
Proof.
  intros HPQ. induction s as [|c s IH]; [done|]. simpl.
  intros [Hc Hs]%andb_true_iff. rewrite (HPQ _ Hc). by apply IH.
Qed.

(** *** Code points *)

Lemma plain_domain_char_unmarked c :
  SpecialURL.is_plain_domain_char c = true → unmarked c.
Proof.
  unfold unmarked.
  destruct c as [[] [] [] [] [] [] [] []]; vm_compute; intros H;
    try discriminate H; repeat split; reflexivity.
Qed.

Lemma digit_plain_domain_char c :
  URL.is_ASCII_digit c = true → SpecialURL.is_plain_domain_char c = true.
Proof.
  unfold SpecialURL.is_plain_domain_char. intros ->.
  by rewrite orb_true_r.
Qed.

Lemma colon_facts :
  let c := ascii_of_nat 58 in
  SpecialURL.ends_authority c = false ∧ (URL.code c =? 64)%nat = false ∧
  (URL.code c =? 58)%nat = true ∧ URL.is_C0_control_or_space c = false ∧
  URL.is_ASCII_tab_or_newline c = false.
Proof. repeat split; reflexivity. Qed.

Lemma ends_authority_facts c :
  SpecialURL.ends_authority c = true →
  URL.is_ASCII_digit c = false ∧ (URL.code c =? 58)%nat = false ∧
  (URL.code c =? 64)%nat = false ∧ URL.is_C0_control_or_space c = false ∧
  URL.is_ASCII_tab_or_newline c = false.
Proof.
  destruct c as [[] [] [] [] [] [] [] []]; vm_compute; intros H;
    try discriminate H; repeat split; reflexivity.
Qed.

(** *** Decimal numbers *)

Lemma pretty_N_char_digit d :
  (d < 10)%N →
  URL.is_ASCII_digit (pretty_N_char d) = true ∧
  SpecialURL.radix_digit 10 (pretty_N_char d) = Some d.
Proof.
  intros Hd.
  assert (d = 0 ∨ d = 1 ∨ d = 2 ∨ d = 3 ∨ d = 4 ∨ d = 5 ∨ d = 6 ∨ d = 7
          ∨ d = 8 ∨ d = 9)%N as Hcases by lia.
  repeat (destruct Hcases as [->|Hcases]; [by vm_compute|]).
  subst. by vm_compute.
Qed.

Lemma pretty_N_go_digits x s :
  SpecialURL.all_chars URL.is_ASCII_digit (pretty_N_go x s)
  = SpecialURL.all_chars URL.is_ASCII_digit s.
Proof.
  revert s. induction (N.lt_wf_0 x) as [x _ IH]; intros s.
  destruct (N.eq_dec x 0%N) as [->|Hx]; [done|].
  rewrite pretty_N_go_step by lia. rewrite IH by (apply N.div_lt; lia).
  simpl. destruct (pretty_N_char_digit (x mod 10)) as [-> _]; [|done].
  apply N.mod_lt. lia.
Qed.

Lemma pretty_N_go_value x s :
  SpecialURL.radix_value 10 0 (pretty_N_go x s)
  = SpecialURL.radix_value 10 x s.
Proof.
  revert s. induction (N.lt_wf_0 x) as [x _ IH]; intros s.
  destruct (N.eq_dec x 0%N) as [->|Hx]; [done|].
  rewrite pretty_N_go_step by lia. rewrite IH by (apply N.div_lt; lia).
  simpl. destruct (pretty_N_char_digit (x mod 10)) as [_ ->];
    [apply N.mod_lt; lia|].
  f_equal. pose proof (N.div_mod x 10). lia.
Qed.

Lemma pretty_N_go_nonempty x s :
  String.eqb s EmptyString = false →
  String.eqb (pretty_N_go x s) EmptyString = false.
Proof.
  revert s. induction (N.lt_wf_0 x) as [x _ IH]; intros s Hs.
  destruct (N.eq_dec x 0%N) as [->|Hx]; [done|].
  rewrite pretty_N_go_step by lia. apply IH; [apply N.div_lt; lia | done].
Qed.

(** The decimal text of a number is made of digits, is not empty, and reads
    back as the number. *)
Lemma pretty_N_decimal (p : N) :
  SpecialURL.all_chars URL.is_ASCII_digit (pretty p) = true ∧
  String.eqb (pretty p) EmptyString = false ∧
  SpecialURL.radix_value 10 0 (pretty p) = Some p.
Proof.
  unfold pretty, pretty_N. destruct (decide (p = 0%N)) as [->|Hp]; [done|].
  split; [by rewrite pretty_N_go_digits|]. split.
  - rewrite pretty_N_go_step by lia. by apply pretty_N_go_nonempty.
  - by rewrite pretty_N_go_value.
Qed.

(** *** The input before the parser *)



Lemma not_blank_not_tab c :
  not_blank c = true → URL.is_ASCII_tab_or_newline c = false.
Proof.
  destruct c as [[] [] [] [] [] [] [] []]; vm_compute; intros H;
    try discriminate H; reflexivity.
Qed.

Lemma strip_trailing_not_blank u v :
  SpecialURL.all_chars not_blank u = true →
  URL.strip_trailing (u ++ v) = (u ++ URL.strip_trailing v)%string.
Proof.
  induction u as [|c u IH]; [done|]. simpl.
  intros [Hc Hu]%andb_true_iff. rewrite !append_String. simpl.
  rewrite (IH Hu). apply negb_true_iff in Hc. rewrite Hc.
  by destruct (u ++ URL.strip_trailing v)%string.
Qed.

Lemma remove_tab_or_newline_not_blank u v :
  SpecialURL.all_chars not_blank u = true →
  URL.remove_tab_or_newline (u ++ v)
  = (u ++ URL.remove_tab_or_newline v)%string.
Proof.
  induction u as [|c u IH]; [done|]. simpl.
  intros [Hc Hu]%andb_true_iff. rewrite !append_String. simpl.
  by rewrite (not_blank_not_tab _ Hc), (IH Hu).
Qed.

(** What follows the authority still does after the blanks at its end and
    its tabs and newlines are gone. *)
Lemma follows_authority_stripped tail :
  SpecialURL.follows_authority tail = true →
  SpecialURL.follows_authority
    (URL.remove_tab_or_newline (URL.strip_trailing tail)) = true.
Proof.
  destruct tail as [|c tail]; [done|]. intros Hc.
  cbn [SpecialURL.follows_authority] in Hc.
  destruct (ends_authority_facts _ Hc) as (_ & _ & _ & Hblank & Htab).
  replace (URL.strip_trailing (String c tail))
    with (String c (URL.strip_trailing tail)).
  - cbn [URL.remove_tab_or_newline]. by rewrite Htab.
  - cbn [URL.strip_trailing]. rewrite Hblank.
    by destruct (URL.strip_trailing tail).
Qed.

(** *** The states on an authority in plain form *)

Section SpecialStates.

Variable rt : SpecialURL.Runtime.
Variable scheme : string.

Lemma append_snoc buffer c u :
  ((buffer ++ String c EmptyString) ++ u)%string
  = (buffer ++ String c u)%string.
Proof. by rewrite append_assoc, append_String, append_EmptyString. Qed.

Lemma authority_state_read atSignSeen passwordTokenSeen username password
    buffer u v :
  SpecialURL.all_chars
    (λ c, negb (SpecialURL.ends_authority c) && negb (URL.code c =? 64)%nat)
    u = true →
  SpecialURL.authority_state rt scheme atSignSeen passwordTokenSeen username
    password buffer (u ++ v)
  = SpecialURL.authority_state rt scheme atSignSeen passwordTokenSeen username
      password (buffer ++ u) v.
Proof.
  revert buffer. induction u as [|c u IH]; intros buffer Hu.
  - by rewrite append_EmptyString, append_nil_r.
  - cbn [SpecialURL.all_chars] in Hu.
    apply andb_true_iff in Hu as [Hc Hu].
    apply andb_true_iff in Hc as [Hc1%negb_true_iff Hc2%negb_true_iff].
    rewrite append_String. cbn [SpecialURL.authority_state].
    rewrite Hc2, Hc1, IH by done. by rewrite append_snoc.
Qed.

Lemma host_state_read buffer u v :
  SpecialURL.all_chars
    (λ c, negb (URL.code c =? 58)%nat && negb (SpecialURL.ends_authority c)
          && negb (URL.code c =? 91)%nat && negb (URL.code c =? 93)%nat)
    u = true →
  SpecialURL.host_state rt scheme false buffer (u ++ v)
  = SpecialURL.host_state rt scheme false (buffer ++ u) v.
Proof.
  revert buffer. induction u as [|c u IH]; intros buffer Hu.
  - by rewrite append_EmptyString, append_nil_r.
  - cbn [SpecialURL.all_chars] in Hu.
    apply andb_true_iff in Hu as [Hc Hu].
    apply andb_true_iff in Hc as [Hc Hc4%negb_true_iff].
    apply andb_true_iff in Hc as [Hc Hc3%negb_true_iff].
    apply andb_true_iff in Hc as [Hc1%negb_true_iff Hc2%negb_true_iff].
    rewrite append_String. cbn [SpecialURL.host_state].
    rewrite Hc1, Hc2, Hc3, Hc4. cbn [andb]. rewrite IH by done.
    by rewrite append_snoc.
Qed.

Lemma port_state_read buffer u v :
  SpecialURL.all_chars URL.is_ASCII_digit u = true →
  SpecialURL.port_state scheme buffer (u ++ v)
  = SpecialURL.port_state scheme (buffer ++ u) v.
Proof.
  revert buffer. induction u as [|c u IH]; intros buffer Hu.
  - by rewrite append_EmptyString, append_nil_r.
  - cbn [SpecialURL.all_chars] in Hu.
    apply andb_true_iff in Hu as [Hc Hu].
    rewrite append_String. cbn [SpecialURL.port_state].
    rewrite Hc, IH by done. by rewrite append_snoc.
Qed.

Lemma port_state_end buffer tail :
  SpecialURL.follows_authority tail = true →
  SpecialURL.port_state scheme buffer tail
  = (port ← SpecialURL.port_of scheme buffer; Some (port, tail)).
Proof.
  destruct tail as [|c tail]; [done|]. intros Hc.
  cbn [SpecialURL.follows_authority] in Hc.
  destruct (ends_authority_facts _ Hc) as (Hdigit & _).
  cbn [SpecialURL.port_state]. by rewrite Hdigit, Hc.
Qed.

Lemma host_state_end buffer tail :
  SpecialURL.follows_authority tail = true →
  String.eqb buffer EmptyString = false →
  SpecialURL.host_state rt scheme false buffer tail
  = (host ← SpecialURL.host_parser rt buffer; Some (host, None, tail)).
Proof.
  intros Htail Hbuffer. destruct tail as [|c tail].
  - cbn [SpecialURL.host_state]. by rewrite Hbuffer.
  - cbn [SpecialURL.follows_authority] in Htail.
    destruct (ends_authority_facts _ Htail) as (_ & Hcolon & _).
    cbn [SpecialURL.host_state]. by rewrite Hcolon, Htail, Hbuffer.
Qed.

Lemma host_state_colon buffer v :
  String.eqb buffer EmptyString = false →
  SpecialURL.host_state rt scheme false buffer (":" ++ v)
  = (host ← SpecialURL.host_parser rt buffer;
     '(port, remaining) ← SpecialURL.port_state scheme EmptyString v;
     Some (host, port, remaining)).
Proof.
  intros Hbuffer. rewrite append_String, append_EmptyString.
  cbn [SpecialURL.host_state].
  change (URL.code ":" =? 58)%nat with true. cbn [andb negb].
  by rewrite Hbuffer.
Qed.

Lemma authority_state_end passwordTokenSeen username password buffer tail :
  SpecialURL.follows_authority tail = true →
  SpecialURL.authority_state rt scheme false passwordTokenSeen username
    password buffer tail
  = SpecialURL.end_of_authority rt scheme false username password buffer tail.
Proof.
  destruct tail as [|c tail]; [done|]. intros Hc.
  cbn [SpecialURL.follows_authority] in Hc.
  destruct (ends_authority_facts _ Hc) as (_ & _ & Hat & _).
  cbn [SpecialURL.authority_state]. by rewrite Hat, Hc.
Qed.

Lemma percent_decode_plain s :
  SpecialURL.all_chars SpecialURL.is_plain_domain_char s = true →
  SpecialURL.percent_decode s = s.
Proof.
  induction s as [|c s IH]; [done|]. cbn [SpecialURL.all_chars].
  intros [Hc Hs]%andb_true_iff.
  destruct (plain_domain_char_unmarked _ Hc) as (_ & _ & _ & _ & _ & Hp & _).
  cbn [SpecialURL.percent_decode]. by rewrite Hp, (IH Hs).
Qed.

Lemma ASCII_lowercase_plain s :
  SpecialURL.all_chars SpecialURL.is_plain_domain_char s = true →
  SpecialURL.ASCII_lowercase s = s.
Proof.
  induction s as [|c s IH]; [done|]. cbn [SpecialURL.all_chars].
  intros [Hc Hs]%andb_true_iff.
  destruct (plain_domain_char_unmarked _ Hc)
    as (_ & _ & _ & _ & _ & _ & _ & Hl & _).
  cbn [SpecialURL.ASCII_lowercase]. by rewrite Hl, (IH Hs).
Qed.

(** The host parser leaves a domain in plain form as it is. *)
Lemma host_parser_plain host :
  SpecialURL.is_plain_domain host = true →
  SpecialURL.host_parser rt host = Some (URL.Domain host).
Proof.
  unfold SpecialURL.is_plain_domain.
  intros [[[Hne%negb_true_iff Hchars]%andb_true_iff
             Hxn%negb_true_iff]%andb_true_iff
            Hnum%negb_true_iff]%andb_true_iff.
  destruct host as [|c host]; [done|].
  pose proof Hchars as Hall. cbn [SpecialURL.all_chars] in Hchars.
  apply andb_true_iff in Hchars as [Hc _].
  destruct (plain_domain_char_unmarked _ Hc) as (_ & _ & _ & Hb & _).
  cbn [SpecialURL.host_parser]. rewrite Hb.
  rewrite (percent_decode_plain _ Hall).
  unfold SpecialURL.domain_to_ASCII.
  rewrite Hxn, (ASCII_lowercase_plain _ Hall).
  replace (SpecialURL.is_ASCII_string (String c host)) with true; cycle 1.
  { symmetry. eapply all_chars_impl; [|exact Hall].
    intros d Hd. by destruct (plain_domain_char_unmarked _ Hd)
      as (_ & _ & _ & _ & _ & _ & ? & _). }
  cbn [andb negb mbind option_bind]. rewrite Hne.
  replace (SpecialURL.all_chars _ (String c host)) with true; cycle 1.
  { symmetry. eapply all_chars_impl; [|exact Hall].
    intros d Hd. destruct (plain_domain_char_unmarked _ Hd)
      as (_ & _ & _ & _ & _ & _ & _ & _ & Hf & _). by rewrite Hf. }
  cbn [negb mbind option_bind]. by rewrite Hnum.
Qed.

(** The states on [//host], [//host:port], and what follows: the host is
    the domain, the port is the number unless it is the default port, and a
    number above 65535 is a failure. *)
Lemma special_authority_plain host (port : option N) tail :
  SpecialURL.is_plain_domain host = true →
  SpecialURL.follows_authority tail = true →
  SpecialURL.special_authority_slashes_state rt scheme
    ("//" ++ host ++ match port with
                     | Some p => ":" ++ pretty p
                     | None => ""
                     end ++ tail)
  = match port with
    | Some p =>
        if (65535 <? p)%N then None
        else Some (EmptyString, EmptyString, URL.Domain host,
                   if bool_decide (SpecialURL.default_port scheme = Some p)
                   then None else Some p,
                   tail)
    | None => Some (EmptyString, EmptyString, URL.Domain host, None, tail)
    end.
Proof.
  intros Hplain Htail.
  pose proof (host_parser_plain _ Hplain) as Hparse.
  unfold SpecialURL.is_plain_domain in Hplain.
  apply andb_true_iff in Hplain as [Hplain _].
  apply andb_true_iff in Hplain as [Hplain _].
  apply andb_true_iff in Hplain as [Hne%negb_true_iff Hchars].
  rewrite !append_String, append_EmptyString.
  cbn [SpecialURL.special_authority_slashes_state].
  change ((URL.code "/" =? 47)%nat && (URL.code "/" =? 47)%nat) with true.
  cbv iota.
  assert (Hhost : SpecialURL.all_chars
            (λ c, negb (URL.code c =? 58)%nat
                  && negb (SpecialURL.ends_authority c)
                  && negb (URL.code c =? 91)%nat
                  && negb (URL.code c =? 93)%nat) host = true).
  { eapply all_chars_impl; [|exact Hchars]. intros c Hc.
    destruct (plain_domain_char_unmarked _ Hc)
      as (-> & _ & -> & -> & -> & _). done. }
  assert (Hauth : SpecialURL.all_chars
            (λ c, negb (SpecialURL.ends_authority c)
                  && negb (URL.code c =? 64)%nat) host = true).
  { eapply all_chars_impl; [|exact Hchars]. intros c Hc.
    destruct (plain_domain_char_unmarked _ Hc) as (-> & -> & _). done. }
  set (text := match port with Some p => (":" ++ pretty p)%string
               | None => EmptyString end).
  assert (Htext : SpecialURL.all_chars
            (λ c, negb (SpecialURL.ends_authority c)
                  && negb (URL.code c =? 64)%nat) text = true).
  { unfold text. destruct port as [p|]; [|done].
    rewrite append_String, append_EmptyString. cbn [SpecialURL.all_chars].
    change (negb (SpecialURL.ends_authority ":")
            && negb (URL.code ":" =? 64)%nat) with true. cbn [andb].
    eapply all_chars_impl; [|apply pretty_N_decimal]. intros c Hc.
    destruct (plain_domain_char_unmarked _ (digit_plain_domain_char _ Hc))
      as (-> & -> & _). done. }
  (* the slashes *)
  destruct host as [|c0 host0] eqn:Ehost; [done|]. rewrite <- Ehost in *.
  assert (Hstart : SpecialURL.special_authority_ignore_slashes_state rt scheme
                     (host ++ text ++ tail)
                   = SpecialURL.authority_state rt scheme false false
                       EmptyString EmptyString EmptyString
                       (host ++ text ++ tail)).
  { rewrite Ehost, append_String.
    cbn [SpecialURL.special_authority_ignore_slashes_state].
    rewrite Ehost in Hchars. cbn [SpecialURL.all_chars] in Hchars.
    apply andb_true_iff in Hchars as [Hc _].
    destruct (plain_domain_char_unmarked _ Hc) as (He & _).
    unfold SpecialURL.ends_authority in He.
    apply orb_false_iff in He as [He He4].
    apply orb_false_iff in He as [He _].
    apply orb_false_iff in He as [He1 _].
    by rewrite He1, He4. }
  rewrite Hstart.
  (* the authority *)
  rewrite <- append_assoc.
  rewrite authority_state_read by (by rewrite all_chars_app, Hauth, Htext).
  rewrite append_EmptyString, authority_state_end by done.
  unfold SpecialURL.end_of_authority. cbn [andb].
  (* the host *)
  rewrite append_assoc, host_state_read, append_EmptyString by done.
  unfold text. destruct port as [p|].
  - rewrite append_assoc, host_state_colon by done. rewrite Hparse.
    cbn [mbind option_bind].
    destruct (pretty_N_decimal p) as (Hdigits & Hnonempty & Hvalue).
    rewrite port_state_read, append_EmptyString, port_state_end by done.
    unfold SpecialURL.port_of. rewrite Hnonempty, Hvalue.
    destruct (65535 <? p)%N; [done|].
    by destruct (bool_decide _).
  - rewrite append_EmptyString, host_state_end by done. by rewrite Hparse.
Qed.

End SpecialStates.

(** *** Domains in plain form *)

Lemma label_char_facts c :
  is_label_char c = true →
  SpecialURL.is_plain_domain_char c = true ∧ (URL.code c =? 46)%nat = false.
Proof.
  destruct c as [[] [] [] [] [] [] [] []]; vm_compute; intros H;
    try discriminate H; repeat split; reflexivity.
Qed.

Lemma letter_facts c :
  bool_decide (c ∈ list_ascii_of_string "abcdefghijklmnopqrstuvwxyz") = true →
  URL.is_ASCII_digit c = false ∧ (URL.code c =? 48)%nat = false ∧
  SpecialURL.radix_digit 10 c = None.
Proof.
  destruct c as [[] [] [] [] [] [] [] []]; vm_compute; intros H;
    try discriminate H; repeat split; reflexivity.
Qed.

Lemma after_authority_follows tail :
  after_authority tail = true → SpecialURL.follows_authority tail = true.
Proof.
  destruct tail as [|c tail]; [done|]. simpl.
  destruct c as [[] [] [] [] [] [] [] []]; vm_compute; intros H;
    try discriminate H; reflexivity.
Qed.

Lemma split_on_dot_read item u v :
  SpecialURL.all_chars is_label_char u = true →
  SpecialURL.split_on_dot item (u ++ v)
  = SpecialURL.split_on_dot (item ++ u) v.
Proof.
  revert item. induction u as [|c u IH]; intros item Hu.
  - by rewrite append_EmptyString, append_nil_r.
  - cbn [SpecialURL.all_chars] in Hu. apply andb_true_iff in Hu as [Hc Hu].
    destruct (label_char_facts _ Hc) as [_ Hdot].
    rewrite append_String. cbn [SpecialURL.split_on_dot].
    rewrite Hdot, IH by done. by rewrite append_snoc.
Qed.

Lemma concat_cons sep (x y : string) l :
  String.concat sep (x :: y :: l)
  = (x ++ sep ++ String.concat sep (y :: l))%string.
Proof. reflexivity. Qed.

Lemma plain_label_chars label :
  plain_label label = true → SpecialURL.all_chars is_label_char label = true.
Proof. unfold plain_label. by intros [? _]%andb_true_iff. Qed.

(** The strict split of the labels joined by dots gives the labels back. *)
Lemma strictly_split_concat label labels :
  forallb plain_label (label :: labels) = true →
  SpecialURL.strictly_split (String.concat "." (label :: labels))
  = label :: labels.
Proof.
  unfold SpecialURL.strictly_split. revert label.
  induction labels as [|label' labels IH]; intros label Hall;
    cbn [forallb] in Hall; apply andb_true_iff in Hall as [Hl Hall].
  - cbn [String.concat]. rewrite <- (append_nil_r label) at 1.
    by rewrite split_on_dot_read, append_EmptyString
      by (by apply plain_label_chars).
  - rewrite concat_cons.
    rewrite split_on_dot_read, append_EmptyString
      by (by apply plain_label_chars).
    rewrite append_String, append_EmptyString.
    cbn [SpecialURL.split_on_dot].
    change (URL.code "." =? 46)%nat with true. cbv iota.
    by rewrite IH.
Qed.

Lemma concat_plain_chars labels :
  forallb plain_label labels = true →
  SpecialURL.all_chars SpecialURL.is_plain_domain_char
    (String.concat "." labels) = true.
Proof.
  assert (Hlabel : ∀ label, plain_label label = true →
            SpecialURL.all_chars SpecialURL.is_plain_domain_char label = true).
  { intros label Hl. eapply all_chars_impl; [|by apply plain_label_chars].
    intros c Hc. by destruct (label_char_facts _ Hc). }
  induction labels as [|label labels IH]; [done|]. cbn [forallb].
  intros [Hl Hall]%andb_true_iff. destruct labels as [|label' labels].
  - by apply Hlabel.
  - rewrite concat_cons, !all_chars_app, (Hlabel _ Hl), (IH Hall).
    reflexivity.
Qed.

Lemma concat_nonempty labels c s :
  last labels = Some (String c s) →
  String.eqb (String.concat "." labels) EmptyString = false.
Proof.
  destruct labels as [|label [|label' labels]]; [done| |].
  - by intros [= ->].
  - intros _. rewrite concat_cons. destruct label; [done|].
    by rewrite append_String.
Qed.

Lemma plain_label_not_xn label :
  plain_label label = true → SpecialURL.starts_with_xn label = false.
Proof.
  unfold plain_label. intros [Hchars Hxn%negb_true_iff]%andb_true_iff.
  destruct label as [|c1 [|c2 [|c3 [|c4 label]]]]; try done.
  cbn [SpecialURL.all_chars] in Hchars.
  apply andb_true_iff in Hchars as [H1 Hchars].
  apply andb_true_iff in Hchars as [H2 Hchars].
  apply andb_true_iff in Hchars as [H3 Hchars].
  apply andb_true_iff in Hchars as [H4 _].
  assert (Hlower : ∀ c, is_label_char c = true → URL.ASCII_lowercase c = c).
  { intros c Hc. destruct (label_char_facts _ Hc) as [Hp _].
    by destruct (plain_domain_char_unmarked _ Hp)
      as (_ & _ & _ & _ & _ & _ & _ & ? & _). }
  unfold SpecialURL.starts_with_xn. cbn [SpecialURL.ASCII_lowercase].
  rewrite !Hlower by done.
  destruct (String.eqb _ "xn--") eqn:E; [|done].
  apply String.eqb_eq in E. injection E as -> -> -> ->.
  simpl in Hxn. by destruct label.
Qed.

Lemma ends_in_a_number_letter labels c s :
  forallb plain_label labels = true →
  last labels = Some (String c s) →
  starts_with_letter (String c s) = true →
  SpecialURL.ends_in_a_number (String.concat "." labels) = false.
Proof.
  intros Hall Hlast Hletter. unfold SpecialURL.ends_in_a_number.
  destruct labels as [|label labels]; [done|].
  rewrite strictly_split_concat by done.
  apply last_Some in Hlast as [init ->].
  rewrite reverse_app. cbn [reverse rev_append app].
  change (reverse [String c s]) with [String c s]. cbn [app].
  cbn [starts_with_letter] in Hletter.
  destruct (letter_facts _ Hletter) as (Hdigit & Hzero & Hradix).
  cbn [SpecialURL.all_chars String.eqb negb andb]. rewrite Hdigit.
  cbn [andb orb].
  replace (SpecialURL.IPv4_number_parser (String c s)) with (@None N);
    [done|].
  unfold SpecialURL.IPv4_number_parser.
  destruct s as [|c2 s]; cbn [SpecialURL.radix_value]; rewrite ?Hzero, Hradix;
    done.
Qed.

(** The labels of a domain in plain form, joined by dots, are a host the
    host parser takes as it is. *)
Lemma plain_domain_concat labels :
  plain_domain labels = true →
  SpecialURL.is_plain_domain (String.concat "." labels) = true.
Proof.
  unfold plain_domain. intros [Hall Hlast]%andb_true_iff.
  destruct (last labels) as [[|c s]|] eqn:El; try done.
  unfold SpecialURL.is_plain_domain.
  rewrite (concat_nonempty _ _ _ El), (concat_plain_chars _ Hall).
  rewrite (ends_in_a_number_letter _ _ _ Hall El Hlast).
  destruct labels as [|label labels]; [done|].
  rewrite strictly_split_concat by done.
  replace (existsb SpecialURL.starts_with_xn (label :: labels)) with false;
    [done|].
  symmetry. apply not_true_iff_false. intros (l & Hin & Hxn)%existsb_exists.
  rewrite forallb_forall in Hall.
  by rewrite (plain_label_not_xn _ (Hall _ Hin)) in Hxn.
Qed.


Lemma special_scheme_facts scheme :
  URL.has_tuple_origin scheme = true →
  (∀ rest, URL.scheme_start_state (scheme ++ ":" ++ rest)
           = Some (scheme, rest)) ∧
  (∀ rest, URL.strip_leading (scheme ++ rest) = (scheme ++ rest)%string) ∧
  SpecialURL.all_chars not_blank scheme = true ∧
  SpecialURL.is_special scheme && negb (String.eqb scheme "file") = true.
Proof.
  unfold URL.has_tuple_origin. intros Hs%bool_decide_eq_true.
  repeat (apply elem_of_cons in Hs as [->|Hs];
          [repeat split; intros; reflexivity|]).
  by apply elem_of_nil in Hs.
Qed.

Lemma port_text_not_blank (port : option N) :
  SpecialURL.all_chars not_blank
    match port with Some p => (":" ++ pretty p)%string | None => EmptyString end
  = true.
Proof.
  destruct port as [p|]; [|done].
  rewrite append_String, append_EmptyString. cbn [SpecialURL.all_chars].
  change (not_blank ":") with true. cbn [andb].
  eapply all_chars_impl; [|apply pretty_N_decimal]. intros c Hc.
  unfold not_blank.
  destruct (plain_domain_char_unmarked _ (digit_plain_domain_char _ Hc))
    as (_ & _ & _ & _ & _ & _ & _ & _ & _ & -> & _). done.
Qed.

Lemma plain_domain_not_blank host :
  SpecialURL.is_plain_domain host = true →
  SpecialURL.all_chars not_blank host = true.
Proof.
  unfold SpecialURL.is_plain_domain. intros Hplain.
  apply andb_true_iff in Hplain as [Hplain _].
  apply andb_true_iff in Hplain as [Hplain _].
  apply andb_true_iff in Hplain as [_ Hchars].
  eapply all_chars_impl; [|exact Hchars]. intros c Hc. unfold not_blank.
  destruct (plain_domain_char_unmarked _ Hc)
    as (_ & _ & _ & _ & _ & _ & _ & _ & _ & -> & _). done.
Qed.

(** The parser on a site URL made of a scheme, a domain in plain form, a
    port or none, and anything that may follow the authority: the states
    after the scheme see the slashes, the domain, the port and what follows
    without the blanks at its end and without tabs and newlines. *)
Lemma site_reaches_authority rt scheme host (port : option N) tail :
  URL.has_tuple_origin scheme = true →
  SpecialURL.is_plain_domain host = true →
  URL.basic_URL_parser (SpecialURL.after_scheme rt)
    (scheme ++ "://" ++ host ++
     match port with Some p => ":" ++ pretty p | None => "" end ++ tail)
  = match SpecialURL.after_scheme rt scheme
            ("//" ++ host ++
             match port with Some p => ":" ++ pretty p | None => "" end ++
             URL.remove_tab_or_newline (URL.strip_trailing tail)) with
    | Some r => Some {| URL.scheme := scheme; URL.rest := r |}
    | None => None
    end.
Proof.
  intros Hscheme Hplain.
  destruct (special_scheme_facts _ Hscheme)
    as (Hstart & Hleading & Hblank & Hspecial).
  pose proof (plain_domain_not_blank _ Hplain) as Hhost.
  pose proof (port_text_not_blank port) as Htext.
  set (text := match port with Some p => (":" ++ pretty p)%string
               | None => EmptyString end) in *.
  assert (Hsep : SpecialURL.all_chars not_blank "://" = true) by reflexivity.
  unfold URL.basic_URL_parser.
  rewrite Hleading, !strip_trailing_not_blank by done.
  rewrite !remove_tab_or_newline_not_blank by done.
  set (tail' := URL.remove_tab_or_newline (URL.strip_trailing tail)).
  change ("://" ++ host ++ text ++ tail')%string
    with (":" ++ "//" ++ host ++ text ++ tail')%string.
  by rewrite Hstart.
Qed.


(** A port above 65535 is a failure of the parser. *)
Lemma site_large_port rt scheme host (p : N) tail :
  URL.has_tuple_origin scheme = true →
  SpecialURL.is_plain_domain host = true →
  (65535 < p)%N →
  SpecialURL.follows_authority tail = true →
  URL.basic_URL_parser (SpecialURL.after_scheme rt)
    (scheme ++ "://" ++ host ++ (":" ++ pretty p) ++ tail) = None.
Proof.
  intros Hscheme Hplain Hport Htail.
  rewrite (site_reaches_authority rt scheme host (Some p)) by done.
  destruct (special_scheme_facts _ Hscheme) as (_ & _ & _ & Hspecial).
  pose proof (follows_authority_stripped _ Htail) as Htail'.
  set (tail' := URL.remove_tab_or_newline (URL.strip_trailing tail)) in *.
  unfold SpecialURL.after_scheme. rewrite Hspecial.
  rewrite (special_authority_plain rt scheme host (Some p) tail' Hplain Htail').
  by destruct (N.ltb_spec 65535 p) as [_|]; [|lia].
Qed.



(** The site URL of the blog and some others, loaded. *)
Example config_site_url_examples :
  SITE_URL_of SiteExamples.plain_runtime "https://blog.damianesteban.dev"
  = Normal "https://blog.damianesteban.dev"%string ∧
  SITE_URL_of SiteExamples.plain_runtime
    "https://blog.damianesteban.dev/blog/?page=2#top"
  = Normal "https://blog.damianesteban.dev"%string ∧
  SITE_URL_of SiteExamples.plain_runtime "https://blog.damianesteban.dev:443/"
  = Normal "https://blog.damianesteban.dev"%string ∧
  SITE_URL_of SiteExamples.plain_runtime "http://localhost:4321/"
  = Normal "http://localhost:4321"%string ∧
  SITE_URL_of SiteExamples.plain_runtime "http://127.0.0.1:8080/blog"
  = Normal "http://127.0.0.1:8080"%string ∧
  SITE_URL_of SiteExamples.plain_runtime "HTTPS://User@Example.COM:08080"
  = Normal "https://example.com:8080"%string ∧
  SITE_URL_of SiteExamples.plain_runtime "https://blog.example:65536"
  = Throw TypeError ∧
  SITE_URL_of SiteExamples.plain_runtime "https://" = Throw TypeError.
Proof. repeat split; reflexivity. Qed.

(** X17: a port above 65535 in the site URL makes the load of the
    configuration throw a TypeError. *)
Theorem config_rejects_large_port rt scheme labels (p : N) tail :
  scheme ∈ ["ftp"; "http"; "https"; "ws"; "wss"]%string →
  plain_domain labels = true →
  (65535 < p)%N →
  after_authority tail = true →
  Config.load (SpecialURL.after_scheme rt)
    {| Config.SITE :=
         Some (scheme ++ "://" ++ String.concat "." labels ++
               (":" ++ pretty p) ++ tail)%string |}
  = Throw TypeError.
Proof.
  intros Hscheme Hplain%plain_domain_concat Hport Htail%after_authority_follows.
  apply (bool_decide_eq_true_2 _) in Hscheme.
  fold (URL.has_tuple_origin scheme) in Hscheme.
  unfold Config.load, Config.URL_new. cbn [Config.SITE Config.ToString].
  by rewrite (site_large_port rt scheme _ p tail Hscheme Hplain Hport Htail).
Qed.

Lemma config_rejects_large_port_witness :
  "https"%string ∈ ["ftp"; "http"; "https"; "ws"; "wss"]%string ∧
  plain_domain ["blog"; "damianesteban"; "dev"]%string = true ∧
  (65535 < 65536)%N ∧
  after_authority "/" = true ∧
  Config.load (SpecialURL.after_scheme SiteExamples.plain_runtime)
    {| Config.SITE := Some "https://blog.damianesteban.dev:65536/"%string |}
  = Throw TypeError.
Proof.
  assert (Hscheme : "https"%string ∈ ["ftp"; "http"; "https"; "ws"; "wss"]%string)
    by (apply (bool_decide_eq_true_1 _); reflexivity).
  split; [exact Hscheme|]. split; [reflexivity|]. split; [lia|].
  split; [reflexivity|].
  exact (config_rejects_large_port SiteExamples.plain_runtime "https"
           ["blog"; "damianesteban"; "dev"]%string 65536%N "/"
           Hscheme eq_refl ltac:(lia) eq_refl).
Defined.
